(** * WarpFS: the chunked upload session engine of the Express server

    A shallow embedding of the upload handlers of the WarpFS backend
    (the Express application): [POST /upload-chunked/init],
    [POST /upload-chunked/chunk], [POST /upload-chunked/finalize],
    [DELETE /upload-chunked/cancel/:sessionId], the periodic stale-session
    sweep, [POST /upload] and the helper [cleanupTempDirectory], together
    with the slicing loop of the browser client ([uploadFileChunked]).

    Conventions of the embedding.
    - The process state is the pair of in-memory maps [chunkSessions] and
      [uploadProgress] plus the disk.  Every handler is a function from a
      request and a state to a response and a state; [Date.now()] is an
      argument.  Handlers run to completion one after the other (the
      interleaving of concurrent requests is not modelled), and promises
      that the code does not await are taken as settled.
    - A path is the list of its components below [__dirname] (POSIX
      paths).  The names that the handlers append to a directory
      ([sessionId], [fileName], [userId], [originalname], the multer temp
      name) are taken as single components.  This is what the code does
      for the names described by [single_name] below; a name that holds a
      separator, and a path that climbs above [__dirname], are outside
      the embedding, and the theorems that follow a name to its place on
      disk ask for [single_name].  [path.join] normalises [""], ["."] and
      [".."].
    - The disk is a finite map from paths to directories and regular
      files.  A failing write is an argument of finalize ([faults]).  The
      write stream of finalize has no ['error'] listener: when it cannot
      be opened or a write fails, Node throws the unhandled event and the
      process exits ([ProcessExit]); nothing is answered and the
      registries are lost with the process.
    - Numbers are integers ([Z]); [parseInt] of the [chunkIndex] form field
      is taken as already done, [NaN] is outside the model, and the names
      derived from an index are those of the code for the integers that a
      JavaScript number holds exactly ([safe_integer]).  The floating
      point fields of the progress records and the timestamps and [id] of
      the file records are left out.
    - The authentication middleware has run: a request carries the
      authenticated [userId]. *)

From Stdlib Require Import ZArith Lia Ascii String List.
From stdpp Require Import base gmap sets list strings.

Local Open Scope string_scope.
Local Open Scope list_scope.
Local Open Scope nat_scope.

(** ** Bytes, strings and numbers *)

Abbreviation bytes := (list Byte.byte).

(** [Number.prototype.toString] on an integer: plain decimal digits. *)
Definition digit_char (d : nat) : ascii := ascii_of_nat (48 + d).

Fixpoint digits_aux (fuel n : nat) (acc : string) : string :=
  match fuel with
  | O => acc
  | S f =>
      let acc' := String (digit_char (n mod 10)) acc in
      if (n <? 10)%nat then acc' else digits_aux f (n / 10) acc'
  end.

Definition nat_toString (n : nat) : string := digits_aux (S n) n "".

Definition Z_toString (z : Z) : string :=
  match z with
  | Z0 => "0"
  | Zpos p => nat_toString (Pos.to_nat p)
  | Zneg p => String "-" (nat_toString (Pos.to_nat p))
  end.

(** [String.prototype.padStart(n, c)] for a one-character filler. *)
Fixpoint fill (k : nat) (c : ascii) (s : string) : string :=
  match k with
  | O => s
  | S k' => String c (fill k' c s)
  end.

Definition padStart (n : nat) (c : ascii) (s : string) : string :=
  fill (n - String.length s) c s.

(** [Number.MAX_SAFE_INTEGER]: up to here every integer is a JavaScript
    number and [toString] gives its decimal digits. *)
Definition MAX_SAFE_INTEGER : Z := (2 ^ 53 - 1)%Z.

Definition safe_integer (i : Z) : bool :=
  (- MAX_SAFE_INTEGER <=? i)%Z && (i <=? MAX_SAFE_INTEGER)%Z.

(** [`chunk_${i.toString().padStart(6, '0')}`], for a safe integer. *)
Definition chunk_name (i : Z) : string :=
  "chunk_" +:+ padStart 6 "0" (Z_toString i).

(** ** [path] of Node, on names without separator *)

Abbreviation path := (list string).

(** Index of the last ["."] of a name. *)
Fixpoint last_dot (s : string) : option nat :=
  match s with
  | EmptyString => None
  | String c s' =>
      match last_dot s' with
      | Some i => Some (S i)
      | None => if Ascii.eqb c "." then Some O else None
      end
  end.

(** [path.extname]: from the last dot to the end; empty when there is no
    dot, when the only dot is the first character, or for [".."]. *)
Definition extname (s : string) : string :=
  match last_dot s with
  | Some (S i) =>
      if String.eqb s ".." then ""
      else substring (S i) (String.length s - S i) s
  | _ => ""
  end.

Definition ends_with (suffix s : string) : bool :=
  let n := String.length s in
  let k := String.length suffix in
  (k <=? n)%nat && String.eqb (substring (n - k) k s) suffix.

(** [path.basename(name, ext)]: the name without the given suffix. *)
Definition basename_ext (s ext : string) : string :=
  if String.eqb ext "" then s
  else if String.eqb ext s then ""
  else if ends_with ext s then substring 0 (String.length s - String.length ext) s
  else s.

(** [`${nameWithoutExt} (${counter})${ext}`] as both upload paths build it. *)
Definition numbered_name (name : string) (counter : nat) : string :=
  let ext := extname name in
  let nameWithoutExt := basename_ext name ext in
  nameWithoutExt +:+ " (" +:+ nat_toString counter +:+ ")" +:+ ext.

Definition skip_component (c : string) : bool :=
  String.eqb c "" || String.eqb c ".".

(** Normalisation done by [path.join]; [acc] is the reversed result. *)
Fixpoint normalize_aux (acc : path) (cs : path) : path :=
  match cs with
  | [] => rev acc
  | c :: cs' =>
      if skip_component c then normalize_aux acc cs'
      else if String.eqb c ".." then normalize_aux (tail acc) cs'
      else normalize_aux (c :: acc) cs'
  end.

Definition path_join (base rel : path) : path := normalize_aux [] (base ++ rel).

(** The textual form of a path, used by the [startsWith] check. *)
Fixpoint render (p : path) : string :=
  match p with
  | [] => ""
  | c :: p' => "/" +:+ c +:+ render p'
  end.

Definition parent (p : path) : path := take (length p - 1) p.

Definition basename (p : path) : string := default "" (last p).

(** [path.relative(from, to)]: drop the common prefix, climb out of what is
    left of [from], descend into what is left of [to]. *)
Fixpoint path_relative (from to : path) : path :=
  match from, to with
  | a :: from', b :: to' =>
      if String.eqb a b then path_relative from' to'
      else replicate (length from) ".." ++ to
  | _, _ => replicate (length from) ".." ++ to
  end.

Definition join_slash (p : path) : string :=
  match p with
  | [] => ""
  | c :: p' => c +:+ render p'
  end.

Definition getUserDirectory (userId : string) : path := [userId].

Definition temp_root : path := ["temp"].

(** ** The disk *)

Inductive node :=
  | Dir
  | File (data : bytes).

Abbreviation disk := (gmap path node).

(** [fs.access] / [fs.stat] succeed exactly on existing entries. *)
Definition access (d : disk) (p : path) : bool :=
  match d !! p with Some _ => true | None => false end.

Definition is_directory (d : disk) (p : path) : bool :=
  match p with
  | [] => true
  | _ => match d !! p with Some Dir => true | _ => false end
  end.

Definition readFile (d : disk) (p : path) : option bytes :=
  match d !! p with Some (File data) => Some data | _ => None end.

(** [fs.mkdir(p, {recursive: true})]: create every missing ancestor; fails
    when a component of the way is a regular file. *)
Fixpoint mkdir_from (base : path) (rest : path) (d : disk) : option disk :=
  match rest with
  | [] => Some d
  | c :: rest' =>
      let q := base ++ [c] in
      match d !! q with
      | Some (File _) => None
      | Some Dir => mkdir_from q rest' d
      | None => mkdir_from q rest' (<[q := Dir]> d)
      end
  end.

Definition ensureDir (d : disk) (p : path) : option disk := mkdir_from [] p d.

(** [fs.rm(p, {recursive: true, force: true})] *)
Definition rm_rf (d : disk) (p : path) : disk :=
  filter (λ kv, ¬ p `prefix_of` kv.1) d.

(** Opening a file for writing (flag [w]): created or truncated. *)
Definition open_write (d : disk) (p : path) : option disk :=
  match p with
  | [] => None
  | _ =>
      if is_directory d (parent p) then
        match d !! p with
        | Some Dir => None
        | _ => Some (<[p := File []]> d)
        end
      else None
  end.

Definition append_file (d : disk) (p : path) (data : bytes) : disk :=
  match d !! p with
  | Some (File old) => <[p := File (old ++ data)]> d
  | _ => d
  end.

(** [fs.rename] of a regular file (the handlers rename nothing else). *)
Definition rename (d : disk) (src dst : path) : option disk :=
  match d !! src with
  | Some (File data) =>
      match dst with
      | [] => None
      | _ =>
          if is_directory d (parent dst) then
            match d !! dst with
            | Some Dir => None
            | _ => Some (<[dst := File data]> (delete src d))
            end
          else None
      end
  | _ => None
  end.

Definition unlink (d : disk) (p : path) : disk :=
  match d !! p with
  | Some (File _) => delete p d
  | _ => d
  end.

(** [cleanupTempDirectory]: when [temp] is accessible remove the whole
    tree; every error is logged and swallowed. *)
Definition cleanupTempDirectory (d : disk) : disk :=
  if access d temp_root then rm_rf d temp_root else d.

(** ** Sessions, progress records and the process state *)

Record session := {
  sessionId : string;
  fileName : string;
  fileSize : Z;
  totalChunks : Z;
  chunkSize : option Z;
  userId : string;
  targetDir : path;
  tempDir : path;
  receivedChunks : gset Z;
  startTime : Z;
  lastUpdate : Z
}.

Definition with_chunk (s : session) (i now : Z) : session :=
  {| sessionId := sessionId s; fileName := fileName s; fileSize := fileSize s;
     totalChunks := totalChunks s; chunkSize := chunkSize s; userId := userId s;
     targetDir := targetDir s; tempDir := tempDir s;
     receivedChunks := {[ i ]} ∪ receivedChunks s;
     startTime := startTime s; lastUpdate := now |}.

Inductive upload_status := uploading | processing | completed | error.

(** The entries of [uploadProgress]; the speed and time estimates, which
    are floating point, are left out. *)
Record progress := {
  status : upload_status;
  percentage : Z
}.

Record state := {
  chunkSessions : gmap string session;
  uploadProgress : gmap string progress;
  files : disk
}.

Definition initial_state : state :=
  {| chunkSessions := ∅; uploadProgress := ∅; files := ∅ |}.

(** ** Responses *)

(** The [data] object of a successful upload; [id] (base64 of the relative
    path and the modification time) and the two timestamps are left out. *)
Record fileItem := {
  item_name : string;
  item_size : nat;
  item_path : string;
  item_extension : string;
  item_isPublic : bool
}.

(** What ends the combine phase of finalize early.  [ChunkNotFound],
    [ReadFailed] and [StatFailed] are thrown in the handler and reach its
    [catch] block ([err.message]).  [OpenFailed] and [WriteFailed] are
    errors of the write stream. *)
Inductive failure :=
  | ChunkNotFound (i : nat) (chunkPath : path)
  | ReadFailed (chunkPath : path)
  | OpenFailed (finalPath : path)
  | WriteFailed (i : nat)
  | StatFailed (finalPath : path).

(** An error of the write stream is also emitted as its ['error'] event.
    The code registers no listener for it (neither on the stream nor on
    the process), so Node throws it and the process exits. *)
Definition stream_error (e : failure) : bool :=
  match e with
  | OpenFailed _ | WriteFailed _ => true
  | _ => false
  end.

(** [MiddlewareError] is the answer of Express when multer fails before the
    handler; [NoResponse] stands for a handler that never answers (the
    name-probing loop is [while (true)]), which [resolve_conflict_total]
    below rules out; [ProcessExit] for a request during which the
    process ends: it gets no answer either. *)
Inductive response :=
  | InitOk (sid : string)
  | ChunkOk (chunkIndex : Z) (totalReceived : nat) (totalExpected : Z)
  | FinalizeOk (data : fileItem)
  | CancelOk
  | UploadOk (data : list fileItem) (sid : option string)
  | BadRequest (message : string)
  | MissingChunks (received : nat) (expected : Z)
  | AccessDenied
  | NotFound
  | ServerError (message : string) (cause : option failure)
  | MiddlewareError
  | NoResponse
  | ProcessExit.

Definition http_status (r : response) : nat :=
  match r with
  | InitOk _ | ChunkOk _ _ _ | FinalizeOk _ | CancelOk => 200
  | UploadOk _ _ => 201
  | BadRequest _ | MissingChunks _ _ => 400
  | AccessDenied => 403
  | NotFound => 404
  | ServerError _ _ | MiddlewareError => 500
  | NoResponse | ProcessExit => 0
  end.

(** JavaScript truthiness of an optional body field. *)
Definition falsy_string (o : option string) : bool :=
  match o with None => true | Some s => String.eqb s "" end.

Definition falsy_number (o : option Z) : bool :=
  match o with None => true | Some z => Z.eqb z 0 end.

(** ** [POST /upload-chunked/init] *)

Record init_request := {
  init_fileName : option string;
  init_fileSize : option Z;
  init_totalChunks : option Z;
  init_chunkSize : option Z;
  init_sessionId : option string;
  init_path : option path;
  init_userId : string
}.

Definition init_upload (now : Z) (r : init_request) (st : state) : response * state :=
  match init_fileName r, init_fileSize r, init_totalChunks r, init_sessionId r with
  | Some fname, Some fsize, Some total, Some sid =>
      if String.eqb fname "" || Z.eqb fsize 0 || Z.eqb total 0 || String.eqb sid "" then
        (BadRequest "Missing required fields for chunked upload", st)
      else
        let requestedPath := default [] (init_path r) in
        let userDir := getUserDirectory (init_userId r) in
        let target := path_join userDir requestedPath in
        if negb (String.prefix (render userDir) (render target)) then
          (AccessDenied, st)
        else
          match ensureDir (files st) target with
          | None => (ServerError "Failed to initialize chunked upload" None, st)
          | Some d1 =>
              let temp := path_join temp_root [sid] in
              match ensureDir d1 temp with
              | None =>
                  (ServerError "Failed to initialize chunked upload" None,
                   {| chunkSessions := chunkSessions st;
                      uploadProgress := uploadProgress st; files := d1 |})
              | Some d2 =>
                  let s := {| sessionId := sid; fileName := fname; fileSize := fsize;
                              totalChunks := total; chunkSize := init_chunkSize r;
                              userId := init_userId r; targetDir := target;
                              tempDir := temp; receivedChunks := ∅;
                              startTime := now; lastUpdate := now |} in
                  (InitOk sid,
                   {| chunkSessions := <[sid := s]> (chunkSessions st);
                      uploadProgress := uploadProgress st; files := d2 |})
              end
          end
  | _, _, _, _ => (BadRequest "Missing required fields for chunked upload", st)
  end.

(** ** [POST /upload-chunked/chunk] *)

(** The multer middleware [chunkUpload.single('chunk')] stores the payload
    under [temp/chunks] before the handler runs; the file name is
    [`temp_${Date.now()}_${random}`], of which [stamp] is what follows the
    first underscore. *)
Definition temp_name (stamp : string) : string := "temp_" +:+ stamp.

Definition chunks_dir : path := path_join temp_root ["chunks"].

Definition write_file (d : disk) (p : path) (data : bytes) : option disk :=
  match open_write d p with
  | Some d1 => Some (append_file d1 p data)
  | None => None
  end.

(** [limits.fileSize] of [chunkUpload]: 10 MB per chunk. *)
Definition MAX_CHUNK_BYTES : Z := 10 * 1024 * 1024.

(** The result is the disk and, when the middleware calls the handler,
    [req.file]: where the payload was stored, if there was one.  When the
    directory or the file cannot be made, or the payload is above the
    limit (multer then removes the file it began), the request ends in
    the middleware. *)
Definition chunkUpload_single (stamp : string) (payload : option bytes) (d : disk)
  : disk * option (option path) :=
  match payload with
  | None => (d, Some None)
  | Some data =>
      match ensureDir d chunks_dir with
      | None => (d, None)
      | Some d1 =>
          let p := path_join chunks_dir [temp_name stamp] in
          match write_file d1 p data with
          | Some d2 =>
              if (MAX_CHUNK_BYTES <? Z.of_nat (length data))%Z then (delete p d2, None)
              else (d2, Some (Some p))
          | None => (d1, None)
          end
      end
  end.

Record chunk_request := {
  chunk_sessionId : option string;
  chunk_chunkIndex : option Z;
  chunk_file : option path;
  chunk_userId : string
}.

Definition set_files (st : state) (d : disk) : state :=
  {| chunkSessions := chunkSessions st; uploadProgress := uploadProgress st; files := d |}.

Definition upload_chunk (now : Z) (r : chunk_request) (st : state) : response * state :=
  match chunk_sessionId r, chunk_chunkIndex r, chunk_file r with
  | Some sid, Some chunkIndexNum, Some chunk_path =>
      if String.eqb sid "" then (BadRequest "Missing chunk data", st)
      else
        match chunkSessions st !! sid with
        | None => (NotFound, st)
        | Some s =>
            if negb (String.eqb (userId s) (chunk_userId r)) then (AccessDenied, st)
            else
              let chunkPath := path_join (tempDir s) [chunk_name chunkIndexNum] in
              match rename (files st) chunk_path chunkPath with
              | None => (ServerError "Failed to upload chunk" None, st)
              | Some d =>
                  let s' := with_chunk s chunkIndexNum now in
                  (ChunkOk chunkIndexNum (size (receivedChunks s')) (totalChunks s'),
                   {| chunkSessions := <[sid := s']> (chunkSessions st);
                      uploadProgress := uploadProgress st; files := d |})
              end
        end
  | _, _, _ => (BadRequest "Missing chunk data", st)
  end.

(** The whole route: middleware, then handler. *)
Definition chunk_route (now : Z) (sid : option string) (index : option Z)
    (stamp : string) (payload : option bytes) (user : string) (st : state)
  : response * state :=
  match chunkUpload_single stamp payload (files st) with
  | (d, None) => (MiddlewareError, set_files st d)
  | (d, Some file) =>
      upload_chunk now
        {| chunk_sessionId := sid; chunk_chunkIndex := index;
           chunk_file := file; chunk_userId := user |}
        (set_files st d)
  end.

(** ** Conflict-safe naming *)

(** The [while (true)] loop of both upload paths: as long as the current
    candidate exists, try [name (counter).ext] in [dir].  The pair carries
    [finalPath] and [finalName]. *)
Fixpoint resolve_conflict (d : disk) (dir : path) (name : string)
    (fuel counter : nat) (cur : path * string) : option (path * string) :=
  match fuel with
  | O => None
  | S fuel' =>
      if access d cur.1 then
        let newName := numbered_name name counter in
        resolve_conflict d dir name fuel' (S counter) (path_join dir [newName], newName)
      else Some cur
  end.

(** More probes than the disk has entries. *)
Definition probe_fuel (d : disk) : nat := size d + 2.

(** ** [POST /upload-chunked/finalize] *)

Record finalize_request := {
  fin_sessionId : option string;
  fin_fileName : option string;
  fin_totalChunks : option Z;
  fin_userId : string
}.

(** The combine loop [for (let i = 0; i < session.totalChunks; i++)] on
    an open write stream; [faults i] says that the write of chunk [i]
    fails. *)
Fixpoint combine_loop (faults : nat → bool) (temp finalPath : path)
    (i count : nat) (d : disk) : disk * option failure :=
  match count with
  | O => (d, None)
  | S count' =>
      let chunkPath := path_join temp [chunk_name (Z.of_nat i)] in
      if negb (access d chunkPath) then (d, Some (ChunkNotFound i chunkPath))
      else
        match readFile d chunkPath with
        | None => (d, Some (ReadFailed chunkPath))
        | Some chunkData =>
            if faults i then (d, Some (WriteFailed i))
            else combine_loop faults temp finalPath (S i) count'
                   (append_file d finalPath chunkData)
        end
  end.

(** [createWriteStream], the loop and [writeStream.end].  A stream that
    cannot be opened reports it before the first write. *)
Definition combine (faults : nat → bool) (s : session) (finalPath : path) (d : disk)
  : disk * option failure :=
  match open_write d finalPath with
  | None => (d, Some (OpenFailed finalPath))
  | Some d1 =>
      combine_loop faults (tempDir s) finalPath 0 (Z.to_nat (totalChunks s)) d1
  end.

Definition slice1 (s : string) : string :=
  match s with
  | EmptyString => EmptyString
  | String _ s' => s'
  end.

Definition make_item (user : string) (finalPath : path) (name : string) (sz : nat) : fileItem :=
  let relativePath := join_slash (path_relative (getUserDirectory user) finalPath) in
  {| item_name := name; item_size := sz; item_path := "/" +:+ relativePath;
     item_extension := slice1 (extname name); item_isPublic := false |}.

(** The [catch] block of finalize. *)
Definition finalize_failed (sid : string) (s : session) (e : failure) (st : state) (d : disk)
  : response * state :=
  let d1 := rm_rf d (tempDir s) in
  (ServerError "Failed to finalize chunked upload" (Some e),
   {| chunkSessions := delete sid (chunkSessions st);
      uploadProgress := uploadProgress st;
      files := cleanupTempDirectory d1 |}).

(** The process exits: no answer is sent, nothing is cleaned up, and what
    was held in memory is gone.  The disk is what the next start of the
    server finds. *)
Definition process_exit (d : disk) : response * state :=
  (ProcessExit, {| chunkSessions := ∅; uploadProgress := ∅; files := d |}).

Definition finalize_upload (faults : nat → bool) (r : finalize_request) (st : state)
  : response * state :=
  match fin_sessionId r, fin_fileName r, fin_totalChunks r with
  | Some sid, Some fname, Some total =>
      if String.eqb sid "" || String.eqb fname "" || Z.eqb total 0 then
        (BadRequest "Missing finalization data", st)
      else
        match chunkSessions st !! sid with
        | None => (NotFound, st)
        | Some s =>
            if negb (String.eqb (userId s) (fin_userId r)) then (AccessDenied, st)
            else if negb (Z.eqb (Z.of_nat (size (receivedChunks s))) (totalChunks s)) then
              (MissingChunks (size (receivedChunks s)) (totalChunks s), st)
            else
              let finalFilePath := path_join (targetDir s) [fname] in
              match resolve_conflict (files st) (targetDir s) fname
                      (probe_fuel (files st)) 1 (finalFilePath, fname) with
              | None => (NoResponse, st)
              | Some (finalPath, _) =>
                  match combine faults s finalPath (files st) with
                  | (d, Some e) =>
                      if stream_error e then process_exit d
                      else finalize_failed sid s e st d
                  | (d, None) =>
                      match readFile d finalPath with
                      | None => finalize_failed sid s (StatFailed finalPath) st d
                      | Some data =>
                          let d1 := rm_rf d (tempDir s) in
                          let d2 := cleanupTempDirectory d1 in
                          (FinalizeOk (make_item (fin_userId r) finalPath
                                         (basename finalPath) (length data)),
                           {| chunkSessions := delete sid (chunkSessions st);
                              uploadProgress := uploadProgress st;
                              files := d2 |})
                      end
                  end
              end
        end
  | _, _, _ => (BadRequest "Missing finalization data", st)
  end.

Definition no_faults : nat → bool := λ _, false.

(** ** [DELETE /upload-chunked/cancel/:sessionId] *)

Definition cancel_upload (sid user : string) (st : state) : response * state :=
  match chunkSessions st !! sid with
  | None => (NotFound, st)
  | Some s =>
      if negb (String.eqb (userId s) user) then (AccessDenied, st)
      else
        let d1 := rm_rf (files st) (tempDir s) in
        (CancelOk,
         {| chunkSessions := delete sid (chunkSessions st);
            uploadProgress := delete sid (uploadProgress st);
            files := cleanupTempDirectory d1 |})
  end.

(** ** The periodic sweep ([setInterval], every 10 minutes) *)

Definition STALE_TIME : Z := 30 * 60 * 1000.

Definition SWEEP_INTERVAL : Z := 10 * 60 * 1000.

Definition stale (now : Z) (s : session) : bool := (STALE_TIME <? now - lastUpdate s)%Z.

(** One turn of [for (const [sessionId, session] of chunkSessions)]. *)
Definition sweep_step (now : Z) (st : state) (kv : string * session) : state :=
  if stale now kv.2 then
    {| chunkSessions := delete kv.1 (chunkSessions st);
       uploadProgress := uploadProgress st;
       files := rm_rf (files st) (tempDir kv.2) |}
  else st.

Definition sweep_sessions (now : Z) (st : state) : state :=
  foldl (sweep_step now) st (map_to_list (chunkSessions st)).

(** The whole timer callback: the loop, then the general cleanup. *)
Definition janitor (now : Z) (st : state) : state :=
  let st1 := sweep_sessions now st in
  set_files st1 (cleanupTempDirectory (files st1)).

(** ** [POST /upload] (direct upload) *)

Record upload_file := {
  originalname : string;
  content : bytes
}.

(** [req.files] entries after multer: the original name and where the
    file was saved. *)
Record stored_file := {
  sf_originalname : string;
  sf_path : path
}.

(** The disk storage of [upload.array('files')]: [destination] is the
    requested directory below the user's directory (created on demand),
    [filename] answers the original name, and the file is written there,
    replacing whatever had that name.  Requests whose files pass
    [fileFilter] are modelled. *)
Fixpoint upload_array (target : path) (fs : list upload_file) (d : disk)
  : option (disk * list stored_file) :=
  match fs with
  | [] => Some (d, [])
  | f :: rest =>
      match ensureDir d target with
      | None => None
      | Some d1 =>
          let p := path_join target [originalname f] in
          match write_file d1 p (content f) with
          | None => None
          | Some d2 =>
              match upload_array target rest d2 with
              | Some (d3, l) =>
                  Some (d3, {| sf_originalname := originalname f; sf_path := p |} :: l)
              | None => None
              end
          end
      end
  end.

(** The body of [for (const file of files)]; [None] when the probing loop
    does not come back. *)
Definition process_file (user : string) (f : stored_file) (d : disk)
  : option (disk * option fileItem) :=
  if negb (access d (sf_path f)) then Some (d, None)
  else
    match resolve_conflict d (parent (sf_path f)) (sf_originalname f)
            (probe_fuel d) 1 (sf_path f, sf_originalname f) with
    | None => None
    | Some (finalPath, finalName) =>
        let renamed :=
          if decide (finalPath = sf_path f) then Some d
          else rename d (sf_path f) finalPath in
        match renamed with
        | None => Some (unlink d (sf_path f), None)
        | Some d1 =>
            match d1 !! finalPath with
            | None => Some (unlink d1 (sf_path f), None)
            | Some n =>
                let sz := match n with File data => length data | Dir => 0 end in
                Some (d1, Some (make_item user finalPath finalName sz))
            end
        end
    end.

Fixpoint process_files (user : string) (fs : list stored_file) (d : disk)
  : option (disk * list fileItem) :=
  match fs with
  | [] => Some (d, [])
  | f :: rest =>
      match process_file user f d with
      | None => None
      | Some (d1, item) =>
          match process_files user rest d1 with
          | None => None
          | Some (d2, items) =>
              Some (d2, match item with Some it => it :: items | None => items end)
          end
      end
  end.

Definition mark_completed (sid : option string) (m : gmap string progress)
  : gmap string progress :=
  match sid with
  | Some k =>
      if String.eqb k "" then m
      else match m !! k with
           | Some _ => <[k := {| status := completed; percentage := 100 |}]> m
           | None => m
           end
  | None => m
  end.

Definition upload_files (user : string) (uploadSessionId : option string)
    (fs : list stored_file) (st : state) : response * state :=
  match fs with
  | [] => (BadRequest "No files uploaded", st)
  | _ =>
      match process_files user fs (files st) with
      | None => (NoResponse, st)
      | Some (d, []) =>
          (ServerError "No files were successfully uploaded" None, set_files st d)
      | Some (d, uploadedFiles) =>
          (UploadOk uploadedFiles uploadSessionId,
           {| chunkSessions := chunkSessions st;
              uploadProgress := mark_completed uploadSessionId (uploadProgress st);
              files := cleanupTempDirectory d |})
      end
  end.

(** The whole route: multer, then the handler. *)
Definition upload_route (user : string) (requestedPath : option path)
    (uploadSessionId : option string) (fs : list upload_file) (st : state)
  : response * state :=
  let target := path_join (getUserDirectory user) (default [] requestedPath) in
  match upload_array target fs (files st) with
  | None => (MiddlewareError, st)
  | Some (d, stored) => upload_files user uploadSessionId stored (set_files st d)
  end.

(** ** The client: [uploadFileChunked] *)

Definition CHUNK_SIZE : nat := Z.to_nat 5242880.


(** [Math.ceil(file.size / CHUNK_SIZE)] for a positive chunk size. *)
Definition total_chunks (C size : nat) : nat := (size + (C - 1)) / C.






(** ** Auxiliary definitions used by the proofs *)

(** Reading a padded decimal numeral back: the left inverse of
    [toString] and [padStart] from which injectivity of the generated
    names follows. *)
Definition char_val (c : ascii) : nat := nat_of_ascii c - 48.

Fixpoint signed_value (s : string) (neg : bool) (a : nat) : Z :=
  match s with
  | EmptyString => if neg then (- Z.of_nat a)%Z else Z.of_nat a
  | String c s' =>
      if Ascii.eqb c "-" then signed_value s' true a
      else signed_value s' neg (10 * a + char_val c)
  end.

(** A component that [path.join] keeps as it is. *)
Definition plain (c : string) : bool :=
  negb (skip_component c) && negb (String.eqb c "..").

Definition normal (p : path) : bool := forallb plain p.

Fixpoint has_char (c : ascii) (s : string) : bool :=
  match s with
  | EmptyString => false
  | String a s' => Ascii.eqb a c || has_char c s'
  end.

(** A name that holds no separator. *)
Definition separator_free (s : string) : bool := negb (has_char "/" s).

(** The names for which the embedding is that of the code: [path.join]
    appends them as one component, the file system takes them and their
    numbered forms, and [replace(/\\/g, '/')] leaves them as they are in
    a reported path.  They are not [""], ["."] or [".."], hold no
    separator, no backslash and no NUL character, and have at most 100
    characters. *)
Definition single_name (s : string) : bool :=
  plain s && separator_free s && negb (has_char "\" s) && negb (has_char "000" s)
  && (String.length s <=? 100).

(** A path made of such names. *)
Definition proper_path (p : path) : bool := forallb single_name p.

(** Every entry of the disk lies in a chain of directories. *)
Definition dirs_closed (d : disk) : Prop :=
  ∀ p q, is_Some (d !! q) → p `prefix_of` q → p ≠ q → p ≠ [] → d !! p = Some Dir.

(** The [counter]-th name probed in [dir] for [name]. *)
Definition candidate (dir : path) (name : string) (counter : nat) : path :=
  path_join dir [numbered_name name counter].

(** The fields whose absence [POST /upload-chunked/init] rejects. *)
Definition init_missing (r : init_request) : bool :=
  falsy_string (init_fileName r) || falsy_number (init_fileSize r)
  || falsy_number (init_totalChunks r) || falsy_string (init_sessionId r).

Definition set_sessions (st : state) (m : gmap string session) : state :=
  {| chunkSessions := m; uploadProgress := uploadProgress st; files := files st |}.

(** Sample data shared by the concrete runs below. *)
(** [l] doubled [k] times: payloads of a known large size. *)
Fixpoint doubled (k : nat) (l : bytes) : bytes :=
  match k with
  | 0 => l
  | S k => doubled k (l ++ l)
  end.

Definition sample_bytes_a : bytes := [Byte.x61; Byte.x62].
Definition sample_bytes_b : bytes := [Byte.x63].
Definition sample_bytes_c : bytes := [Byte.x64; Byte.x65].

Definition sample_init (sid user : string) (total : Z) : init_request :=
  {| init_fileName := Some "doc.txt"; init_fileSize := Some 5%Z;
     init_totalChunks := Some total; init_chunkSize := Some 2%Z;
     init_sessionId := Some sid; init_path := None; init_userId := user |}.

Definition sample_finalize (sid user : string) (total : Z) : finalize_request :=
  {| fin_sessionId := Some sid; fin_fileName := Some "doc.txt";
     fin_totalChunks := Some total; fin_userId := user |}.

(** Running requests one after the other. *)
Definition then_init (now : Z) (r : init_request) (st : state) : state :=
  (init_upload now r st).2.

Definition then_chunk (now : Z) (sid : string) (i : Z) (stamp : string)
    (payload : bytes) (user : string) (st : state) : state :=
  (chunk_route now (Some sid) (Some i) stamp (Some payload) user st).2.

Definition chunk_missing (r : chunk_request) : bool :=
  falsy_string (chunk_sessionId r)
  || match chunk_chunkIndex r with None => true | Some _ => false end
  || match chunk_file r with None => true | Some _ => false end.

(** [temp_root] is a prefix of the path. *)
Definition under_temp (p : path) : bool :=
  match p with
  | c :: _ => String.eqb c "temp"
  | [] => false
  end.

(** Where the combine loop looks for chunk [i] of a session. *)
Definition chunk_path (temp : path) (i : nat) : path :=
  path_join temp [chunk_name (Z.of_nat i)].

(** The first path that finalize probes, and the answer of its loop. *)
Definition final_path (d : disk) (s : session) (fname : string) : option (path * string) :=
  resolve_conflict d (targetDir s) fname (probe_fuel d) 1
    (path_join (targetDir s) [fname], fname).

(** What finalize does once the request has passed every check. *)
Definition finalize_accepted (faults : nat → bool) (user sid : string) (s : session)
    (finalPath : path) (st : state) : response * state :=
  match combine faults s finalPath (files st) with
  | (d, Some e) =>
      if stream_error e then process_exit d else finalize_failed sid s e st d
  | (d, None) =>
      match readFile d finalPath with
      | None => finalize_failed sid s (StatFailed finalPath) st d
      | Some data =>
          (FinalizeOk (make_item user finalPath (basename finalPath) (length data)),
           {| chunkSessions := delete sid (chunkSessions st);
              uploadProgress := uploadProgress st;
              files := cleanupTempDirectory (rm_rf d (tempDir s)) |})
      end
  end.



(** The client's requests for the chunks of a file, in a given arrival
    order: each entry gives the index and the stamp in the name that multer
    picks for the temporary file; the payload of index [i] is always
    [chunks !! i]. *)
Definition upload_in_order (now : Z) (sid user : string) (chunks : list bytes)
    (order : list (nat * string)) (st : state) : state :=
  foldl (λ st up, then_chunk now sid (Z.of_nat up.1) up.2 (default [] (chunks !! up.1)) user st)
        st order.

(** Every payload is within the limit of the chunk route. *)
Definition within_limit (chunks : list bytes) : Prop :=
  Forall (λ c : bytes, (Z.of_nat (length c) ≤ MAX_CHUNK_BYTES)%Z) chunks.

(** What holds of the state while the chunks of session [sid] arrive:
    [M] maps the indices stored so far to their payloads, [d0] is the disk
    before the first chunk. *)
Definition chunk_store_inv (sid : string) (s0 : session) (d0 : disk)
    (M : gmap nat bytes) (st : state) : Prop :=
  (∃ s, chunkSessions st !! sid = Some s ∧ userId s = userId s0 ∧
        tempDir s = tempDir s0 ∧ targetDir s = targetDir s0 ∧
        totalChunks s = totalChunks s0 ∧
        receivedChunks s = receivedChunks s0 ∪ set_map Z.of_nat (dom M)) ∧
  files st !! ["temp"] = Some Dir ∧
  files st !! ["temp"; sid] = Some Dir ∧
  (∀ data, files st !! ["temp"; "chunks"] ≠ Some (File data)) ∧
  (∀ c, files st !! ["temp"; "chunks"; c] ≠ Some Dir) ∧
  (∀ c, files st !! ["temp"; sid; c] ≠ Some Dir) ∧
  (∀ p : path, under_temp p = false → files st !! p = d0 !! p) ∧
  (∀ i data, M !! i = Some data →
     files st !! ["temp"; sid; chunk_name (Z.of_nat i)] = Some (File data)).

(** The disk after a chunk has gone through multer and the handler. *)
Definition chunk_stored (d : disk) (sid stamp : string) (i : Z) (data : bytes) : disk :=
  <[ ["temp"; sid; chunk_name i] := File data ]>
    (delete ["temp"; "chunks"; temp_name stamp]
       (<[ ["temp"; "chunks"; temp_name stamp] := File data ]>
          (<[ ["temp"; "chunks"] := Dir ]> d))).

(** The chunk files present after the requests of [order]. *)
Definition stored_chunks (chunks : list bytes) (order : list (nat * string))
    (M : gmap nat bytes) : gmap nat bytes :=
  foldl (λ M up, <[up.1 := default [] (chunks !! up.1)]> M) M order.

(** A session right after [init], on a disk where [temp] holds
    directories for sessions and regular files for multer only, and whose
    target directory exists outside [temp]. *)
Definition fresh_session (st : state) (sid : string) (s : session) : Prop :=
  chunk_store_inv sid s (files st) ∅ st ∧
  tempDir s = ["temp"; sid] ∧ receivedChunks s = ∅ ∧
  normal (targetDir s) = true ∧ targetDir s ≠ [] ∧
  under_temp (targetDir s) = false ∧
  is_directory (files st) (targetDir s) = true.




(** The names reported by an upload response. *)
Definition uploaded_names (r : response) : list string :=
  match r with
  | UploadOk items _ => item_name <$> items
  | FinalizeOk item => [item_name item]
  | _ => []
  end.

(** A whole chunked upload of a one-chunk file called [doc.txt]. *)
Definition sample_chunked (now : Z) (sid : string) (payload : bytes) (st : state)
  : response * state :=
  finalize_upload no_faults (sample_finalize sid "u1" 1)
    (then_chunk now sid 0 "a" payload "u1"
       (then_init now (sample_init sid "u1" 1) st)).

(** A direct upload of one file called [doc.txt]. *)
Definition sample_direct (payload : bytes) (st : state) : response * state :=
  upload_route "u1" None None [ {| originalname := "doc.txt"; content := payload |} ] st.

(** The states the server can be in: from the start, after any sequence
    of requests and timer callbacks. *)
Inductive reachable : state → Prop :=
  | reach_start : reachable initial_state
  | reach_init now r st :
      reachable st → reachable (init_upload now r st).2
  | reach_chunk now sid index stamp payload user st :
      reachable st → reachable (chunk_route now sid index stamp payload user st).2
  | reach_finalize faults r st :
      reachable st → reachable (finalize_upload faults r st).2
  | reach_cancel sid user st :
      reachable st → reachable (cancel_upload sid user st).2
  | reach_janitor now st :
      reachable st → reachable (janitor now st)
  | reach_upload user requestedPath uploadSessionId fs st :
      reachable st → reachable (upload_route user requestedPath uploadSessionId fs st).2.



(** * The file routes of the server and the state of the browser client

    The remaining definitions embed [fileFilter] of the direct upload,
    [POST /files], [GET /files] and [POST /raw-file] of the server, and on
    the client side the reducer of the file-system context, the
    breadcrumbs, the size formatter, the choice between direct and chunked
    upload and the file classes of the viewer.

    Further conventions.
    - A character stands for a UTF-16 code unit below 256; [toLowerCase]
      and [trim] are those of JavaScript on such strings.
    - A request path that the handler receives as text is kept as text and
      cut at its separators where [path.join] does so.
    - Text written with the encoding ['utf8'] is represented by its bytes.
    - [public-files.json] is absent or as the server writes it; the [id] of
      an entry (base64 of its relative path and modification time), its
      timestamps and its public flag, which is looked up by [id], are left
      out of the listing. *)

(** ** Strings *)

Definition lower_char (c : ascii) : ascii :=
  let n := nat_of_ascii c in
  if ((65 <=? n) && (n <=? 90)) || ((192 <=? n) && (n <=? 222) && negb (n =? 215))
  then ascii_of_nat (n + 32) else c.

(** [String.prototype.toLowerCase] *)
Fixpoint toLowerCase (s : string) : string :=
  match s with
  | EmptyString => EmptyString
  | String c s' => String (lower_char c) (toLowerCase s')
  end.

(** White space and line terminators below 256: TAB, LF, VT, FF, CR, SP
    and NBSP. *)
Definition is_space (c : ascii) : bool :=
  let n := nat_of_ascii c in
  ((9 <=? n) && (n <=? 13)) || (n =? 32) || (n =? 160).

Fixpoint trimStart (s : string) : string :=
  match s with
  | EmptyString => EmptyString
  | String c s' => if is_space c then trimStart s' else s
  end.

(** [String.prototype.trim] *)
Definition trim (s : string) : string :=
  String.rev (trimStart (String.rev (trimStart s))).

(** [s.split('/')]: the pieces between separators, at least one. *)
Fixpoint split_on (sep : ascii) (s : string) : list string :=
  match s with
  | EmptyString => [EmptyString]
  | String c s' =>
      if Ascii.eqb c sep then EmptyString :: split_on sep s'
      else match split_on sep s' with
           | [] => [String c EmptyString]
           | piece :: pieces => String c piece :: pieces
           end
  end.

(** [s.replace(/^\/+/, '')] *)
Fixpoint strip_slashes (s : string) : string :=
  match s with
  | EmptyString => EmptyString
  | String c s' => if Ascii.eqb c "/" then strip_slashes s' else s
  end.

(** [path.join(base, text)] for a textual second argument. *)
Definition join_text (base : path) (text : string) : path :=
  path_join base (split_on "/" text).

(** The check [fullPath.startsWith(userDir)] of the file routes. *)
Definition inside_user_dir (userDir target : path) : bool :=
  String.prefix (render userDir) (render target).

(** ** [fileFilter] of the direct upload *)

Definition dangerousExts : list string :=
  [".exe"; ".bat"; ".cmd"; ".com"; ".scr"; ".vbs"; ".js"].

(** The error that [fileFilter] hands to its callback, if any. *)
Definition fileFilter (originalname : string) : option string :=
  if String.eqb originalname "" || String.eqb (trim originalname) "" then
    Some "Invalid filename"
  else
    let ext := toLowerCase (extname originalname) in
    if bool_decide (ext ∈ dangerousExts) then
      Some ("File type " +:+ ext +:+ " is not allowed")
    else None.

(** [limits.fileSize] of [upload]: 50 GB per file. *)
Definition MAX_UPLOAD_BYTES : Z := 50 * 1024 * 1024 * 1024.

(** ** [fs.stat] and [fs.readdir] *)

Inductive errno := ENOENT | ENOTDIR.

Inductive stat_result :=
  | Stat (n : node)
  | Fails (e : errno).

(** Walking down from [base]: a missing component gives [ENOENT], a
    regular file in the way [ENOTDIR]. *)
Fixpoint stat_from (d : disk) (base rest : path) : stat_result :=
  match rest with
  | [] => Stat Dir
  | c :: rest' =>
      match d !! (base ++ [c]) with
      | None => Fails ENOENT
      | Some n =>
          match rest' with
          | [] => Stat n
          | _ =>
              match n with
              | Dir => stat_from d (base ++ [c]) rest'
              | File _ => Fails ENOTDIR
              end
          end
      end
  end.

Definition stat (d : disk) (p : path) : stat_result := stat_from d [] p.

(** The entries of a directory, each with its name; the order is that of
    the underlying map. *)
Definition dir_entries (d : disk) (p : path) : list (string * node) :=
  omap (λ kv : path * node,
          match last kv.1 with
          | Some c => if decide (kv.1 = p ++ [c]) then Some (c, kv.2) else None
          | None => None
          end) (map_to_list d).

Definition readdir (d : disk) (p : path) : errno + list (string * node) :=
  match stat d p with
  | Fails e => inl e
  | Stat (File _) => inl ENOTDIR
  | Stat Dir => inr (dir_entries d p)
  end.

(** ** Answers of the file routes *)

Inductive item_kind := file_kind | folder_kind.

(** An element of the [data] array of [GET /files]. *)
Record listed_item := {
  li_name : string;
  li_kind : item_kind;
  li_size : nat;
  li_path : string;
  li_extension : option string
}.

(** The object built by [createFileMetadata]; the random [id] and the two
    timestamps are left out. *)
Record metadata := {
  md_name : string;
  md_type : string;
  md_size : nat;
  md_path : string;
  md_extension : option string;
  md_isPublic : bool
}.

Inductive files_response :=
  | Listing (data : list listed_item)
  | Created (data : metadata)
  | RawText (requested contentType : string) (size : nat) (content : bytes)
  | RawBinary (contentType : string) (size : nat) (content : bytes)
  | Rejected (code : nat) (message : string).

Definition files_status (r : files_response) : nat :=
  match r with
  | Listing _ | RawText _ _ _ _ | RawBinary _ _ _ => 200
  | Created _ => 201
  | Rejected code _ => code
  end.

(** [req.query.path || '/'] and [requestedPath || '/'] *)
Definition path_or_root (requestedPath : option string) : string :=
  match requestedPath with
  | Some p => if String.eqb p "" then "/" else p
  | None => "/"
  end.

(** ** [GET /files] *)

Definition hidden (name : string) : bool := String.prefix "." name.

(** The [fileItem] of one directory entry. *)
Definition listed (userDir fullPath : path) (entry : string * node) : listed_item :=
  let itemPath := path_join fullPath [entry.1] in
  let relativePath := join_slash (path_relative userDir itemPath) in
  match entry.2 with
  | Dir =>
      {| li_name := entry.1; li_kind := folder_kind; li_size := 0;
         li_path := "/" +:+ relativePath; li_extension := None |}
  | File data =>
      {| li_name := entry.1; li_kind := file_kind; li_size := length data;
         li_path := "/" +:+ relativePath;
         li_extension := Some (slice1 (extname entry.1)) |}
  end.

Definition list_files (user : string) (requestedPath : option string) (st : state)
  : files_response * state :=
  let userDir := getUserDirectory user in
  let fullPath := join_text userDir (path_or_root requestedPath) in
  if negb (inside_user_dir userDir fullPath) then (Rejected 403 "Access denied", st)
  else
    match readdir (files st) fullPath with
    | inr dirContents =>
        (Listing (listed userDir fullPath
                    <$> filter (λ item, hidden item.1 = false) dirContents), st)
    | inl ENOENT =>
        match ensureDir (files st) fullPath with
        | Some d => (Listing [], set_files st d)
        | None => (Rejected 500 "Failed to list files", st)
        end
    | inl ENOTDIR => (Rejected 500 "Failed to list files", st)
    end.

(** ** [POST /files] *)

Record create_request := {
  cr_name : option string;
  cr_path : option string;
  cr_type : option string;
  cr_content : option bytes;
  cr_userId : string
}.

(** [createFileMetadata(filePath, type, size)]; [filePath] is ['/'] followed
    by the relative path whose components are [rel]. *)
Definition createFileMetadata (rel : path) (type : string) (size : nat) : metadata :=
  let name := basename rel in
  {| md_name := name; md_type := type; md_size := size;
     md_path := "/" +:+ join_slash rel;
     md_extension := if String.eqb type "file" then Some (slice1 (extname name)) else None;
     md_isPublic := false |}.

Definition create_entry (r : create_request) (st : state) : files_response * state :=
  match cr_name r, cr_type r with
  | Some name, Some type =>
      if String.eqb name "" || String.eqb type "" then
        (Rejected 400 "Missing name or type", st)
      else
        let userDir := getUserDirectory (cr_userId r) in
        let dirPath := join_text userDir (path_or_root (cr_path r)) in
        let fullPath := join_text dirPath name in
        if negb (inside_user_dir userDir fullPath) then (Rejected 403 "Access denied", st)
        else
          match ensureDir (files st) dirPath with
          | None => (Rejected 500 "Failed to create file/folder", st)
          | Some d1 =>
              let made :=
                if String.eqb type "folder" then ensureDir d1 fullPath
                else write_file d1 fullPath (default [] (cr_content r)) in
              match made with
              | None => (Rejected 500 "Failed to create file/folder", set_files st d1)
              | Some d2 =>
                  match stat d2 fullPath with
                  | Fails _ =>
                      (Rejected 500 "Failed to create file/folder", set_files st d2)
                  | Stat n =>
                      let size := match n with File data => length data | Dir => 0 end in
                      (Created (createFileMetadata (path_relative userDir fullPath) type
                                  (if String.eqb type "file" then size else 0)),
                       set_files st d2)
                  end
              end
          end
  | _, _ => (Rejected 400 "Missing name or type", st)
  end.

(** ** [POST /raw-file] *)

Definition contentTypes : list (string * string) :=
  [(".txt", "text/plain"); (".json", "application/json");
   (".js", "application/javascript"); (".html", "text/html"); (".css", "text/css");
   (".xml", "application/xml"); (".md", "text/markdown"); (".csv", "text/csv");
   (".pdf", "application/pdf"); (".jpg", "image/jpeg"); (".jpeg", "image/jpeg");
   (".png", "image/png"); (".gif", "image/gif"); (".webp", "image/webp");
   (".svg", "image/svg+xml"); (".mp4", "video/mp4"); (".webm", "video/webm");
   (".mp3", "audio/mpeg"); (".wav", "audio/wav"); (".ogg", "audio/ogg")].

Definition textTypes : list string :=
  [".txt"; ".json"; ".js"; ".html"; ".css"; ".xml"; ".md"; ".csv"].

Fixpoint assoc (k : string) (l : list (string * string)) : option string :=
  match l with
  | [] => None
  | (k', v) :: l' => if String.eqb k k' then Some v else assoc k l'
  end.

Definition raw_file (user : string) (filePath : option string) (st : state)
  : files_response :=
  match filePath with
  | None => Rejected 400 "Missing path"
  | Some requested =>
      if String.eqb requested "" then Rejected 400 "Missing path"
      else
        let userDir := getUserDirectory user in
        let fullPath := join_text userDir (strip_slashes requested) in
        if negb (inside_user_dir userDir fullPath) then Rejected 403 "Access denied"
        else
          match stat (files st) fullPath with
          | Fails ENOENT => Rejected 404 "File not found"
          | Fails ENOTDIR => Rejected 500 "Failed to serve file"
          | Stat Dir => Rejected 400 "Cannot serve directory content"
          | Stat (File data) =>
              let ext := toLowerCase (extname (basename fullPath)) in
              let contentType := default "application/octet-stream" (assoc ext contentTypes) in
              if bool_decide (ext ∈ textTypes) then
                RawText requested contentType (length data) data
              else RawBinary contentType (length data) data
          end
  end.

(** ** The client: [fileSystemReducer]

    The fields of the TypeScript interfaces carry a prefix here ([fi_] for
    [FileItem], [fs_] for [FileSystemState]); dates are milliseconds. *)

Record FileItem := {
  fi_id : string;
  fi_name : string;
  fi_type : item_kind;
  fi_size : option Z;
  fi_created : Z;
  fi_modified : Z;
  fi_parent : option string;
  fi_path : string;
  fi_extension : option string;
  fi_isPublic : option bool
}.

Record FileSystemState := {
  fs_currentPath : string;
  fs_items : list FileItem;
  fs_selectedItems : list string;
  fs_loading : bool;
  fs_error : option string;
  fs_user : option (string * string)
}.

Inductive FileSystemAction :=
  | SET_LOADING (payload : bool)
  | SET_ERROR (payload : option string)
  | SET_ITEMS (payload : list FileItem)
  | SET_CURRENT_PATH (payload : string)
  | ADD_ITEM (payload : FileItem)
  | DELETE_ITEM (payload : string)
  | UPDATE_ITEM (payload : FileItem)
  | SET_SELECTED_ITEMS (payload : list string)
  | TOGGLE_ITEM_SELECTION (payload : string)
  | CLEAR_SELECTION
  | SET_USER (payload : option (string * string)).

Definition initialState : FileSystemState :=
  {| fs_currentPath := "/"; fs_items := []; fs_selectedItems := [];
     fs_loading := false; fs_error := None; fs_user := None |}.

Definition fileSystemReducer (state : FileSystemState) (action : FileSystemAction)
  : FileSystemState :=
  match action with
  | SET_LOADING payload =>
      {| fs_currentPath := fs_currentPath state; fs_items := fs_items state;
         fs_selectedItems := fs_selectedItems state; fs_loading := payload;
         fs_error := fs_error state; fs_user := fs_user state |}
  | SET_ERROR payload =>
      {| fs_currentPath := fs_currentPath state; fs_items := fs_items state;
         fs_selectedItems := fs_selectedItems state; fs_loading := false;
         fs_error := payload; fs_user := fs_user state |}
  | SET_ITEMS payload =>
      {| fs_currentPath := fs_currentPath state; fs_items := payload;
         fs_selectedItems := fs_selectedItems state; fs_loading := false;
         fs_error := fs_error state; fs_user := fs_user state |}
  | SET_CURRENT_PATH payload =>
      {| fs_currentPath := payload; fs_items := fs_items state;
         fs_selectedItems := []; fs_loading := fs_loading state;
         fs_error := fs_error state; fs_user := fs_user state |}
  | ADD_ITEM payload =>
      {| fs_currentPath := fs_currentPath state;
         fs_items := fs_items state ++ [payload];
         fs_selectedItems := fs_selectedItems state; fs_loading := fs_loading state;
         fs_error := fs_error state; fs_user := fs_user state |}
  | DELETE_ITEM payload =>
      {| fs_currentPath := fs_currentPath state;
         fs_items := filter (λ item, fi_id item ≠ payload) (fs_items state);
         fs_selectedItems := filter (λ id, id ≠ payload) (fs_selectedItems state);
         fs_loading := fs_loading state;
         fs_error := fs_error state; fs_user := fs_user state |}
  | UPDATE_ITEM payload =>
      {| fs_currentPath := fs_currentPath state;
         fs_items := (λ item, if decide (fi_id item = fi_id payload) then payload else item)
                       <$> fs_items state;
         fs_selectedItems := fs_selectedItems state; fs_loading := fs_loading state;
         fs_error := fs_error state; fs_user := fs_user state |}
  | SET_SELECTED_ITEMS payload =>
      {| fs_currentPath := fs_currentPath state; fs_items := fs_items state;
         fs_selectedItems := payload; fs_loading := fs_loading state;
         fs_error := fs_error state; fs_user := fs_user state |}
  | TOGGLE_ITEM_SELECTION payload =>
      {| fs_currentPath := fs_currentPath state; fs_items := fs_items state;
         fs_selectedItems :=
           if bool_decide (payload ∈ fs_selectedItems state)
           then filter (λ id, id ≠ payload) (fs_selectedItems state)
           else fs_selectedItems state ++ [payload];
         fs_loading := fs_loading state;
         fs_error := fs_error state; fs_user := fs_user state |}
  | CLEAR_SELECTION =>
      {| fs_currentPath := fs_currentPath state; fs_items := fs_items state;
         fs_selectedItems := []; fs_loading := fs_loading state;
         fs_error := fs_error state; fs_user := fs_user state |}
  | SET_USER payload =>
      {| fs_currentPath := fs_currentPath state; fs_items := fs_items state;
         fs_selectedItems := fs_selectedItems state; fs_loading := fs_loading state;
         fs_error := fs_error state; fs_user := payload |}
  end.

(** A run of the reducer over a list of dispatched actions. *)
Definition dispatch_all (state : FileSystemState) (actions : list FileSystemAction)
  : FileSystemState :=
  foldl fileSystemReducer state actions.

(** ** The client: breadcrumbs, sizes, upload strategy, file classes *)

(** The loop [parts.forEach(part => ...)] of [getBreadcrumbItems]; the
    pairs are [name] and [path]. *)
Fixpoint breadcrumbs_from (currentBreadcrumbPath : string) (parts : list string)
  : list (string * string) :=
  match parts with
  | [] => []
  | part :: rest =>
      let next := currentBreadcrumbPath +:+ "/" +:+ part in
      (part, next) :: breadcrumbs_from next rest
  end.

Definition getBreadcrumbItems (currentPath : string) : list (string * string) :=
  let parts := filter (λ part, part ≠ "") (split_on "/" currentPath) in
  ("Home", "/") :: breadcrumbs_from "" parts.

(** [(size / unit).toFixed(1)] for a byte count below 2^53 and a unit that
    is a power of two: the quotient is exact, and [toFixed] takes the
    nearest multiple of one tenth, the larger one on a tie. *)
Definition tenths (size unit : Z) : Z := (20 * size + unit) / (2 * unit).

Definition toFixed1 (size unit : Z) : string :=
  Z_toString (tenths size unit / 10) +:+ "." +:+ Z_toString (tenths size unit mod 10).

Definition KB : Z := 1024.
Definition MB : Z := 1024 * 1024.
Definition GB : Z := 1024 * 1024 * 1024.

(** [formatFileSize] of the file table, for a whole number of bytes. *)
Definition formatFileSize (size : option Z) : string :=
  match size with
  | None => "-"
  | Some sz =>
      if (sz =? 0)%Z then "-"
      else if (sz <? KB)%Z then Z_toString sz +:+ " B"
      else if (sz <? MB)%Z then toFixed1 sz KB +:+ " KB"
      else if (sz <? GB)%Z then toFixed1 sz MB +:+ " MB"
      else toFixed1 sz GB +:+ " GB"
  end.

(** The split of [uploadFiles]: files of more than two chunk sizes go
    through the chunked protocol, the others through [POST /upload]; [C] is
    [CHUNK_SIZE]. *)
Definition largeFiles (C : nat) (filesArray : list upload_file) : list upload_file :=
  filter (λ file, C * 2 < length (content file)) filesArray.

Definition smallFiles (C : nat) (filesArray : list upload_file) : list upload_file :=
  filter (λ file, length (content file) ≤ C * 2) filesArray.

(** The file classes of the viewer. *)
Definition textExtensions : list string :=
  ["txt"; "js"; "jsx"; "ts"; "tsx"; "json"; "html"; "css"; "scss";
   "py"; "java"; "cpp"; "c"; "cs"; "php"; "rb"; "go"; "rs"; "sql";
   "xml"; "yaml"; "yml"; "md"; "sh"; "bat"; "dockerfile"; "log";
   "csv"; "ini"; "cfg"; "conf"].

Definition isTextFile (extension : option string) : bool :=
  match extension with
  | None => true
  | Some e =>
      if String.eqb e "" then true
      else bool_decide (toLowerCase e ∈ textExtensions)
  end.

(** ** Auxiliary definitions for the further properties *)

(** What every session of the registry satisfies. *)
Definition well_formed_session (sid : string) (s : session) : Prop :=
  sessionId s = sid ∧ sid ≠ "" ∧ fileName s ≠ "" ∧
  fileSize s ≠ 0%Z ∧ totalChunks s ≠ 0%Z ∧
  tempDir s = path_join temp_root [sid] ∧
  inside_user_dir (getUserDirectory (userId s)) (targetDir s) = true.

(** The components that [path.join] keeps. *)
Definition kept (rel : path) : path := filter (λ c, skip_component c = false) rel.

(** The text of a path as the client sends it: none, or ['/'] followed by
    single names with ['/'] between them. *)
Definition client_path (text : option string) : Prop :=
  text = None ∨ ∃ p : path, proper_path p = true ∧ text = Some ("/" +:+ join_slash p).

(** Sample requests of the file routes. *)
Definition sample_create (name type : string) (text : bytes) : create_request :=
  {| cr_name := Some name; cr_path := None; cr_type := Some type;
     cr_content := Some text; cr_userId := "u1" |}.

Definition sample_item (id name : string) : FileItem :=
  {| fi_id := id; fi_name := name; fi_type := file_kind; fi_size := Some 5%Z;
     fi_created := 0; fi_modified := 0; fi_parent := None;
     fi_path := "/" +:+ name; fi_extension := None; fi_isPublic := Some false |}.

(** The bytes that [POST /raw-file] sends, as text or as a stream. *)
Definition raw_content (r : files_response) : option bytes :=
  match r with
  | RawText _ _ _ content | RawBinary _ _ content => Some content
  | _ => None
  end.

(** The components of a path hold no separator. *)
Definition separator_free_path (p : path) : Prop :=
  Forall (λ c, separator_free c = true) p.

(** A name made of white space only. *)
Fixpoint all_space (s : string) : bool :=
  match s with
  | EmptyString => true
  | String c s' => is_space c && all_space s'
  end.

(** * Accounts: [POST /createUser], [POST /logInUser] and [authenticateUser]

    [db.json] is kept apart from the disk above, as the JSON value that it
    holds: what [JSON.parse] reads is what [JSON.stringify] wrote.  Numbers
    are integers.  A property read from a value is one of its own: the
    handlers read the keys [accounts], [0], [user], [pass] and [id]. *)

Local Unset Elimination Schemes.

Inductive json :=
  | JNull
  | JBool (b : bool)
  | JNum (z : Z)
  | JStr (s : string)
  | JArr (elements : list json)
  | JObj (fields : list (string * json)).

Local Set Elimination Schemes.

(** The outcome of reading [v[k]]: a value, [undefined], or a
    [TypeError] (reading a property of [null]). *)
Inductive property :=
  | Value (v : json)
  | Undefined
  | TypeError.

Fixpoint field (k : string) (fields : list (string * json)) : option json :=
  match fields with
  | [] => None
  | (k', v) :: rest => if String.eqb k k' then Some v else field k rest
  end.

(** The element of an array at the index written [k], if [k] is the
    decimal form of an index. *)
Definition element_at (k : string) (elements : list json) : option json :=
  match list_find (λ i, nat_toString i = k) (seq 0 (length elements)) with
  | Some (_, i) => elements !! i
  | None => None
  end.

Definition char_at (k : string) (s : string) : option json :=
  match list_find (λ i, nat_toString i = k) (seq 0 (String.length s)) with
  | Some (_, i) =>
      match String.get i s with
      | Some c => Some (JStr (String c EmptyString))
      | None => None
      end
  | None => None
  end.

Definition get (v : json) (k : string) : property :=
  match v with
  | JNull => TypeError
  | JBool _ | JNum _ => Undefined
  | JStr s =>
      if String.eqb k "length" then Value (JNum (Z.of_nat (String.length s)))
      else match char_at k s with Some c => Value c | None => Undefined end
  | JArr elements =>
      if String.eqb k "length" then Value (JNum (Z.of_nat (length elements)))
      else match element_at k elements with Some e => Value e | None => Undefined end
  | JObj fields =>
      match field k fields with Some x => Value x | None => Undefined end
  end.

Definition truthy (v : json) : bool :=
  match v with
  | JNull => false
  | JBool b => b
  | JNum z => negb (Z.eqb z 0)
  | JStr s => negb (String.eqb s "")
  | JArr _ | JObj _ => true
  end.

Definition truthy_property (p : property) : bool :=
  match p with Value v => truthy v | _ => false end.

(** [Array.isArray(x)] of what a property read gave. *)
Definition isArray (p : property) : bool :=
  match p with Value (JArr _) => true | _ => false end.

(** [a === b] for two results of property reads; the values come from
    different parses, so two arrays or two objects are never the same. *)
Definition strict_equal (a b : property) : bool :=
  match a, b with
  | Undefined, Undefined => true
  | Value JNull, Value JNull => true
  | Value (JBool x), Value (JBool y) => Bool.eqb x y
  | Value (JNum x), Value (JNum y) => Z.eqb x y
  | Value (JStr x), Value (JStr y) => String.eqb x y
  | _, _ => false
  end.

Definition empty_db : json := JObj [("accounts", JArr [])].

(** The three steps that bring whatever [db.json] holds to the shape
    [{ accounts: [...] }]. *)
Definition normalize_db (db : json) : json :=
  let db1 :=
    match db with
    | JArr elements =>
        match elements with
        | first :: _ =>
            if truthy first && isArray (get first "accounts") then first else empty_db
        | [] => empty_db
        end
    | _ => db
    end in
  let db2 :=
    if truthy db1 && truthy_property (get db1 "0") &&
       match get db1 "0" with
       | Value inner => isArray (get inner "accounts")
       | _ => false
       end
    then match get db1 "0" with Value inner => inner | _ => db1 end
    else db1 in
  if negb (truthy db2) || negb (isArray (get db2 "accounts")) then empty_db else db2.

Definition accounts_of (db : json) : list json :=
  match get db "accounts" with
  | Value (JArr accounts) => accounts
  | _ => []
  end.

(** [array.find(predicate)]; the predicate may throw. *)
Fixpoint find_account (matches : json → option bool) (accounts : list json)
  : option (option json) :=
  match accounts with
  | [] => Some None
  | account :: rest =>
      match matches account with
      | None => None
      | Some true => Some (Some account)
      | Some false => find_account matches rest
      end
  end.

(** [account.k === wanted], or [None] for the [TypeError]. *)
Definition property_is (k : string) (wanted : property) (account : json) : option bool :=
  match get account k with
  | TypeError => None
  | p => Some (strict_equal p wanted)
  end.

(** [a && b] of two such tests, the second being run only after the first
    held. *)
Definition and_then (a : option bool) (b : option bool) : option bool :=
  match a with
  | Some true => b
  | other => other
  end.

(** What [db.json] is on disk. *)
Inductive db_file :=
  | Missing
  | Invalid
  | Holds (db : json).

(** ** [authenticateUser] *)

Inductive auth_result :=
  | Authenticated (user pass id : string)
  | Unauthorized (message : string)
  | AuthError (message : string).

Definition authenticateUser (user pass id : option string) (file : db_file) : auth_result :=
  match user, pass, id with
  | Some user, Some pass, Some id =>
      if String.eqb user "" || String.eqb pass "" || String.eqb id "" then
        Unauthorized "Missing authentication headers"
      else
        match file with
        | Missing => Unauthorized "Database not found"
        | Invalid => AuthError "Internal server error during authentication"
        | Holds db =>
            let accounts := accounts_of (normalize_db db) in
            match find_account
                    (λ account,
                       and_then (property_is "user" (Value (JStr user)) account)
                         (and_then (property_is "pass" (Value (JStr pass)) account)
                            (property_is "id" (Value (JStr id)) account)))
                    accounts with
            | None => AuthError "Internal server error during authentication"
            | Some None => Unauthorized "Invalid credentials"
            | Some (Some _) => Authenticated user pass id
            end
        end
  | _, _, _ => Unauthorized "Missing authentication headers"
  end.

(** ** [writeJsonFile] on the disk, [POST /createUser], [POST /logInUser] *)

(** The process state together with [db.json]. *)
Record server := {
  db_json : db_file;
  site : state
}.

Definition set_site_files (srv : server) (d : disk) : server :=
  {| db_json := db_json srv; site := set_files (site srv) d |}.

(** [writeJsonFile(filePath, data)]: the text goes to
    [`${filePath}.tmp-${Date.now()}`], which is then renamed. *)
Definition writeJsonFile (now : Z) (filePath : path) (text : bytes) (d : disk)
  : option disk :=
  match ensureDir d (parent filePath) with
  | None => None
  | Some d1 =>
      let tmpPath := parent filePath ++ [basename filePath +:+ ".tmp-" +:+ Z_toString now] in
      match write_file d1 tmpPath text with
      | None => None
      | Some d2 => rename d2 tmpPath filePath
      end
  end.

(** [JSON.stringify({ files: [] }, null, 2)] *)
Definition empty_metadata : bytes :=
  [Byte.x7b; Byte.x0a; Byte.x20; Byte.x20; Byte.x22; Byte.x66; Byte.x69; Byte.x6c;
   Byte.x65; Byte.x73; Byte.x22; Byte.x3a; Byte.x20; Byte.x5b; Byte.x5d; Byte.x0a;
   Byte.x7d].

Inductive account_response :=
  | UserCreated (id : string)
  | LoggedIn (userId : property)
  | AccountRejected (code : nat) (message : string).

Definition account_status (r : account_response) : nat :=
  match r with
  | UserCreated _ => 201
  | LoggedIn _ => 200
  | AccountRejected code _ => code
  end.

(** What the handlers take [db.json] to hold; [None] when it cannot be
    parsed. *)
Definition read_db (file : db_file) : option json :=
  match file with
  | Missing => Some empty_db
  | Invalid => None
  | Holds db => Some db
  end.

(** The loop [while (db.accounts.find(u => u.id === id))]: [uuids] are the
    successive results of [crypto.randomUUID()].  The outer [None] is a
    [TypeError], the inner one the end of [uuids]. *)
Fixpoint pick_id (accounts : list json) (uuids : list string) : option (option string) :=
  match uuids with
  | [] => Some None
  | id :: rest =>
      match find_account (property_is "id" (Value (JStr id))) accounts with
      | None => None
      | Some None => Some (Some id)
      | Some (Some _) => pick_id accounts rest
      end
  end.

(** [{ id, ...getDataUser }]: the fields of the body after [id], whose
    value the body replaces when it has an [id] of its own. *)
Definition spread_after_id (id : string) (body : json) : json :=
  match body with
  | JObj fields =>
      JObj (("id", default (JStr id) (field "id" fields))
            :: filter (λ kv, kv.1 ≠ "id") fields)
  | _ => JObj [("id", JStr id)]
  end.

Fixpoint set_field (k : string) (v : json) (fields : list (string * json))
  : list (string * json) :=
  match fields with
  | [] => [(k, v)]
  | (k', v') :: rest =>
      if String.eqb k k' then (k, v) :: rest else (k', v') :: set_field k v rest
  end.

(** [db.accounts.push(newUser)] *)
Definition push_account (db newUser : json) : json :=
  match db with
  | JObj fields => JObj (set_field "accounts" (JArr (accounts_of db ++ [newUser])) fields)
  | _ => db
  end.

Definition createUser (now : Z) (uuids : list string) (body : json) (srv : server)
  : option (account_response * server) :=
  if negb (truthy body) || negb (truthy_property (get body "user")) then
    Some (AccountRejected 400 "Missing user field", srv)
  else
    match read_db (db_json srv) with
    | None => Some (AccountRejected 500 "Internal server error", srv)
    | Some raw =>
        let db := normalize_db raw in
        match find_account (property_is "user" (get body "user")) (accounts_of db) with
        | None => Some (AccountRejected 500 "Internal server error", srv)
        | Some (Some _) => Some (AccountRejected 409 "User already exists", srv)
        | Some None =>
            match pick_id (accounts_of db) uuids with
            | None => Some (AccountRejected 500 "Internal server error", srv)
            | Some None => None
            | Some (Some id) =>
                let newUser := spread_after_id id body in
                let written := {| db_json := Holds (push_account db newUser);
                                  site := site srv |} in
                let userDir := getUserDirectory id in
                match ensureDir (files (site srv)) userDir with
                | None => Some (AccountRejected 500 "Internal server error", written)
                | Some d1 =>
                    match writeJsonFile now (path_join userDir [".metadata.json"])
                            empty_metadata d1 with
                    | None =>
                        Some (AccountRejected 500 "Internal server error",
                              set_site_files written d1)
                    | Some d2 => Some (UserCreated id, set_site_files written d2)
                    end
                end
            end
        end
    end.

Definition logInUser (body : json) (srv : server) : account_response :=
  let given := if truthy body then body else JObj [] in
  let user := get given "user" in
  let pass := get given "pass" in
  if negb (truthy_property user) || negb (truthy_property pass) then
    AccountRejected 400 "Missing user or pass"
  else
    match read_db (db_json srv) with
    | None => AccountRejected 500 "Internal server error"
    | Some raw =>
        match find_account
                (λ u, and_then (property_is "user" user u) (property_is "pass" pass u))
                (accounts_of (normalize_db raw)) with
        | None => AccountRejected 500 "Internal server error"
        | Some None => AccountRejected 401 "Invalid credentials"
        | Some (Some found) => LoggedIn (get found "id")
        end
    end.

(** ** Auxiliary definitions for the accounts *)

(** A body [{ user, pass }] as the client sends it. *)
Definition credentials (user pass : string) : json :=
  JObj [("user", JStr user); ("pass", JStr pass)].

(** No account has the name [user]. *)
Definition name_free (user : string) (accounts : list json) : Prop :=
  Forall (λ account, property_is "user" (Value (JStr user)) account = Some false) accounts.

(** No account has the id [id]. *)
Definition id_free (id : string) (accounts : list json) : Prop :=
  Forall (λ account, property_is "id" (Value (JStr id)) account = Some false) accounts.

Definition initial_server : server := {| db_json := Missing; site := initial_state |}.

(** * Properties *)

(** ** Sanity checks of the naming functions *)

Example extname_doc : extname "doc.txt" = ".txt".
Proof. reflexivity. Qed.

Example numbered_doc : numbered_name "doc.txt" 1 = "doc (1).txt".
Proof. reflexivity. Qed.

Example chunk_name_7 : chunk_name 7 = "chunk_000007".
Proof. reflexivity. Qed.

(** ** Decimal numerals *)

Lemma char_val_digit d : d < 10 → char_val (digit_char d) = d.
Proof.
  intros Hd. do 10 (destruct d as [|d]; [reflexivity|]). lia.
Qed.

Lemma digit_not_minus d : d < 10 → Ascii.eqb (digit_char d) "-" = false.
Proof.
  intros Hd. do 10 (destruct d as [|d]; [reflexivity|]). lia.
Qed.

Lemma digits_aux_S f n acc :
  digits_aux (S f) n acc =
  if (n <? 10)%nat then String (digit_char (n `mod` 10)) acc
  else digits_aux f (n / 10) (String (digit_char (n `mod` 10)) acc).
Proof. reflexivity. Qed.

Lemma digits_aux_app fuel : ∀ n acc rest,
  digits_aux fuel n acc +:+ rest = digits_aux fuel n (acc +:+ rest).
Proof.
  induction fuel as [|f IH]; intros n acc rest; [done|].
  rewrite !digits_aux_S. destruct (n <? 10)%nat; [done|]. by rewrite IH.
Qed.

Lemma signed_value_String c s neg a :
  signed_value (String c s) neg a =
  if Ascii.eqb c "-" then signed_value s true a
  else signed_value s neg (10 * a + char_val c).
Proof. reflexivity. Qed.

Lemma signed_value_digits fuel : ∀ n acc neg,
  n < fuel →
  signed_value (digits_aux fuel n acc) neg 0 = signed_value acc neg n.
Proof.
  induction fuel as [|f IH]; intros n acc neg Hn; [lia|].
  rewrite digits_aux_S.
  assert (n `mod` 10 < 10) by (apply Nat.mod_upper_bound; lia).
  destruct (n <? 10)%nat eqn:Hlt.
  - apply Nat.ltb_lt in Hlt.
    rewrite signed_value_String, digit_not_minus, char_val_digit by done.
    rewrite Nat.mod_small by done. f_equal.
  - apply Nat.ltb_ge in Hlt.
    assert (n / 10 < f).
    { apply Nat.Div0.div_lt_upper_bound. lia. }
    rewrite IH by done.
    rewrite signed_value_String, digit_not_minus, char_val_digit by done.
    f_equal. pose proof (Nat.div_mod_eq n 10). lia.
Qed.

Lemma signed_value_fill k : ∀ s neg,
  signed_value (fill k "0" s) neg 0 = signed_value s neg 0.
Proof.
  induction k as [|k IH]; intros s neg; simpl; [done|]. apply IH.
Qed.

Lemma signed_value_inj s : ∀ neg a a',
  signed_value s neg a = signed_value s neg a' → a = a'.
Proof.
  induction s as [|c s IH]; intros neg a a'; simpl.
  - destruct neg; lia.
  - destruct (Ascii.eqb c "-"); intros H%IH; lia.
Qed.

Lemma signed_value_toString z :
  signed_value (padStart 6 "0" (Z_toString z)) false 0 = z.
Proof.
  unfold padStart. rewrite signed_value_fill.
  destruct z as [|p|p]; simpl Z_toString.
  - reflexivity.
  - unfold nat_toString. rewrite signed_value_digits by lia. simpl. lia.
  - change (signed_value (nat_toString (Pos.to_nat p)) true 0 = Z.neg p).
    unfold nat_toString. rewrite signed_value_digits by lia. simpl. lia.
Qed.

Lemma chunk_name_inj i j : chunk_name i = chunk_name j → i = j.
Proof.
  unfold chunk_name. intros H%(inj (String.app _)).
  rewrite <- (signed_value_toString i), <- (signed_value_toString j).
  by rewrite H.
Qed.

Lemma nat_toString_inj_app k k' rest :
  nat_toString k +:+ rest = nat_toString k' +:+ rest → k = k'.
Proof.
  unfold nat_toString. rewrite !digits_aux_app.
  change ("" +:+ rest) with rest. intros H.
  assert (signed_value (digits_aux (S k) k rest) false 0
          = signed_value (digits_aux (S k') k' rest) false 0) as Hv
    by (by rewrite H).
  rewrite !signed_value_digits in Hv by lia.
  by apply signed_value_inj in Hv.
Qed.

Lemma numbered_name_inj name k k' :
  numbered_name name k = numbered_name name k' → k = k'.
Proof.
  unfold numbered_name. intros H.
  apply (inj (String.app _)) in H. apply (inj (String.app _)) in H.
  by apply nat_toString_inj_app in H.
Qed.

Lemma string_length_app s t : String.length (s +:+ t) = String.length s + String.length t.
Proof. induction s as [|c s IH]; simpl; [done|]. by rewrite IH. Qed.

Lemma plain_long s : 2 < String.length s → plain s = true.
Proof.
  destruct s as [|a [|b [|c s]]]; simpl; intros; try lia.
  unfold plain, skip_component. simpl.
  destruct (Ascii.eqb a "."); simpl; [|done].
  destruct (Ascii.eqb b "."); done.
Qed.

Lemma plain_numbered_name name k : plain (numbered_name name k) = true.
Proof.
  apply plain_long. unfold numbered_name.
  rewrite !string_length_app. simpl. lia.
Qed.

Lemma plain_chunk_name i : plain (chunk_name i) = true.
Proof. reflexivity. Qed.

(** ** Paths *)

Lemma normalize_aux_snoc c : plain c = true → ∀ xs acc,
  normalize_aux acc (xs ++ [c]) = normalize_aux acc xs ++ [c].
Proof.
  intros Hc. unfold plain in Hc. apply andb_true_iff in Hc as [H1 H2].
  apply negb_true_iff in H1, H2.
  induction xs as [|x xs IH]; intros acc; simpl.
  - by rewrite H1, H2.
  - destruct (skip_component x); [apply IH|].
    destruct (String.eqb x ".."); apply IH.
Qed.

Lemma normalize_aux_normal p : normal p = true → ∀ acc,
  normalize_aux acc p = rev acc ++ p.
Proof.
  induction p as [|x p IH]; intros Hp acc; simpl.
  - by rewrite app_nil_r.
  - simpl in Hp. apply andb_true_iff in Hp as [Hx Hp].
    unfold plain in Hx. apply andb_true_iff in Hx as [H1 H2].
    apply negb_true_iff in H1, H2. rewrite H1, H2, IH by done.
    simpl. by rewrite <- app_assoc.
Qed.

Lemma path_join_child base c :
  plain c = true → path_join base [c] = path_join base [] ++ [c].
Proof.
  intros Hc. unfold path_join. rewrite app_nil_r. by apply normalize_aux_snoc.
Qed.

Lemma path_join_normal base c :
  normal base = true → plain c = true → path_join base [c] = base ++ [c].
Proof.
  intros Hb Hc. rewrite path_join_child by done.
  unfold path_join. rewrite app_nil_r. by rewrite normalize_aux_normal.
Qed.

Lemma normal_app p q : normal (p ++ q) = normal p && normal q.
Proof. apply forallb_app. Qed.

Lemma normalize_aux_is_normal cs : ∀ acc,
  normal acc = true → normal (normalize_aux acc cs) = true.
Proof.
  induction cs as [|c cs IH]; intros acc Hacc; simpl.
  - unfold normal in *. rewrite forallb_forall in *.
    intros x Hx. apply Hacc. by apply in_rev.
  - destruct (skip_component c) eqn:H1; [by apply IH|].
    destruct (String.eqb c "..") eqn:H2.
    + apply IH. destruct acc; [done|]. simpl in Hacc.
      by apply andb_true_iff in Hacc as [_ ?].
    + apply IH. simpl. unfold plain at 1. by rewrite H1, H2.
Qed.

Lemma path_join_is_normal base rel : normal (path_join base rel) = true.
Proof. by apply normalize_aux_is_normal. Qed.

Lemma parent_snoc (p : path) c : parent (p ++ [c]) = p.
Proof.
  unfold parent. rewrite length_app. simpl.
  replace (length p + 1 - 1) with (length p) by lia.
  by rewrite take_app_length.
Qed.

Lemma basename_snoc (p : path) c : basename (p ++ [c]) = c.
Proof. unfold basename. by rewrite last_snoc. Qed.

Lemma snoc_not_nil (p : path) c : p ++ [c] ≠ [].
Proof. by destruct p. Qed.

(** Single names are kept by [path.join]. *)
Lemma single_name_plain (c : string) : single_name c = true → plain c = true.
Proof.
  unfold single_name. rewrite !andb_true_iff. tauto.
Qed.

Lemma proper_path_normal (p : path) : proper_path p = true → normal p = true.
Proof.
  unfold proper_path, normal. rewrite !forallb_forall.
  intros H c Hc. by apply single_name_plain, H.
Qed.

(** ** The disk *)

Lemma rm_rf_lookup_Some (d : disk) p q n :
  rm_rf d p !! q = Some n ↔ d !! q = Some n ∧ ¬ p `prefix_of` q.
Proof. unfold rm_rf. by rewrite map_lookup_filter_Some. Qed.

Lemma rm_rf_lookup_prefix (d : disk) p q :
  p `prefix_of` q → rm_rf d p !! q = None.
Proof.
  intros Hp. destruct (rm_rf d p !! q) eqn:E; [|done].
  apply rm_rf_lookup_Some in E as [_ ?]. done.
Qed.

Lemma rm_rf_lookup_other (d : disk) p q :
  ¬ p `prefix_of` q → rm_rf d p !! q = d !! q.
Proof.
  intros Hp. destruct (d !! q) as [n|] eqn:E.
  - by apply rm_rf_lookup_Some.
  - destruct (rm_rf d p !! q) eqn:E'; [|done].
    apply rm_rf_lookup_Some in E' as [? _]. congruence.
Qed.

Lemma rm_rf_lookup_self (d : disk) p : rm_rf d p !! p = None.
Proof. by apply rm_rf_lookup_prefix. Qed.

Lemma rm_rf_lookup_mono (d : disk) p q : d !! q = None → rm_rf d p !! q = None.
Proof.
  intros Hq. destruct (rm_rf d p !! q) eqn:E; [|done].
  apply rm_rf_lookup_Some in E as [? _]. congruence.
Qed.

Lemma rm_rf_closed (d : disk) p : dirs_closed d → dirs_closed (rm_rf d p).
Proof.
  intros Hd a q [n Hq] Haq Hne Hnil.
  apply rm_rf_lookup_Some in Hq as [Hq Hnp].
  apply rm_rf_lookup_Some. split.
  - by eapply Hd.
  - intros Hpa. apply Hnp. by etrans.
Qed.

Lemma cleanup_lookup_Some (d : disk) q n :
  cleanupTempDirectory d !! q = Some n → d !! q = Some n.
Proof.
  unfold cleanupTempDirectory. destruct (access d temp_root); [|done].
  by intros [? _]%rm_rf_lookup_Some.
Qed.

Lemma cleanup_lookup_mono (d : disk) q :
  d !! q = None → cleanupTempDirectory d !! q = None.
Proof.
  intros Hq. destruct (cleanupTempDirectory d !! q) eqn:E; [|done].
  apply cleanup_lookup_Some in E. congruence.
Qed.

Lemma cleanup_lookup_other (d : disk) q :
  ¬ temp_root `prefix_of` q → cleanupTempDirectory d !! q = d !! q.
Proof.
  intros Hq. unfold cleanupTempDirectory. destruct (access d temp_root); [|done].
  by apply rm_rf_lookup_other.
Qed.

(** On a disk whose entries hang off directories, the cleanup leaves
    nothing at or below [temp]. *)
Lemma cleanup_lookup_temp (d : disk) q :
  dirs_closed d → temp_root `prefix_of` q → cleanupTempDirectory d !! q = None.
Proof.
  intros Hd Hq. unfold cleanupTempDirectory, access.
  destruct (d !! temp_root) eqn:Ht.
  - by apply rm_rf_lookup_prefix.
  - destruct (d !! q) eqn:E; [|done].
    destruct (decide (temp_root = q)) as [<-|Hne]; [congruence|].
    rewrite (Hd temp_root q) in Ht; done.
Qed.

Lemma cleanup_closed (d : disk) : dirs_closed d → dirs_closed (cleanupTempDirectory d).
Proof.
  intros Hd. unfold cleanupTempDirectory. destruct (access d temp_root); [|done].
  by apply rm_rf_closed.
Qed.

Lemma access_true (d : disk) p : access d p = true ↔ is_Some (d !! p).
Proof. unfold access. destruct (d !! p); split; (done || by intros [??] || eauto). Qed.

Lemma access_false (d : disk) p : access d p = false ↔ d !! p = None.
Proof. unfold access. by destruct (d !! p). Qed.

(** ** The name-probing loop *)

Section probing.
Variables (d : disk) (dir : path) (name : string).

Lemma candidate_eq k :
  candidate dir name k = path_join dir [] ++ [numbered_name name k].
Proof. apply path_join_child, plain_numbered_name. Qed.

Lemma candidate_inj k k' : candidate dir name k = candidate dir name k' → k = k'.
Proof.
  rewrite !candidate_eq. intros H%(inj (app _)).
  injection H as H. by apply numbered_name_inj in H.
Qed.

(** What an answer of the loop looks like: a free path, either the
    first candidate or the first free numbered one after occupied ones. *)
Lemma resolve_conflict_Some fuel : ∀ counter cur r,
  resolve_conflict d dir name fuel counter cur = Some r →
  d !! r.1 = None ∧
  (r = cur ∨
   (is_Some (d !! cur.1) ∧
    ∃ k, counter ≤ k ∧ r = (candidate dir name k, numbered_name name k) ∧
         ∀ j, counter ≤ j < k → is_Some (d !! candidate dir name j))).
Proof.
  induction fuel as [|fuel IH]; intros counter cur r; simpl; [done|].
  destruct (access d cur.1) eqn:Hacc.
  - intros Hr. apply IH in Hr as [Hfree Hr]. split; [done|]. right.
    apply access_true in Hacc. split; [done|].
    destruct Hr as [->|[Hc (k & Hk & -> & Hocc)]].
    + exists counter. split; [lia|]. split; [done|]. intros j ?. lia.
    + exists k. split; [lia|]. split; [done|]. intros j Hj.
      destruct (decide (j = counter)) as [->|]; [done|]. apply Hocc. lia.
  - intros [= <-]. apply access_false in Hacc. auto.
Qed.

Lemma resolve_conflict_None fuel : ∀ counter cur,
  resolve_conflict d dir name (S fuel) counter cur = None →
  ∀ k, counter ≤ k < counter + fuel → is_Some (d !! candidate dir name k).
Proof.
  induction fuel as [|fuel IH]; intros counter cur Hr k Hk; [lia|].
  cbn [resolve_conflict] in Hr.
  destruct (access d cur.1); [|done].
  destruct (decide (k = counter)) as [->|].
  - cbn [resolve_conflict fst] in Hr.
    destruct (access d (path_join dir [numbered_name name counter])) eqn:Hacc; [|done].
    by apply access_true in Hacc.
  - eapply (IH (S counter)); [|lia]. done.
Qed.

(** The loop comes back: the disk is finite, the candidates are not. *)
Lemma resolve_conflict_total counter cur :
  is_Some (resolve_conflict d dir name (probe_fuel d) counter cur).
Proof.
  unfold probe_fuel. replace (size d + 2) with (S (S (size d))) by lia.
  destruct (resolve_conflict _ _ _ _ _ _) as [r|] eqn:Hr; [by eexists|].
  exfalso.
  pose proof (resolve_conflict_None _ _ _ Hr) as Hocc.
  set (l := candidate dir name <$> seq counter (S (size d))).
  assert (NoDup l) as Hnd.
  { apply NoDup_fmap_2; [|apply NoDup_seq].
    intros k k'. apply candidate_inj. }
  assert (list_to_set l ⊆ dom d) as Hsub.
  { intros p Hp%elem_of_list_to_set.
    apply list_elem_of_fmap in Hp as [k [-> Hk]].
    apply elem_of_dom, Hocc. apply elem_of_seq in Hk. lia. }
  apply subseteq_size in Hsub.
  rewrite size_list_to_set, size_dom in Hsub by done.
  unfold l in Hsub. rewrite length_fmap, length_seq in Hsub. lia.
Qed.
End probing.

(** ** Session creation *)

Lemma init_missing_response now r st :
  init_missing r = true →
  init_upload now r st = (BadRequest "Missing required fields for chunked upload", st).
Proof.
  unfold init_missing, init_upload, falsy_string, falsy_number.
  destruct (init_fileName r) as [fname|]; [|done].
  destruct (init_fileSize r) as [fsize|]; [|done].
  destruct (init_totalChunks r) as [total|]; [|done].
  destruct (init_sessionId r) as [sid|]; [|done].
  by intros ->.
Qed.

Lemma init_present_response now r st :
  init_missing r = false → http_status (init_upload now r st).1 ≠ 400.
Proof.
  unfold init_missing, init_upload, falsy_string, falsy_number. intros Hm.
  destruct (init_fileName r) as [fname|]; [|done].
  destruct (init_fileSize r) as [fsize|];
    [|by rewrite orb_true_r in Hm].
  destruct (init_totalChunks r) as [total|];
    [|by rewrite orb_true_r in Hm].
  destruct (init_sessionId r) as [sid|];
    [|by rewrite orb_true_r in Hm].
  rewrite Hm.
  destruct (negb _); [done|].
  destruct (ensureDir _ _); [|done].
  destruct (ensureDir _ _); done.
Qed.

(** C3, as the code has it: the request is rejected with status 400
    exactly when one of [fileName], [fileSize], [totalChunks], [sessionId]
    is missing or falsy ([chunkSize] and [path] are not required); the
    answer never depends on the registry, so an id that is already
    registered is not refused; and an accepted request binds the id to a
    fresh session with no received chunk, whatever was bound before. *)
Theorem init_upload_checks_four_fields_only (now : Z) (r : init_request) (st : state) :
  (http_status (init_upload now r st).1 = 400 ↔ init_missing r = true) ∧
  (∀ m, (init_upload now r (set_sessions st m)).1 = (init_upload now r st).1) ∧
  (∀ sid, (init_upload now r st).1 = InitOk sid →
     init_sessionId r = Some sid ∧
     ∃ s, chunkSessions (init_upload now r st).2 !! sid = Some s ∧
          sessionId s = sid ∧ receivedChunks s = ∅ ∧
          userId s = init_userId r ∧ init_totalChunks r = Some (totalChunks s) ∧
          chunkSize s = init_chunkSize r ∧ lastUpdate s = now ∧
          tempDir s = path_join temp_root [sid]).
Proof.
  split; [|split].
  - split.
    + intros H. destruct (init_missing r) eqn:Hm; [done|].
      by apply (init_present_response now r st) in Hm.
    + intros Hm. by rewrite init_missing_response.
  - intros m. unfold init_upload, set_sessions; simpl.
    destruct (init_fileName r) as [fname|]; [|done].
    destruct (init_fileSize r) as [fsize|]; [|done].
    destruct (init_totalChunks r) as [total|]; [|done].
    destruct (init_sessionId r) as [sid'|]; [|done].
    destruct (_ || _); [done|].
    destruct (negb _); [done|].
    destruct (ensureDir _ _); [|done].
    destruct (ensureDir _ _); done.
  - intros sid. unfold init_upload.
    destruct (init_fileName r) as [fname|]; [|done].
    destruct (init_fileSize r) as [fsize|]; [|done].
    destruct (init_totalChunks r) as [total|]; [|done].
    destruct (init_sessionId r) as [sid'|]; [|done].
    destruct (_ || _); [done|].
    destruct (negb _); [done|].
    destruct (ensureDir _ _); [|done].
    destruct (ensureDir _ _); [|done].
    simpl. intros [= ->]. split; [done|].
    eexists. rewrite lookup_insert_eq. split; [done|]. done.
Qed.

(** C3 fails as stated: a second init with an id that is registered (and
    already holds a chunk), sent by another user and without [chunkSize],
    is answered 200 and replaces the session. *)
Lemma init_upload_replaces_registered_session :
  let st := then_chunk 1 "s1" 0 "a" sample_bytes_a "u1"
              (then_init 0 (sample_init "s1" "u1" 2) initial_state) in
  let r := {| init_fileName := Some "other.bin"; init_fileSize := Some 9%Z;
              init_totalChunks := Some 3%Z; init_chunkSize := None;
              init_sessionId := Some "s1"; init_path := None;
              init_userId := "u2" |} in
  (receivedChunks <$> chunkSessions st !! "s1") = Some {[ 0%Z ]} ∧
  (userId <$> chunkSessions st !! "s1") = Some "u1" ∧
  (init_upload 2 r st).1 = InitOk "s1" ∧
  http_status (init_upload 2 r st).1 = 200 ∧
  (receivedChunks <$> chunkSessions (init_upload 2 r st).2 !! "s1") = Some ∅ ∧
  (userId <$> chunkSessions (init_upload 2 r st).2 !! "s1") = Some "u2".
Proof. vm_compute. repeat split; reflexivity. Qed.

(** ** Recording a chunk *)

Lemma rename_file (d : disk) src dst data :
  readFile d src = Some data →
  dst ≠ [] → is_directory d (parent dst) = true → d !! dst ≠ Some Dir →
  rename d src dst = Some (<[dst := File data]> (delete src d)).
Proof.
  unfold readFile, rename. intros Hsrc Hdst Hpar Hnd.
  destruct (d !! src) as [[|data']|]; simplify_eq.
  destruct dst as [|c dst]; [done|]. rewrite Hpar.
  destruct (d !! (c :: dst)) as [[]|]; done.
Qed.

Lemma upload_chunk_missing now r st :
  http_status (upload_chunk now r st).1 = 400 ↔ chunk_missing r = true.
Proof.
  unfold upload_chunk, chunk_missing, falsy_string.
  destruct (chunk_sessionId r) as [sid|]; [|done].
  destruct (chunk_chunkIndex r) as [i|]; [|by rewrite orb_true_r].
  destruct (chunk_file r) as [cp|]; [|by rewrite orb_true_r].
  rewrite !orb_false_r.
  destruct (String.eqb sid ""); [done|].
  destruct (chunkSessions st !! sid) as [s|]; [|done].
  destruct (negb _); [done|].
  destruct (rename _ _ _); done.
Qed.

(** C4, as the code has it: the handler has no range check.  Status 400
    is answered exactly when [sessionId], [chunkIndex] or the payload is
    missing; and for an existing session and its owner, any index that is
    a safe integer, inside or outside the range of the session, and whose
    payload can be moved into the scratch directory is accepted: the
    answer is 200, the index joins [receivedChunks] and is counted in
    [totalReceived], the payload is stored under the name derived from
    the index, and the activity time is refreshed. *)
Theorem upload_chunk_accepts_every_index (now : Z) (st : state) :
  (∀ r, http_status (upload_chunk now r st).1 = 400 ↔ chunk_missing r = true) ∧
  (∀ (i : Z) (sid user : string) (cp : path) (data : bytes) (s : session),
     safe_integer i = true →
     sid ≠ "" →
     chunkSessions st !! sid = Some s →
     userId s = user →
     readFile (files st) cp = Some data →
     proper_path (tempDir s) = true →
     is_directory (files st) (tempDir s) = true →
     files st !! (tempDir s ++ [chunk_name i]) ≠ Some Dir →
     let out := upload_chunk now
                  {| chunk_sessionId := Some sid; chunk_chunkIndex := Some i;
                     chunk_file := Some cp; chunk_userId := user |} st in
     out.1 = ChunkOk i (size ({[ i ]} ∪ receivedChunks s)) (totalChunks s) ∧
     chunkSessions out.2 !! sid = Some (with_chunk s i now) ∧
     i ∈ receivedChunks (with_chunk s i now) ∧
     lastUpdate (with_chunk s i now) = now ∧
     readFile (files out.2) (tempDir s ++ [chunk_name i]) = Some data).
Proof.
  split; [intros r; apply upload_chunk_missing|].
  intros i sid user cp data s _ Hsid Hs Hu Hcp Hn%proper_path_normal Hdir Hnd.
  unfold upload_chunk. simpl.
  apply String.eqb_neq in Hsid. rewrite Hsid, Hs.
  apply String.eqb_eq in Hu. rewrite Hu. simpl.
  rewrite path_join_normal by done.
  rewrite (rename_file _ _ _ data); try done.
  - simpl. rewrite lookup_insert_eq. unfold readFile. rewrite lookup_insert_eq.
    split_and!; try done. apply elem_of_union. left. by apply elem_of_singleton.
  - apply snoc_not_nil.
  - by rewrite parent_snoc.
Qed.

(** The theorem applies: chunk 7 of a two-chunk session. *)
Lemma upload_chunk_accepts_every_index_witness :
  let st := then_init 0 (sample_init "s1" "u1" 2) initial_state in
  let st1 := set_files st (<[ ["temp"; "chunks"; "temp_a"] := File sample_bytes_a ]> (files st)) in
  ∃ s, chunkSessions st1 !! "s1" = Some s ∧ totalChunks s = 2%Z ∧
    (upload_chunk 1 {| chunk_sessionId := Some "s1"; chunk_chunkIndex := Some 7%Z;
                       chunk_file := Some ["temp"; "chunks"; "temp_a"];
                       chunk_userId := "u1" |} st1).1
    = ChunkOk 7 (size ({[ 7%Z ]} ∪ receivedChunks s)) (totalChunks s).
Proof.
  intros st st1. eexists. split; [reflexivity|]. split; [reflexivity|].
  eapply (proj2 (upload_chunk_accepts_every_index 1 st1) 7%Z "s1" "u1"
            ["temp"; "chunks"; "temp_a"] sample_bytes_a).
  - reflexivity.
  - done.
  - reflexivity.
  - reflexivity.
  - reflexivity.
  - reflexivity.
  - reflexivity.
  - vm_compute. done.
Defined.

(** C4 fails as stated: index 7 of a session of two chunks is answered 200
    and recorded, and it counts: with index 0 the received count reaches
    [totalChunks], so finalize passes the completeness check. *)
Lemma upload_chunk_out_of_range_accepted :
  let st := then_init 0 (sample_init "s1" "u1" 2) initial_state in
  let out := chunk_route 1 (Some "s1") (Some 7%Z) "a" (Some sample_bytes_a) "u1" st in
  let out2 := chunk_route 2 (Some "s1") (Some 0%Z) "b" (Some sample_bytes_b) "u1" out.2 in
  (totalChunks <$> chunkSessions st !! "s1") = Some 2%Z ∧
  out.1 = ChunkOk 7 1 2 ∧
  http_status out.1 = 200 ∧
  (receivedChunks <$> chunkSessions out.2 !! "s1") = Some {[ 7%Z ]} ∧
  out2.1 = ChunkOk 0 2 2 ∧
  http_status (finalize_upload no_faults (sample_finalize "s1" "u1" 2) out2.2).1 = 500.
Proof. vm_compute. repeat split; reflexivity. Qed.

(** ** Cancelling *)

(** C5, as the code has it: cancelling an id that is not registered is
    answered 404 and changes nothing; cancelling a session of another
    user is answered 403 and changes nothing; cancelling a registered
    session as its owner is answered 200, after which the id is not
    registered, nothing is left at or below the scratch directory, and a
    second cancel is answered 404. *)
Theorem cancel_upload_outcomes (sid user : string) (st : state) :
  (chunkSessions st !! sid = None → cancel_upload sid user st = (NotFound, st)) ∧
  (∀ s, chunkSessions st !! sid = Some s → userId s ≠ user →
     cancel_upload sid user st = (AccessDenied, st)) ∧
  (∀ s, chunkSessions st !! sid = Some s → userId s = user →
     let out := cancel_upload sid user st in
     out.1 = CancelOk ∧
     chunkSessions out.2 !! sid = None ∧
     (∀ p : path, tempDir s `prefix_of` p → files out.2 !! p = None) ∧
     cancel_upload sid user out.2 = (NotFound, out.2)).
Proof.
  unfold cancel_upload. split_and!.
  - by intros ->.
  - intros s Hs Hu. rewrite Hs. apply String.eqb_neq in Hu. by rewrite Hu.
  - intros s Hs Hu. rewrite Hs. apply String.eqb_eq in Hu. rewrite Hu. simpl.
    rewrite lookup_delete_eq. split_and!; try done.
    intros p Hp. by apply cleanup_lookup_mono, rm_rf_lookup_prefix.
Qed.

Lemma cancel_upload_outcomes_witness :
  let st := then_chunk 1 "s1" 0 "a" sample_bytes_a "u1"
              (then_init 0 (sample_init "s1" "u1" 2) initial_state) in
  (cancel_upload "s1" "u1" st).1 = CancelOk ∧
  cancel_upload "nobody" "u1" st = (NotFound, st).
Proof.
  intros st. pose proof (cancel_upload_outcomes "s1" "u1" st) as (_ & _ & H).
  pose proof (cancel_upload_outcomes "nobody" "u1" st) as (H' & _).
  split.
  - by destruct (H _ eq_refl eq_refl) as [? _].
  - by apply H'.
Defined.

(** C5 fails as stated: cancelling a session that never existed, or one
    that was already cancelled, is answered 404. *)
Lemma cancel_upload_missing_session_is_an_error :
  let st := then_init 0 (sample_init "s1" "u1" 2) initial_state in
  cancel_upload "s0" "u1" initial_state = (NotFound, initial_state) ∧
  http_status (cancel_upload "s0" "u1" initial_state).1 = 404 ∧
  (cancel_upload "s1" "u1" st).1 = CancelOk ∧
  (cancel_upload "s1" "u1" (cancel_upload "s1" "u1" st).2).1 = NotFound.
Proof. vm_compute. repeat split; reflexivity. Qed.

(** ** Directory chains are preserved by the disk operations *)

Lemma is_directory_true (d : disk) p :
  is_directory d p = true ↔ p = [] ∨ d !! p = Some Dir.
Proof.
  unfold is_directory. destruct p as [|c p]; [by split; [left|]|].
  destruct (d !! (c :: p)) as [[]|]; split; try done; (by right) || by intros [|].
Qed.

Lemma prefix_parent (a p : path) : a `prefix_of` p → a ≠ p → a `prefix_of` parent p.
Proof.
  intros [k ->] Hne.
  destruct (decide (k = [])) as [->|Hk]; [by rewrite app_nil_r in Hne|].
  destruct (exists_last Hk) as (k' & x & ->).
  rewrite app_assoc, parent_snoc. by apply prefix_app_r.
Qed.

Lemma under_temp_prefix (p : path) : under_temp p = true ↔ temp_root `prefix_of` p.
Proof.
  unfold under_temp, temp_root. destruct p as [|c p].
  - split; [done|]. by intros ?%prefix_nil_not.
  - rewrite String.eqb_eq. split.
    + intros ->. by apply prefix_cons, prefix_nil.
    + intros [k [= ->]]. done.
Qed.

Lemma insert_closed (d : disk) p n :
  dirs_closed d → is_directory d (parent p) = true →
  (d !! p = Some Dir → n = Dir) →
  dirs_closed (<[p := n]> d).
Proof.
  intros Hd Hpar Hn a q Hq Haq Hne Hnil.
  assert (d !! a = Some Dir) as Ha.
  { destruct (decide (q = p)) as [->|Hqp].
    - pose proof (prefix_parent _ _ Haq Hne) as Hap.
      apply is_directory_true in Hpar.
      destruct (decide (a = parent p)) as [->|Hne'].
      + by destruct Hpar.
      + destruct Hpar as [Hpar|Hpar].
        * rewrite Hpar in Hap. by apply prefix_nil_inv in Hap.
        * apply (Hd a (parent p)); eauto.
    - rewrite lookup_insert_ne in Hq by done. by apply (Hd a q). }
  destruct (decide (a = p)) as [->|].
  - rewrite lookup_insert_eq. by rewrite (Hn Ha).
  - by rewrite lookup_insert_ne.
Qed.

Lemma delete_file_closed (d : disk) p data :
  dirs_closed d → d !! p = Some (File data) → dirs_closed (delete p d).
Proof.
  intros Hd Hp a q Hq Haq Hne Hnil.
  destruct (decide (q = p)) as [->|Hqp]; [by rewrite lookup_delete_eq in Hq; destruct Hq|].
  rewrite lookup_delete_ne in Hq by done.
  pose proof (Hd a q Hq Haq Hne Hnil) as Ha.
  rewrite lookup_delete_ne; [done|]. congruence.
Qed.

Lemma open_write_closed (d d' : disk) p :
  dirs_closed d → open_write d p = Some d' → dirs_closed d'.
Proof.
  unfold open_write. intros Hd H. destruct p as [|c p]; [done|].
  destruct (is_directory d (parent (c :: p))) eqn:Hpar; [|done].
  destruct (d !! (c :: p)) as [[|data]|] eqn:E; simplify_eq;
    (apply insert_closed; [done|done|intros; congruence]).
Qed.

Lemma append_file_closed (d : disk) p data :
  dirs_closed d → dirs_closed (append_file d p data).
Proof.
  unfold append_file. intros Hd.
  destruct (d !! p) as [[|old]|] eqn:E; [done| |done].
  intros a q Hq Haq Hne Hnil.
  assert (is_Some (d !! q)) as Hq'.
  { destruct (decide (q = p)) as [->|]; [eauto|]. by rewrite lookup_insert_ne in Hq. }
  pose proof (Hd a q Hq' Haq Hne Hnil) as Ha.
  rewrite lookup_insert_ne; [done|]. congruence.
Qed.

Lemma write_file_closed (d d' : disk) p data :
  dirs_closed d → write_file d p data = Some d' → dirs_closed d'.
Proof.
  unfold write_file. intros Hd H.
  destruct (open_write d p) as [d1|] eqn:E; [|done]. simplify_eq.
  eapply append_file_closed, open_write_closed; done.
Qed.

Lemma rename_closed (d d' : disk) src dst :
  dirs_closed d → rename d src dst = Some d' → dirs_closed d'.
Proof.
  unfold rename. intros Hd H.
  destruct (d !! src) as [[|data]|] eqn:Hsrc; [done| |done].
  destruct dst as [|c dst]; [done|].
  destruct (is_directory d (parent (c :: dst))) eqn:Hpar; [|done].
  assert (is_directory (delete src d) (parent (c :: dst)) = true) as Hpar'.
  { apply is_directory_true in Hpar. apply is_directory_true.
    destruct Hpar as [?|Hpar]; [by left|right].
    rewrite lookup_delete_ne; [done|]. congruence. }
  assert (dirs_closed (delete src d)) by (by eapply delete_file_closed).
  destruct (d !! (c :: dst)) as [[|data']|] eqn:E; simplify_eq.
  - apply insert_closed; [done..|].
    intros Hx. destruct (decide (src = c :: dst)) as [->|].
    + by rewrite lookup_delete_eq in Hx.
    + rewrite lookup_delete_ne in Hx by done. congruence.
  - apply insert_closed; [done..|].
    intros Hx. destruct (decide (src = c :: dst)) as [->|].
    + by rewrite lookup_delete_eq in Hx.
    + rewrite lookup_delete_ne in Hx by done. congruence.
Qed.

Lemma unlink_closed (d : disk) p : dirs_closed d → dirs_closed (unlink d p).
Proof.
  unfold unlink. intros Hd. destruct (d !! p) as [[|data]|] eqn:E; [done| |done].
  by eapply delete_file_closed.
Qed.

Lemma mkdir_from_closed (rest : path) : ∀ (base : path) (d d' : disk),
  dirs_closed d → is_directory d base = true →
  mkdir_from base rest d = Some d' → dirs_closed d'.
Proof.
  induction rest as [|c rest IH]; intros base d d' Hd Hbase; simpl.
  - by intros [= <-].
  - destruct (d !! (base ++ [c])) as [[|data]|] eqn:E; [|done|].
    + apply IH; [done|]. apply is_directory_true. by right.
    + apply IH.
      * apply insert_closed; [done| |by rewrite E]. by rewrite parent_snoc.
      * apply is_directory_true. right. by rewrite lookup_insert_eq.
Qed.

Lemma ensureDir_closed (d d' : disk) p :
  dirs_closed d → ensureDir d p = Some d' → dirs_closed d'.
Proof. intros Hd. by apply mkdir_from_closed. Qed.

Lemma combine_loop_closed (faults : nat → bool) (temp finalPath : path)
    (count : nat) : ∀ (i : nat) (d : disk),
  dirs_closed d →
  dirs_closed (combine_loop faults temp finalPath i count d).1.
Proof.
  induction count as [|count IH]; intros i d Hd; simpl; [done|].
  destruct (negb (access d _)); [done|].
  destruct (readFile d _); [|done].
  destruct (faults i); [done|].
  by apply IH, append_file_closed.
Qed.

Lemma combine_closed (faults : nat → bool) (s : session) (finalPath : path) (d : disk) :
  dirs_closed d → dirs_closed (combine faults s finalPath d).1.
Proof.
  intros Hd. unfold combine.
  destruct (open_write d finalPath) as [d1|] eqn:E; [|done].
  apply combine_loop_closed. by eapply open_write_closed.
Qed.

Lemma empty_closed : dirs_closed ∅.
Proof. intros a q [n Hq]. by rewrite lookup_empty in Hq. Qed.

(** ** The periodic sweep *)

Section sweep.
Variable now : Z.

Lemma sweep_fold_progress (l : list (string * session)) : ∀ st,
  uploadProgress (foldl (sweep_step now) st l) = uploadProgress st.
Proof.
  induction l as [|kv l IH]; intros st; simpl; [done|].
  rewrite IH. unfold sweep_step. by destruct (stale now kv.2).
Qed.

Lemma sweep_fold_sessions_gone (l : list (string * session)) : ∀ st sid,
  chunkSessions st !! sid = None →
  chunkSessions (foldl (sweep_step now) st l) !! sid = None.
Proof.
  induction l as [|kv l IH]; intros st sid Hsid; simpl; [done|].
  apply IH. unfold sweep_step. destruct (stale now kv.2); [|done].
  simpl. destruct (decide (kv.1 = sid)) as [->|].
  - by rewrite lookup_delete_eq.
  - by rewrite lookup_delete_ne.
Qed.

Lemma sweep_fold_sessions_stale (l : list (string * session)) : ∀ st sid s,
  (sid, s) ∈ l → stale now s = true →
  chunkSessions (foldl (sweep_step now) st l) !! sid = None.
Proof.
  induction l as [|kv l IH]; intros st sid s Hin Hs; [by apply elem_of_nil in Hin|].
  apply elem_of_cons in Hin as [<-|Hin]; simpl.
  - apply sweep_fold_sessions_gone. unfold sweep_step. simpl. rewrite Hs.
    simpl. by rewrite lookup_delete_eq.
  - by eapply IH.
Qed.

Lemma sweep_fold_sessions_fresh (l : list (string * session)) : ∀ st sid,
  (∀ s, (sid, s) ∈ l → stale now s = false) →
  chunkSessions (foldl (sweep_step now) st l) !! sid = chunkSessions st !! sid.
Proof.
  induction l as [|[k s'] l IH]; intros st sid Hl; simpl; [done|].
  rewrite IH.
  - unfold sweep_step. simpl. destruct (stale now s') eqn:Hs'; [|done].
    simpl. rewrite lookup_delete_ne; [done|].
    intros ->. rewrite Hl in Hs'; [done|]. apply elem_of_cons. by left.
  - intros s Hin. apply Hl. apply elem_of_cons. by right.
Qed.

Lemma sweep_fold_files_mono (l : list (string * session)) : ∀ st (p : path),
  files st !! p = None → files (foldl (sweep_step now) st l) !! p = None.
Proof.
  induction l as [|kv l IH]; intros st p Hp; simpl; [done|].
  apply IH. unfold sweep_step. destruct (stale now kv.2); [|done].
  simpl. by apply rm_rf_lookup_mono.
Qed.

Lemma sweep_fold_files_stale (l : list (string * session)) : ∀ st sid s (p : path),
  (sid, s) ∈ l → stale now s = true → tempDir s `prefix_of` p →
  files (foldl (sweep_step now) st l) !! p = None.
Proof.
  induction l as [|kv l IH]; intros st sid s p Hin Hs Hp; [by apply elem_of_nil in Hin|].
  apply elem_of_cons in Hin as [<-|Hin]; simpl.
  - apply sweep_fold_files_mono. unfold sweep_step. simpl. rewrite Hs.
    simpl. by apply rm_rf_lookup_prefix.
  - by eapply IH.
Qed.

Lemma sweep_fold_files_other (l : list (string * session)) : ∀ st (p : path),
  (∀ kv, kv ∈ l → stale now kv.2 = true → ¬ tempDir kv.2 `prefix_of` p) →
  files (foldl (sweep_step now) st l) !! p = files st !! p.
Proof.
  induction l as [|kv l IH]; intros st p Hl; simpl; [done|].
  rewrite IH.
  - unfold sweep_step. destruct (stale now kv.2) eqn:Hs; [|done]. simpl.
    apply rm_rf_lookup_other. apply Hl; [|done]. apply elem_of_cons. by left.
  - intros kv' Hin. apply Hl. apply elem_of_cons. by right.
Qed.

Lemma sweep_fold_closed (l : list (string * session)) : ∀ st,
  dirs_closed (files st) → dirs_closed (files (foldl (sweep_step now) st l)).
Proof.
  induction l as [|kv l IH]; intros st Hd; simpl; [done|].
  apply IH. unfold sweep_step. destruct (stale now kv.2); [|done].
  simpl. by apply rm_rf_closed.
Qed.

(** After the timer callback a stale session is gone from the registry
    and nothing is left at or below its scratch directory. *)
Lemma janitor_removes_stale st sid s :
  chunkSessions st !! sid = Some s → stale now s = true →
  chunkSessions (janitor now st) !! sid = None ∧
  ∀ p : path, tempDir s `prefix_of` p → files (janitor now st) !! p = None.
Proof.
  intros Hs Hstale. unfold janitor, sweep_sessions. simpl.
  apply elem_of_map_to_list in Hs. split.
  - by eapply sweep_fold_sessions_stale.
  - intros p Hp. apply cleanup_lookup_mono. by eapply sweep_fold_files_stale.
Qed.

(** A session that is not stale keeps its registry entry. *)
Lemma janitor_keeps_fresh_entry st sid s :
  chunkSessions st !! sid = Some s → stale now s = false →
  chunkSessions (janitor now st) !! sid = Some s.
Proof.
  intros Hs Hfresh. unfold janitor, sweep_sessions. simpl.
  rewrite sweep_fold_sessions_fresh; [done|].
  intros s' Hin%elem_of_map_to_list. congruence.
Qed.

(** The loop over the sessions, taken alone, leaves alone every path
    that is not below the scratch directory of a stale session. *)
Lemma sweep_sessions_keeps_other_files st (p : path) :
  (∀ sid s, chunkSessions st !! sid = Some s → stale now s = true →
            ¬ tempDir s `prefix_of` p) →
  files (sweep_sessions now st) !! p = files st !! p.
Proof.
  intros H. unfold sweep_sessions. apply sweep_fold_files_other.
  intros [sid s] Hin%elem_of_map_to_list. by eapply H.
Qed.
End sweep.

(** The general cleanup at the end of the callback spares no session:
    whatever its age, nothing is left at or below a scratch directory
    that lies in [temp]. *)
Lemma janitor_wipes_every_scratch (now : Z) (st : state) (sid : string) (s : session) :
  dirs_closed (files st) →
  chunkSessions st !! sid = Some s → under_temp (tempDir s) = true →
  ∀ p : path, tempDir s `prefix_of` p → files (janitor now st) !! p = None.
Proof.
  intros Hd Hs Hut p Hp. unfold janitor, sweep_sessions. cbn [files set_files].
  apply cleanup_lookup_temp; [by apply sweep_fold_closed|].
  apply under_temp_prefix in Hut. by etrans.
Qed.

Lemma stale_threshold now s :
  stale now s = true ↔ (now - lastUpdate s > 1800000)%Z.
Proof. unfold stale, STALE_TIME. rewrite Z.ltb_lt. lia. Qed.

(** C9, at the failing input: a session created at time 0 whose only
    chunk arrived at time 1000 is not stale at time 2000, and the timer
    callback keeps its registry entry; but the general cleanup of the same
    callback has removed its scratch directory and the chunk in it, so the
    session is not left untouched: its finalize now fails. *)
Theorem janitor_deletes_chunks_of_fresh_session :
  let st := then_chunk 1000 "s1" 0 "a" sample_bytes_a "u1"
              (then_init 0 (sample_init "s1" "u1" 1) initial_state) in
  let st' := janitor 2000 st in
  (stale 2000 <$> chunkSessions st !! "s1") = Some false ∧
  files st !! ["temp"; "s1"] = Some Dir ∧
  files st !! ["temp"; "s1"; "chunk_000000"] = Some (File sample_bytes_a) ∧
  chunkSessions st' !! "s1" = chunkSessions st !! "s1" ∧
  files st' !! ["temp"; "s1"] = None ∧
  files st' !! ["temp"; "s1"; "chunk_000000"] = None ∧
  http_status (finalize_upload no_faults (sample_finalize "s1" "u1" 1) st).1 = 200 ∧
  http_status (finalize_upload no_faults (sample_finalize "s1" "u1" 1) st').1 = 500.
Proof. vm_compute. repeat split; reflexivity. Qed.

(** ** Finalize: the shape of an accepted request *)

Lemma normalize_aux_app (xs ys : path) : ∀ acc : path,
  normalize_aux acc (xs ++ ys) = normalize_aux (rev (normalize_aux acc xs)) ys.
Proof.
  induction xs as [|x xs IH]; intros acc; simpl.
  - by rewrite rev_involutive.
  - destruct (skip_component x); [apply IH|].
    destruct (String.eqb x ".."); apply IH.
Qed.

Lemma under_temp_prefix_false (p q : path) :
  under_temp p = false → q `prefix_of` p → under_temp q = false.
Proof.
  intros Hp Hq. destruct (under_temp q) eqn:E; [|done].
  apply under_temp_prefix in E.
  assert (temp_root `prefix_of` p) as H%under_temp_prefix by (by etrans).
  congruence.
Qed.

Lemma under_temp_app (p q : path) : p ≠ [] → under_temp (p ++ q) = under_temp p.
Proof. by destruct p. Qed.

(** Joining one more component to a directory outside [temp] stays
    outside [temp]. *)
Lemma path_join_outside_temp (T : path) (c : string) :
  normal T = true → T ≠ [] → under_temp T = false →
  under_temp (path_join T [c]) = false.
Proof.
  intros Hn Hne Hout. unfold path_join.
  rewrite normalize_aux_app, (normalize_aux_normal T) by done. simpl.
  rewrite rev_involutive.
  destruct (skip_component c); [done|].
  destruct (String.eqb c "..").
  - apply (under_temp_prefix_false T); [done|].
    destruct (rev T) as [|x t] eqn:E; [apply prefix_nil|].
    simpl. apply (f_equal (@rev string)) in E. rewrite rev_involutive in E.
    rewrite E. simpl. by apply prefix_app_r.
  - by rewrite under_temp_app.
Qed.

Lemma final_path_total (d : disk) (s : session) (fname : string) :
  is_Some (final_path d s fname).
Proof. apply resolve_conflict_total. Qed.

(** The answer of the probing loop for finalize is free and lies in the
    (normalised) target directory. *)
Lemma final_path_spec (d : disk) (s : session) (fname : string) finalPath nm :
  final_path d s fname = Some (finalPath, nm) →
  d !! finalPath = None ∧
  (finalPath = path_join (targetDir s) [fname] ∨
   ∃ k, 1 ≤ k ∧ finalPath = path_join (targetDir s) [] ++ [numbered_name fname k]).
Proof.
  intros H. apply resolve_conflict_Some in H as [Hfree H]. split; [done|].
  destruct H as [[= -> ->]|[_ (k & Hk & [= -> ->] & _)]]; [by left|right].
  exists k. split; [done|]. apply candidate_eq.
Qed.

Lemma final_path_outside_temp (d : disk) (s : session) (fname : string) finalPath nm :
  normal (targetDir s) = true → targetDir s ≠ [] → under_temp (targetDir s) = false →
  final_path d s fname = Some (finalPath, nm) →
  under_temp finalPath = false.
Proof.
  intros Hn Hne Hout H. apply final_path_spec in H as [_ [->|(k & _ & ->)]].
  - by apply path_join_outside_temp.
  - unfold path_join. rewrite app_nil_r, normalize_aux_normal by done. simpl.
    by rewrite under_temp_app.
Qed.

Lemma finalize_upload_accepted (faults : nat → bool) (r : finalize_request) (st : state)
    (sid fname : string) (total : Z) (s : session) :
  fin_sessionId r = Some sid → fin_fileName r = Some fname →
  fin_totalChunks r = Some total →
  sid ≠ "" → fname ≠ "" → total ≠ 0%Z →
  chunkSessions st !! sid = Some s → userId s = fin_userId r →
  Z.of_nat (size (receivedChunks s)) = totalChunks s →
  ∃ finalPath nm,
    final_path (files st) s fname = Some (finalPath, nm) ∧
    finalize_upload faults r st = finalize_accepted faults (fin_userId r) sid s finalPath st.
Proof.
  intros Hsid Hfname Htotal Hs1 Hf1 Ht1 Hs Hu Hsize.
  destruct (final_path_total (files st) s fname) as [[finalPath nm] Hfp].
  exists finalPath, nm. split; [done|].
  unfold finalize_upload. rewrite Hsid, Hfname, Htotal.
  apply String.eqb_neq in Hs1, Hf1. apply Z.eqb_neq in Ht1.
  rewrite Hs1, Hf1, Ht1, Hs. simpl.
  apply String.eqb_eq in Hu. rewrite Hu. simpl.
  apply Z.eqb_eq in Hsize. rewrite Hsize. simpl.
  unfold final_path in Hfp. rewrite Hfp. reflexivity.
Qed.

(** Every answer of finalize other than the early rejections comes from
    an accepted request. *)
Lemma finalize_upload_inv (faults : nat → bool) (r : finalize_request) (st : state) :
  http_status (finalize_upload faults r st).1 = 200 ∨
  http_status (finalize_upload faults r st).1 = 500 →
  ∃ sid fname s finalPath nm,
    fin_sessionId r = Some sid ∧ fin_fileName r = Some fname ∧
    chunkSessions st !! sid = Some s ∧ userId s = fin_userId r ∧
    Z.of_nat (size (receivedChunks s)) = totalChunks s ∧
    final_path (files st) s fname = Some (finalPath, nm) ∧
    finalize_upload faults r st = finalize_accepted faults (fin_userId r) sid s finalPath st.
Proof.
  intros Hst.
  destruct (fin_sessionId r) as [sid|] eqn:Hsid;
    [|by unfold finalize_upload in Hst; rewrite Hsid in Hst; destruct Hst].
  destruct (fin_fileName r) as [fname|] eqn:Hfname;
    [|by unfold finalize_upload in Hst; rewrite Hsid, Hfname in Hst; destruct Hst].
  destruct (fin_totalChunks r) as [total|] eqn:Htotal;
    [|by unfold finalize_upload in Hst; rewrite Hsid, Hfname, Htotal in Hst; destruct Hst].
  unfold finalize_upload in Hst. rewrite Hsid, Hfname, Htotal in Hst.
  destruct (String.eqb sid "") eqn:E1; [by destruct Hst|].
  destruct (String.eqb fname "") eqn:E2; [by destruct Hst|].
  destruct (Z.eqb total 0) eqn:E3; [by destruct Hst|].
  simpl in Hst.
  destruct (chunkSessions st !! sid) as [s|] eqn:Hs; [|by destruct Hst].
  destruct (String.eqb (userId s) (fin_userId r)) eqn:E4; [|by destruct Hst].
  simpl in Hst.
  destruct (Z.eqb (Z.of_nat (size (receivedChunks s))) (totalChunks s)) eqn:E5;
    [|by destruct Hst].
  clear Hst.
  apply String.eqb_neq in E1, E2. apply Z.eqb_neq in E3.
  apply String.eqb_eq in E4. apply Z.eqb_eq in E5.
  destruct (finalize_upload_accepted faults r st sid fname total s)
    as (finalPath & nm & Hfp & Heq); try done.
  exists sid, fname, s, finalPath, nm. done.
Qed.

(** A finalize during which the process exits was an accepted request
    whose write stream reported an error; the disk is left as the combine
    phase had it, and the registries are gone. *)
Lemma finalize_upload_exit (faults : nat → bool) (r : finalize_request) (st : state) :
  (finalize_upload faults r st).1 = ProcessExit →
  ∃ sid fname s finalPath nm e,
    fin_sessionId r = Some sid ∧ fin_fileName r = Some fname ∧
    chunkSessions st !! sid = Some s ∧ userId s = fin_userId r ∧
    Z.of_nat (size (receivedChunks s)) = totalChunks s ∧
    final_path (files st) s fname = Some (finalPath, nm) ∧
    (combine faults s finalPath (files st)).2 = Some e ∧ stream_error e = true ∧
    (finalize_upload faults r st).2
    = {| chunkSessions := ∅; uploadProgress := ∅;
         files := (combine faults s finalPath (files st)).1 |}.
Proof.
  unfold finalize_upload.
  destruct (fin_sessionId r) as [sid|] eqn:Hsid; [|done].
  destruct (fin_fileName r) as [fname|] eqn:Hfname; [|done].
  destruct (fin_totalChunks r) as [total|] eqn:Htotal; [|done].
  destruct (_ || _); [done|].
  destruct (chunkSessions st !! sid) as [s|] eqn:Hs; [|done].
  destruct (String.eqb (userId s) (fin_userId r)) eqn:E4; [|done].
  cbn [negb].
  destruct (Z.eqb (Z.of_nat (size (receivedChunks s))) (totalChunks s)) eqn:E5; [|done].
  cbn [negb].
  destruct (resolve_conflict _ _ _ _ _ _) as [[fp nm]|] eqn:Hfp; [|done].
  apply String.eqb_eq in E4. apply Z.eqb_eq in E5.
  destruct (combine faults s fp (files st)) as [d [e|]] eqn:Hcomb.
  - destruct (stream_error e) eqn:He; [|done]. intros _.
    exists sid, fname, s, fp, nm, e. by rewrite Hcomb.
  - by destruct (readFile d fp).
Qed.


(** ** The general cleanup reaches every session *)

Lemma finalize_accepted_state (faults : nat → bool) (user sid : string) (s : session)
    (finalPath : path) (st : state) :
  http_status (finalize_accepted faults user sid s finalPath st).1 = 200 ∨
  http_status (finalize_accepted faults user sid s finalPath st).1 = 500 →
  (finalize_accepted faults user sid s finalPath st).2 =
  {| chunkSessions := delete sid (chunkSessions st);
     uploadProgress := uploadProgress st;
     files := cleanupTempDirectory
                (rm_rf (combine faults s finalPath (files st)).1 (tempDir s)) |}.
Proof.
  unfold finalize_accepted, finalize_failed, process_exit.
  destruct (combine faults s finalPath (files st)) as [d [e|]].
  - destruct (stream_error e); [by intros [|]|done].
  - by destruct (readFile d finalPath).
Qed.

(** The state after a finalize that was answered 200 or 500. *)
Lemma finalize_upload_state (faults : nat → bool) (r : finalize_request) (st : state) :
  http_status (finalize_upload faults r st).1 = 200 ∨
  http_status (finalize_upload faults r st).1 = 500 →
  ∃ sid fname s finalPath nm,
    fin_sessionId r = Some sid ∧ fin_fileName r = Some fname ∧
    chunkSessions st !! sid = Some s ∧ userId s = fin_userId r ∧
    Z.of_nat (size (receivedChunks s)) = totalChunks s ∧
    final_path (files st) s fname = Some (finalPath, nm) ∧
    (finalize_upload faults r st).2 =
    {| chunkSessions := delete sid (chunkSessions st);
       uploadProgress := uploadProgress st;
       files := cleanupTempDirectory
                  (rm_rf (combine faults s finalPath (files st)).1 (tempDir s)) |}.
Proof.
  intros Hst. pose proof Hst as Hst'.
  apply finalize_upload_inv in Hst
    as (sid & fname & s & finalPath & nm & ? & ? & ? & ? & ? & ? & Heq).
  exists sid, fname, s, finalPath, nm. split_and!; try done.
  rewrite Heq in Hst' |- *. by apply finalize_accepted_state.
Qed.

Lemma upload_array_closed (target : path) (fs : list upload_file) :
  ∀ (d d' : disk) (stored : list stored_file),
  dirs_closed d → upload_array target fs d = Some (d', stored) → dirs_closed d'.
Proof.
  induction fs as [|f fs IH]; intros d d' stored Hd; simpl.
  - by intros [= <- _].
  - destruct (ensureDir d target) as [d1|] eqn:E1; [|done].
    destruct (write_file d1 _ _) as [d2|] eqn:E2; [|done].
    destruct (upload_array target fs d2) as [[d3 l]|] eqn:E3; [|done].
    intros [= <- _]. eapply IH; [|done].
    eapply write_file_closed; [|done]. by eapply ensureDir_closed.
Qed.

Lemma process_file_closed (user : string) (f : stored_file) (d d' : disk)
    (item : option fileItem) :
  dirs_closed d → process_file user f d = Some (d', item) → dirs_closed d'.
Proof.
  unfold process_file. intros Hd.
  destruct (negb (access d (sf_path f))); [by intros [= <- _]|].
  destruct (resolve_conflict _ _ _ _ _ _) as [[finalPath finalName]|]; [|done].
  destruct (decide (finalPath = sf_path f)) as [->|Hne].
  - destruct (d !! sf_path f); intros [= <- _]; [done|]. by apply unlink_closed.
  - destruct (rename d (sf_path f) finalPath) as [d1|] eqn:E.
    + pose proof (rename_closed _ _ _ _ Hd E).
      destruct (d1 !! finalPath); intros [= <- _]; [done|]. by apply unlink_closed.
    + intros [= <- _]. by apply unlink_closed.
Qed.

Lemma process_files_closed (user : string) (fs : list stored_file) :
  ∀ (d d' : disk) (items : list fileItem),
  dirs_closed d → process_files user fs d = Some (d', items) → dirs_closed d'.
Proof.
  induction fs as [|f fs IH]; intros d d' items Hd; simpl.
  - by intros [= <- _].
  - destruct (process_file user f d) as [[d1 item]|] eqn:E1; [|done].
    destruct (process_files user fs d1) as [[d2 items']|] eqn:E2; [|done].
    intros [= <- _]. eapply IH; [|done]. by eapply process_file_closed.
Qed.




(** The calls that are rejected return before the cleanup and leave the
    state as it was. *)
Lemma finalize_rejected_unchanged (faults : nat → bool) (r : finalize_request) (st : state) :
  http_status (finalize_upload faults r st).1 ≠ 200 →
  http_status (finalize_upload faults r st).1 ≠ 500 →
  (finalize_upload faults r st).1 ≠ ProcessExit →
  (finalize_upload faults r st).2 = st.
Proof.
  unfold finalize_upload.
  destruct (fin_sessionId r) as [sid|]; [|done].
  destruct (fin_fileName r) as [fname|]; [|done].
  destruct (fin_totalChunks r) as [total|]; [|done].
  destruct (_ || _); [done|].
  destruct (chunkSessions st !! sid) as [s|]; [|done].
  destruct (negb _); [done|]. destruct (negb _); [done|].
  destruct (resolve_conflict _ _ _ _ _ _) as [[fp nm]|]; [|done].
  unfold finalize_failed, process_exit.
  destruct (combine _ _ _ _) as [d [e|]].
  - by destruct (stream_error e).
  - destruct (readFile d fp); done.
Qed.

Lemma cancel_rejected_unchanged (sid user : string) (st : state) :
  (cancel_upload sid user st).1 ≠ CancelOk → (cancel_upload sid user st).2 = st.
Proof.
  unfold cancel_upload. destruct (chunkSessions st !! sid) as [s|]; [|done].
  by destruct (negb _).
Qed.

(** ** The combine loop *)

Lemma readFile_Some (d : disk) (p : path) (data : bytes) :
  readFile d p = Some data ↔ d !! p = Some (File data).
Proof.
  unfold readFile. destruct (d !! p) as [[|x]|]; split; intros; simplify_eq; done.
Qed.

Lemma readFile_append_other (d : disk) (p q : path) (data : bytes) :
  q ≠ p → readFile (append_file d p data) q = readFile d q.
Proof.
  intros Hne. unfold append_file, readFile.
  destruct (d !! p) as [[|old]|]; [done| |done]. by rewrite lookup_insert_ne.
Qed.

Lemma append_file_lookup_other (d : disk) (p q : path) (data : bytes) :
  q ≠ p → append_file d p data !! q = d !! q.
Proof.
  intros Hne. unfold append_file.
  destruct (d !! p) as [[|old]|]; [done| |done]. by rewrite lookup_insert_ne.
Qed.

Lemma append_file_File (d : disk) (p : path) (old data : bytes) :
  d !! p = Some (File old) → append_file d p data = <[p := File (old ++ data)]> d.
Proof. unfold append_file. by intros ->. Qed.

Lemma open_write_Some (d d1 : disk) (p : path) :
  open_write d p = Some d1 → d1 = <[p := File []]> d.
Proof.
  unfold open_write. destruct p as [|c p]; [done|].
  destruct (is_directory d _); [|done].
  destruct (d !! (c :: p)) as [[|data]|]; intros; simplify_eq; done.
Qed.

Lemma open_write_free (d : disk) (p : path) :
  p ≠ [] → is_directory d (parent p) = true → d !! p = None →
  open_write d p = Some (<[p := File []]> d).
Proof.
  intros Hne Hpar Hfree. unfold open_write. destruct p as [|c p]; [done|].
  by rewrite Hpar, Hfree.
Qed.

Section combine.
Variables (faults : nat → bool) (temp fp : path).

(** The loop touches the destination only. *)
Lemma combine_loop_other (count : nat) : ∀ (i : nat) (d : disk) (q : path),
  q ≠ fp → (combine_loop faults temp fp i count d).1 !! q = d !! q.
Proof.
  induction count as [|count IH]; intros i d q Hq; simpl; [done|].
  destruct (negb (access d _)); [done|].
  destruct (readFile d _); [|done].
  destruct (faults i); [done|].
  rewrite IH by done. by apply append_file_lookup_other.
Qed.

(** Whatever happens, the destination stays a regular file that holds
    what was written so far. *)
Lemma combine_loop_destination (count : nat) :
  ∀ (i : nat) (d : disk) (old : bytes),
  d !! fp = Some (File old) →
  ∃ written, (combine_loop faults temp fp i count d).1 !! fp
             = Some (File (old ++ written)).
Proof.
  induction count as [|count IH]; intros i d old Hfp; simpl.
  - exists []. by rewrite app_nil_r.
  - destruct (negb (access d _)); [exists []; by rewrite app_nil_r|].
    destruct (readFile d _) as [data|]; [|exists []; by rewrite app_nil_r].
    destruct (faults i); [exists []; by rewrite app_nil_r|].
    destruct (IH (S i) (append_file d fp data) (old ++ data)) as [w Hw].
    { rewrite (append_file_File _ _ old) by done. by rewrite lookup_insert_eq. }
    exists (data ++ w). by rewrite app_assoc.
Qed.

(** With every chunk in place and no write error the loop appends the
    chunks in index order. *)
Lemma combine_loop_ok (datas : list bytes) : ∀ (i : nat) (d : disk) (old : bytes),
  d !! fp = Some (File old) →
  (∀ j data, datas !! j = Some data →
     readFile d (chunk_path temp (i + j)) = Some data ∧
     chunk_path temp (i + j) ≠ fp ∧ faults (i + j) = false) →
  combine_loop faults temp fp i (length datas) d
  = (<[fp := File (old ++ concat datas)]> d, None).
Proof.
  induction datas as [|x datas IH]; intros i d old Hfp Hall; simpl.
  - rewrite app_nil_r. by rewrite insert_id.
  - destruct (Hall 0 x eq_refl) as (Hread & Hne & Hfault).
    rewrite Nat.add_0_r in Hread, Hne, Hfault.
    fold (chunk_path temp i). unfold access.
    pose proof Hread as Hread'. apply readFile_Some in Hread'.
    rewrite Hread', Hread, Hfault. simpl.
    rewrite (append_file_File _ _ old) by done.
    rewrite (IH (S i) _ (old ++ x)).
    + by rewrite insert_insert_eq, app_assoc.
    + by rewrite lookup_insert_eq.
    + intros j data Hj. destruct (Hall (S j) data Hj) as (H1 & H2 & H3).
      replace (i + S j) with (S i + j) in * by lia.
      split; [|done]. unfold readFile in *. by rewrite lookup_insert_ne.
Qed.

(** Conversely, a loop that ends without error found every chunk and
    met no write error. *)
Lemma combine_loop_None_inv (count : nat) : ∀ (i : nat) (d d' : disk),
  (∀ j, j < count → chunk_path temp (i + j) ≠ fp) →
  combine_loop faults temp fp i count d = (d', None) →
  ∀ j, j < count →
    is_Some (readFile d (chunk_path temp (i + j))) ∧ faults (i + j) = false.
Proof.
  induction count as [|count IH]; intros i d d' Hne Hloop j Hj; [lia|].
  simpl in Hloop. fold (chunk_path temp i) in Hloop.
  destruct (negb (access d (chunk_path temp i))); [done|].
  destruct (readFile d (chunk_path temp i)) as [data|] eqn:Hread; [|done].
  destruct (faults i) eqn:Hf; [done|].
  destruct j as [|j].
  - rewrite Nat.add_0_r. by rewrite Hread, Hf.
  - replace (i + S j) with (S i + j) by lia.
    assert (∀ k, k < count → chunk_path temp (S i + k) ≠ fp) as Hne'.
    { intros k Hk. replace (S i + k) with (i + S k) by lia. apply Hne. lia. }
    destruct (IH (S i) _ _ Hne' Hloop j) as (H1 & H2); [lia|].
    split; [|done]. rewrite readFile_append_other in H1; [done|].
    by apply Hne'; lia.
Qed.

End combine.

(** The whole combine phase on a free destination in an existing
    directory. *)
Lemma combine_ok (faults : nat → bool) (s : session) (fp : path) (d : disk)
    (datas : list bytes) :
  fp ≠ [] → is_directory d (parent fp) = true → d !! fp = None →
  Z.to_nat (totalChunks s) = length datas →
  (∀ j data, datas !! j = Some data →
     readFile d (chunk_path (tempDir s) j) = Some data ∧ faults j = false) →
  combine faults s fp d = (<[fp := File (concat datas)]> d, None).
Proof.
  intros Hne Hpar Hfree Hlen Hall. unfold combine.
  rewrite open_write_free, Hlen by done.
  rewrite (combine_loop_ok _ _ _ _ _ _ []).
  - by rewrite insert_insert_eq.
  - by rewrite lookup_insert_eq.
  - intros j data Hj. destruct (Hall j data Hj) as [Hread Hf]. simpl.
    assert (chunk_path (tempDir s) j ≠ fp) as Hcp.
    { intros <-. apply readFile_Some in Hread. congruence. }
    split; [|done]. unfold readFile in *. by rewrite lookup_insert_ne.
Qed.

Lemma combine_None_inv (faults : nat → bool) (s : session) (fp : path) (d d' : disk) :
  (∀ j, j < Z.to_nat (totalChunks s) → chunk_path (tempDir s) j ≠ fp) →
  combine faults s fp d = (d', None) →
  is_Some (open_write d fp) ∧
  ∀ j, j < Z.to_nat (totalChunks s) →
    is_Some (readFile d (chunk_path (tempDir s) j)) ∧ faults j = false.
Proof.
  intros Hne. unfold combine.
  destruct (open_write d fp) as [d1|] eqn:Hopen; [|done].
  intros Hloop. split; [by eexists|]. intros j Hj.
  destruct (combine_loop_None_inv faults (tempDir s) fp _ 0 d1 d' Hne Hloop j Hj)
    as (H1 & H2).
  simpl in H1, H2. split; [|done].
  apply open_write_Some in Hopen as ->.
  unfold readFile in *. rewrite lookup_insert_ne in H1; [done|].
  intros Heq. by apply (Hne j).
Qed.





(** ** An invariant of the server: directory chains *)

Lemma init_upload_closed (now : Z) (r : init_request) (st : state) :
  dirs_closed (files st) → dirs_closed (files (init_upload now r st).2).
Proof.
  intros Hd. unfold init_upload.
  destruct (init_fileName r); [|done]. destruct (init_fileSize r); [|done].
  destruct (init_totalChunks r); [|done]. destruct (init_sessionId r); [|done].
  destruct (_ || _); [done|]. destruct (negb _); [done|].
  destruct (ensureDir (files st) _) as [d1|] eqn:E1; [|done].
  pose proof (ensureDir_closed _ _ _ Hd E1).
  destruct (ensureDir d1 _) as [d2|] eqn:E2; [|done].
  simpl. by eapply ensureDir_closed.
Qed.

Lemma upload_chunk_closed (now : Z) (r : chunk_request) (st : state) :
  dirs_closed (files st) → dirs_closed (files (upload_chunk now r st).2).
Proof.
  intros Hd. unfold upload_chunk.
  destruct (chunk_sessionId r) as [sid|]; [|done].
  destruct (chunk_chunkIndex r); [|done]. destruct (chunk_file r); [|done].
  destruct (String.eqb sid ""); [done|].
  destruct (chunkSessions st !! sid) as [s|]; [|done].
  destruct (negb _); [done|].
  destruct (rename _ _ _) as [d|] eqn:E; [|done].
  simpl. by eapply rename_closed.
Qed.

Lemma chunk_route_closed (now : Z) (sid : option string) (index : option Z)
    (stamp : string) (payload : option bytes) (user : string) (st : state) :
  dirs_closed (files st) →
  dirs_closed (files (chunk_route now sid index stamp payload user st).2).
Proof.
  intros Hd. unfold chunk_route, chunkUpload_single.
  destruct payload as [data|].
  - destruct (ensureDir (files st) chunks_dir) as [d1|] eqn:E1; [|done].
    pose proof (ensureDir_closed _ _ _ Hd E1) as Hd1.
    destruct (write_file d1 _ data) as [d2|] eqn:E2; [|done].
    pose proof (write_file_closed _ _ _ _ Hd1 E2) as Hd2.
    destruct (_ <? _)%Z.
    + cbn [snd set_files files]. unfold write_file in E2.
      destruct (open_write d1 _) as [d3|] eqn:E3; [|done].
      apply open_write_Some in E3 as ->. simplify_eq.
      rewrite (append_file_File _ _ []) in Hd2 |- * by (by rewrite lookup_insert_eq).
      eapply delete_file_closed; [done|]. by rewrite lookup_insert_eq.
    + by apply upload_chunk_closed.
  - by apply upload_chunk_closed.
Qed.

Lemma finalize_upload_closed (faults : nat → bool) (r : finalize_request) (st : state) :
  dirs_closed (files st) → dirs_closed (files (finalize_upload faults r st).2).
Proof.
  intros Hd.
  destruct (decide (http_status (finalize_upload faults r st).1 = 200 ∨
                    http_status (finalize_upload faults r st).1 = 500)) as [Hst|Hst].
  - apply finalize_upload_state in Hst
      as (sid & fname & s & finalPath & nm & _ & _ & _ & _ & _ & _ & ->).
    cbn [files].
    by apply cleanup_closed, rm_rf_closed, combine_closed.
  - destruct ((finalize_upload faults r st).1) eqn:Hresp;
      try (exfalso; apply Hst; cbn; auto; fail);
      try (rewrite finalize_rejected_unchanged; [done|..]; rewrite Hresp; done).
    apply finalize_upload_exit in Hresp
      as (sid & fname & s & finalPath & nm & e & _ & _ & _ & _ & _ & _ & _ & _ & ->).
    cbn [files]. by apply combine_closed.
Qed.

Lemma cancel_upload_closed (sid user : string) (st : state) :
  dirs_closed (files st) → dirs_closed (files (cancel_upload sid user st).2).
Proof.
  intros Hd. unfold cancel_upload.
  destruct (chunkSessions st !! sid) as [s|]; [|done].
  destruct (negb _); [done|]. cbn [snd files].
  by apply cleanup_closed, rm_rf_closed.
Qed.

Lemma janitor_closed (now : Z) (st : state) :
  dirs_closed (files st) → dirs_closed (files (janitor now st)).
Proof.
  intros Hd. unfold janitor, sweep_sessions. cbn [files set_files].
  by apply cleanup_closed, sweep_fold_closed.
Qed.

Lemma upload_route_closed (user : string) (requestedPath : option path)
    (uploadSessionId : option string) (fs : list upload_file) (st : state) :
  dirs_closed (files st) →
  dirs_closed (files (upload_route user requestedPath uploadSessionId fs st).2).
Proof.
  intros Hd. unfold upload_route.
  destruct (upload_array _ fs (files st)) as [[d stored]|] eqn:E; [|done].
  pose proof (upload_array_closed _ _ _ _ _ Hd E) as Hd1.
  unfold upload_files. destruct stored as [|f stored]; [done|].
  change (files (set_files st d)) with d.
  destruct (process_files user (f :: stored) d) as [[d2 items]|] eqn:E2; [|done].
  pose proof (process_files_closed _ _ _ _ _ Hd1 E2) as Hd2.
  destruct items; [done|]. cbn [snd files]. by apply cleanup_closed.
Qed.

(** In every state the server can reach, each entry of the disk hangs off
    a chain of directories. *)
Lemma reachable_closed (st : state) : reachable st → dirs_closed (files st).
Proof.
  induction 1.
  - apply empty_closed.
  - by apply init_upload_closed.
  - by apply chunk_route_closed.
  - by apply finalize_upload_closed.
  - by apply cancel_upload_closed.
  - by apply janitor_closed.
  - by apply upload_route_closed.
Qed.

(** No handler is left without an answer. *)
Lemma finalize_upload_answers (faults : nat → bool) (r : finalize_request) (st : state) :
  (finalize_upload faults r st).1 ≠ NoResponse.
Proof.
  unfold finalize_upload.
  destruct (fin_sessionId r) as [sid|]; [|done].
  destruct (fin_fileName r) as [fname|]; [|done].
  destruct (fin_totalChunks r) as [total|]; [|done].
  destruct (_ || _); [done|].
  destruct (chunkSessions st !! sid) as [s|]; [|done].
  destruct (negb _); [done|]. destruct (negb _); [done|].
  destruct (resolve_conflict_total (files st) (targetDir s) fname 1
              (path_join (targetDir s) [fname], fname)) as [[fp nm] ->].
  unfold finalize_failed, process_exit.
  destruct (combine _ _ _ _) as [d [e|]]; [by destruct (stream_error e)|].
  by destruct (readFile d fp).
Qed.

Lemma process_files_answers (user : string) (fs : list stored_file) :
  ∀ d : disk, is_Some (process_files user fs d).
Proof.
  induction fs as [|f fs IH]; intros d; simpl; [by eexists|].
  assert (is_Some (process_file user f d)) as [[d1 item] ->].
  { unfold process_file. destruct (negb _); [by eexists|].
    destruct (resolve_conflict_total d (parent (sf_path f)) (sf_originalname f) 1
                (sf_path f, sf_originalname f)) as [[fp nm] ->].
    destruct (decide (fp = sf_path f)).
    - destruct (d !! fp); by eexists.
    - destruct (rename d (sf_path f) fp) as [d1|]; [|by eexists].
      destruct (d1 !! fp); by eexists. }
  destruct (IH d1) as [[d2 items] ->]. by eexists.
Qed.

Lemma upload_route_answers (user : string) (requestedPath : option path)
    (uploadSessionId : option string) (fs : list upload_file) (st : state) :
  (upload_route user requestedPath uploadSessionId fs st).1 ≠ NoResponse.
Proof.
  unfold upload_route.
  destruct (upload_array _ fs (files st)) as [[d stored]|]; [|done].
  unfold upload_files. destruct stored as [|f stored]; [done|].
  destruct (process_files_answers user (f :: stored) (files (set_files st d)))
    as [[d2 items] ->].
  by destruct items.
Qed.

(** ** Finalize: failure of the combine phase *)




(** ** Finalize: when it succeeds *)

Lemma chunk_path_normal (temp : path) (i : nat) :
  normal temp = true → chunk_path temp i = temp ++ [chunk_name (Z.of_nat i)].
Proof. intros Hn. unfold chunk_path. by rewrite path_join_normal. Qed.

Lemma plain_not_empty (c : string) : plain c = true → c ≠ "".
Proof. by intros H ->. Qed.

(** The destination chosen for a plain name lies directly in the target
    directory. *)
Lemma final_path_in_target (d : disk) (s : session) (fname : string)
    (finalPath : path) (nm : string) :
  normal (targetDir s) = true → plain fname = true →
  final_path d s fname = Some (finalPath, nm) →
  d !! finalPath = None ∧
  ∃ c, finalPath = targetDir s ++ [c] ∧
       (c = fname ∨ ∃ k, 1 ≤ k ∧ c = numbered_name fname k).
Proof.
  intros Hn Hp H. apply final_path_spec in H as [Hfree H]. split; [done|].
  destruct H as [->|(k & Hk & ->)].
  - exists fname. split; [by apply path_join_normal|by left].
  - exists (numbered_name fname k). split; [|right; eauto].
    unfold path_join. by rewrite app_nil_r, normalize_aux_normal.
Qed.

(** C2, as the code has it: for a well-formed request of the owner
    whose file name is a single name, writes that do not fail, and a
    session whose target and scratch directories are made of single
    names, the target directory existing and differing from the scratch
    directory, finalize succeeds exactly when
    the number of received indices equals [totalChunks] and a chunk file
    is on disk for every index below [totalChunks] (the set of received
    indices itself is not inspected further); and when the count
    differs the answer is 400 with both counts and the state is
    unchanged. *)
Theorem finalize_succeeds_iff_count_and_chunk_files
    (r : finalize_request) (st : state) (sid fname : string) (total : Z) (s : session) :
  fin_sessionId r = Some sid → fin_fileName r = Some fname →
  fin_totalChunks r = Some total →
  sid ≠ "" → single_name fname = true → total ≠ 0%Z →
  chunkSessions st !! sid = Some s → userId s = fin_userId r →
  proper_path (targetDir s) = true → proper_path (tempDir s) = true →
  tempDir s ≠ targetDir s →
  is_directory (files st) (targetDir s) = true →
  ((∃ item, (finalize_upload no_faults r st).1 = FinalizeOk item) ↔
   (Z.of_nat (size (receivedChunks s)) = totalChunks s ∧
    ∀ i, i < Z.to_nat (totalChunks s) →
      is_Some (readFile (files st) (tempDir s ++ [chunk_name (Z.of_nat i)])))) ∧
  (Z.of_nat (size (receivedChunks s)) ≠ totalChunks s →
   finalize_upload no_faults r st
   = (MissingChunks (size (receivedChunks s)) (totalChunks s), st)).
Proof.
  intros Hsid Hfname Htotal Hs1 Hplain%single_name_plain Ht1 Hs Hu
    Hnt%proper_path_normal Hns%proper_path_normal Hdiff Hdir.
  pose proof (plain_not_empty _ Hplain) as Hf1.
  assert (∀ (fp : path) nm, final_path (files st) s fname = Some (fp, nm) →
            ∀ j, chunk_path (tempDir s) j ≠ fp) as Hcp.
  { intros fp nm Hfp j Heq.
    apply final_path_in_target in Hfp as [_ (c & -> & _)]; [|done..].
    rewrite chunk_path_normal in Heq by done.
    apply app_inj_tail in Heq as [? _]. done. }
  split; [split|].
  - intros [item Hitem].
    destruct (finalize_upload_inv no_faults r st)
      as (sid0 & fname0 & s0 & fp & nm & ? & ? & ? & _ & Hsize & Hfp & Heq).
    { left. by rewrite Hitem. }
    simplify_eq. split; [done|]. intros i Hi.
    rewrite Heq in Hitem. unfold finalize_accepted in Hitem.
    destruct (combine no_faults s fp (files st)) as [d [e|]] eqn:Hcomb;
      [by destruct (stream_error e)|].
    apply combine_None_inv in Hcomb as [_ Hall]; [|by intros; eapply Hcp].
    destruct (Hall i Hi) as [Hr _]. by rewrite chunk_path_normal in Hr.
  - intros [Hsize Hall].
    destruct (finalize_upload_accepted no_faults r st sid fname total s)
      as (fp & nm & Hfp & Heq); try done.
    rewrite Heq. clear Heq.
    pose proof (final_path_in_target _ _ _ _ _ Hnt Hplain Hfp) as [Hfree (c & -> & _)].
    set (datas := (λ i, default [] (readFile (files st) (chunk_path (tempDir s) i)))
                    <$> seq 0 (Z.to_nat (totalChunks s))).
    unfold finalize_accepted.
    rewrite (combine_ok no_faults s _ (files st) datas).
    + unfold readFile. rewrite lookup_insert_eq. by eexists.
    + apply snoc_not_nil.
    + by rewrite parent_snoc.
    + done.
    + unfold datas. by rewrite length_fmap, length_seq.
    + intros j data Hj. split; [|done].
      subst datas. rewrite list_lookup_fmap in Hj.
      destruct (seq 0 (Z.to_nat (totalChunks s)) !! j) as [i|] eqn:Hi; [|done].
      apply lookup_seq in Hi as [-> Hlt]. simpl in Hj.
      destruct (Hall j Hlt) as [x Hx]. rewrite chunk_path_normal in * by done.
      rewrite Hx in Hj. simpl in Hj. congruence.
  - intros Hsize. unfold finalize_upload. rewrite Hsid, Hfname, Htotal.
    apply String.eqb_neq in Hs1, Hf1. apply Z.eqb_neq in Ht1.
    rewrite Hs1, Hf1, Ht1, Hs. simpl.
    apply String.eqb_eq in Hu. rewrite Hu. simpl.
    apply Z.eqb_neq in Hsize. by rewrite Hsize.
Qed.

(** The theorem applies: a two-chunk session holding both chunks. *)
Lemma finalize_succeeds_iff_count_and_chunk_files_witness :
  let st := then_chunk 2 "s1" 0 "b" sample_bytes_a "u1"
              (then_chunk 1 "s1" 1 "a" sample_bytes_b "u1"
                 (then_init 0 (sample_init "s1" "u1" 2) initial_state)) in
  ∃ item, (finalize_upload no_faults (sample_finalize "s1" "u1" 2) st).1 = FinalizeOk item.
Proof.
  intros st.
  destruct (chunkSessions st !! "s1") as [s|] eqn:Hs; [|by vm_compute in Hs].
  pose proof (finalize_succeeds_iff_count_and_chunk_files
                (sample_finalize "s1" "u1" 2) st "s1" "doc.txt" 2 s) as H.
  vm_compute in Hs. injection Hs as <-.
  destruct H as [[_ H] _];
    [reflexivity|reflexivity|reflexivity|done|reflexivity|done
    |reflexivity|reflexivity|reflexivity|reflexivity|done|reflexivity|].
  apply H. split; [reflexivity|].
  intros i Hi. change (Z.to_nat _) with 2 in Hi.
  destruct i as [|[|i]]; [by eexists|by eexists|lia].
Defined.

(** C2 fails as stated: the id [s1] is initialised again while the chunk
    files 0 and 1 of its first life are on disk; the new session then
    receives the indices 5 and 7 only, which do not cover [0, 2), and
    finalize succeeds, assembling the two old chunk files. *)
Lemma finalize_succeeds_without_covering_indices :
  let st0 := then_chunk 2 "s1" 1 "b" sample_bytes_b "u1"
               (then_chunk 1 "s1" 0 "a" sample_bytes_a "u1"
                  (then_init 0 (sample_init "s1" "u1" 2) initial_state)) in
  let st := then_chunk 5 "s1" 7 "d" sample_bytes_c "u1"
              (then_chunk 4 "s1" 5 "c" sample_bytes_c "u1"
                 (then_init 3 (sample_init "s1" "u1" 2) st0)) in
  let out := finalize_upload no_faults (sample_finalize "s1" "u1" 2) st in
  (receivedChunks <$> chunkSessions st !! "s1") = Some ({[ 5%Z; 7%Z ]} : gset Z) ∧
  (totalChunks <$> chunkSessions st !! "s1") = Some 2%Z ∧
  http_status out.1 = 200 ∧
  files out.2 !! ["u1"; "doc.txt"] = Some (File (sample_bytes_a ++ sample_bytes_b)).
Proof. vm_compute. repeat split; reflexivity. Qed.

(** ** The general cleanup: what every such call does to the others *)




(** ** One chunk request, step by step *)

Lemma ensureDir_chunks_dir (d : disk) :
  d !! ["temp"] = Some Dir →
  (∀ data, d !! ["temp"; "chunks"] ≠ Some (File data)) →
  ensureDir d chunks_dir = Some (<[ ["temp"; "chunks"] := Dir ]> d).
Proof.
  intros Ht Hc. unfold ensureDir. change chunks_dir with ["temp"; "chunks"].
  simpl. rewrite Ht.
  destruct (d !! ["temp"; "chunks"]) as [[|data]|] eqn:E.
  - by rewrite insert_id.
  - by destruct (Hc data).
  - done.
Qed.

Lemma write_file_fresh (d : disk) (p : path) (data : bytes) :
  p ≠ [] → is_directory d (parent p) = true → d !! p ≠ Some Dir →
  write_file d p data = Some (<[p := File data]> d).
Proof.
  intros Hne Hpar Hnd. unfold write_file, open_write.
  destruct p as [|c p]; [done|]. rewrite Hpar.
  destruct (d !! (c :: p)) as [[|old]|] eqn:E; [done| |].
  - rewrite (append_file_File _ _ []) by (by rewrite lookup_insert_eq).
    by rewrite insert_insert_eq.
  - rewrite (append_file_File _ _ []) by (by rewrite lookup_insert_eq).
    by rewrite insert_insert_eq.
Qed.

Lemma plain_temp_name (stamp : string) : plain (temp_name stamp) = true.
Proof. reflexivity. Qed.

Lemma temp_name_not_chunk (stamp : string) (i : Z) : temp_name stamp ≠ chunk_name i.
Proof. discriminate. Qed.

Lemma chunk_route_stores (now i : Z) (sid stamp user : string) (data : bytes)
    (s : session) (st : state) :
  plain sid = true →
  chunkSessions st !! sid = Some s → userId s = user → tempDir s = ["temp"; sid] →
  files st !! ["temp"] = Some Dir → files st !! ["temp"; sid] = Some Dir →
  (∀ x, files st !! ["temp"; "chunks"] ≠ Some (File x)) →
  files st !! ["temp"; "chunks"; temp_name stamp] ≠ Some Dir →
  files st !! ["temp"; sid; chunk_name i] ≠ Some Dir →
  (Z.of_nat (length data) ≤ MAX_CHUNK_BYTES)%Z →
  chunk_route now (Some sid) (Some i) stamp (Some data) user st
  = (ChunkOk i (size ({[ i ]} ∪ receivedChunks s)) (totalChunks s),
     {| chunkSessions := <[sid := with_chunk s i now]> (chunkSessions st);
        uploadProgress := uploadProgress st;
        files := chunk_stored (files st) sid stamp i data |}).
Proof.
  intros Hps Hs Hu Htemp Ht Hts Hcf Htn Hcp Hsize.
  apply Z.ltb_ge in Hsize.
  unfold chunk_route, chunkUpload_single.
  rewrite ensureDir_chunks_dir by done.
  change chunks_dir with ["temp"; "chunks"].
  rewrite (path_join_normal ["temp"; "chunks"] (temp_name stamp)) by done.
  cbn [app].
  rewrite write_file_fresh; [| done | | ].
  2:{ change (parent ["temp"; "chunks"; temp_name stamp]) with ["temp"; "chunks"].
      apply is_directory_true. right. by rewrite lookup_insert_eq. }
  2:{ by rewrite lookup_insert_ne. }
  rewrite Hsize.
  unfold upload_chunk. cbn [chunk_sessionId chunk_chunkIndex chunk_file chunk_userId
                            set_files chunkSessions files uploadProgress].
  assert (sid ≠ "") as Hne by (by intros ->).
  apply String.eqb_neq in Hne. rewrite Hne, Hs.
  apply String.eqb_eq in Hu. rewrite Hu. cbn [negb].
  rewrite Htemp.
  rewrite (path_join_normal ["temp"; sid] (chunk_name i)); [|by simpl; rewrite Hps|done].
  cbn [app].
  assert (["temp"; sid; chunk_name i] ≠ ["temp"; "chunks"; temp_name stamp]) as Hdiff.
  { intros Heq. apply (f_equal (λ l : path, l !! 2)) in Heq.
    apply (inj Some) in Heq. by eapply temp_name_not_chunk. }
  rewrite (rename_file _ _ _ data).
  - done.
  - unfold readFile. by rewrite lookup_insert_eq.
  - done.
  - change (parent ["temp"; sid; chunk_name i]) with ["temp"; sid].
    apply is_directory_true. right.
    rewrite lookup_insert_ne by done. rewrite lookup_insert.
    by case_decide.
  - rewrite !lookup_insert_ne; done.
Qed.

Lemma chunk_stored_lookup (d : disk) (sid stamp : string) (i : Z) (data : bytes) (p : path) :
  chunk_stored d sid stamp i data !! p =
  if decide (p = ["temp"; sid; chunk_name i]) then Some (File data)
  else if decide (p = ["temp"; "chunks"; temp_name stamp]) then None
  else if decide (p = ["temp"; "chunks"]) then Some Dir
  else d !! p.
Proof.
  unfold chunk_stored.
  destruct (decide (p = ["temp"; sid; chunk_name i])) as [->|H1];
    [by rewrite lookup_insert_eq|].
  rewrite lookup_insert_ne by done.
  destruct (decide (p = ["temp"; "chunks"; temp_name stamp])) as [->|H2];
    [by rewrite lookup_delete_eq|].
  rewrite lookup_delete_ne, lookup_insert_ne by done.
  destruct (decide (p = ["temp"; "chunks"])) as [->|H3];
    [by rewrite lookup_insert_eq|].
  by rewrite lookup_insert_ne.
Qed.

Lemma chunk_store_inv_step (now : Z) (sid stamp : string) (s0 : session) (d0 : disk)
    (M : gmap nat bytes) (i : nat) (data : bytes) (st : state) :
  plain sid = true → tempDir s0 = ["temp"; sid] →
  (Z.of_nat (length data) ≤ MAX_CHUNK_BYTES)%Z →
  chunk_store_inv sid s0 d0 M st →
  chunk_store_inv sid s0 d0 (<[i := data]> M)
    (then_chunk now sid (Z.of_nat i) stamp data (userId s0) st).
Proof.
  intros Hps Htemp Hsize
    ((s & Hs & Hu & Htd & Htg & Htot & Hrc) & Ht & Hts & Hcf & Hcd & Hsd & Hout & HM).
  unfold then_chunk.
  rewrite (chunk_route_stores _ _ _ _ _ _ s); try done; [|congruence].
  cbn [snd]. unfold chunk_store_inv. cbn [chunkSessions files]. split_and!.
  - exists (with_chunk s (Z.of_nat i) now). rewrite lookup_insert_eq. simpl.
    split_and!; try done.
    rewrite Hrc, dom_insert_L, set_map_union_L, set_map_singleton_L.
    apply set_eq. intros x. rewrite !elem_of_union. tauto.
  - rewrite chunk_stored_lookup.
    rewrite !decide_False by (intros [=]). done.
  - rewrite chunk_stored_lookup.
    rewrite 2!decide_False by (intros [=]). by case_decide.
  - intros x. rewrite chunk_stored_lookup.
    rewrite 2!decide_False by (intros [=]). rewrite decide_True by done. done.
  - intros c. rewrite chunk_stored_lookup.
    destruct (decide (["temp"; "chunks"; c] = ["temp"; sid; chunk_name (Z.of_nat i)]));
      [done|].
    destruct (decide (["temp"; "chunks"; c] = ["temp"; "chunks"; temp_name stamp]));
      [done|].
    rewrite decide_False by (intros [=]). apply Hcd.
  - intros c. rewrite chunk_stored_lookup.
    destruct (decide (["temp"; sid; c] = ["temp"; sid; chunk_name (Z.of_nat i)]));
      [done|].
    destruct (decide (["temp"; sid; c] = ["temp"; "chunks"; temp_name stamp]));
      [done|].
    rewrite decide_False by (intros [=]). apply Hsd.
  - intros p Hp. rewrite chunk_stored_lookup.
    rewrite !decide_False; [by apply Hout|intros ->; done..].
  - intros j x Hj. rewrite chunk_stored_lookup.
    destruct (decide (j = i)) as [->|Hji].
    + rewrite lookup_insert_eq in Hj. simplify_eq. by rewrite decide_True.
    + rewrite lookup_insert_ne in Hj by done.
      rewrite decide_False.
      * rewrite decide_False.
        -- rewrite decide_False by (intros [=]). by apply HM.
        -- intros Heq. apply (f_equal (λ l : path, l !! 2)) in Heq.
           apply (inj Some) in Heq. symmetry in Heq.
           by eapply temp_name_not_chunk.
      * intros Heq. apply (f_equal (λ l : path, l !! 2)) in Heq.
        apply (inj Some), chunk_name_inj in Heq. lia.
Qed.

(** ** Arrival order *)

Lemma stored_chunks_lookup (chunks : list bytes) (order : list (nat * string)) :
  ∀ (M : gmap nat bytes) (i : nat),
  stored_chunks chunks order M !! i =
  if decide (i ∈ order.*1) then Some (default [] (chunks !! i)) else M !! i.
Proof.
  unfold stored_chunks.
  induction order as [|[j tn] order IH]; intros M i.
  - cbn [foldl fmap list_fmap].
    destruct (decide (i ∈ [])) as [H|H]; [by apply elem_of_nil in H|done].
  - cbn [foldl]. rewrite IH. rewrite fmap_cons. cbn [fst].
    destruct (decide (i ∈ order.*1)) as [Hin|Hin];
      destruct (decide (i ∈ j :: order.*1)) as [Hin'|Hin'].
    + done.
    + exfalso. apply Hin'. apply elem_of_cons. by right.
    + apply elem_of_cons in Hin' as [->|?]; [|done]. by rewrite lookup_insert_eq.
    + rewrite lookup_insert_ne; [done|]. intros ->. apply Hin'. apply elem_of_cons. by left.
Qed.

Lemma stored_chunks_dom (chunks : list bytes) (order : list (nat * string)) :
  ∀ M : gmap nat bytes,
  dom (stored_chunks chunks order M) = dom M ∪ list_to_set order.*1.
Proof.
  intros M. apply set_eq. intros i.
  rewrite elem_of_dom, stored_chunks_lookup, elem_of_union, elem_of_dom,
    elem_of_list_to_set.
  destruct (decide (i ∈ order.*1)); [|tauto].
  split; [by right|by eexists].
Qed.

Lemma within_limit_lookup (chunks : list bytes) (i : nat) :
  within_limit chunks →
  (Z.of_nat (length (default [] (chunks !! i))) ≤ MAX_CHUNK_BYTES)%Z.
Proof.
  intros H. destruct (chunks !! i) as [c|] eqn:E; [|done].
  by apply (Forall_lookup_1 _ _ _ _ H E).
Qed.

Lemma upload_in_order_inv (now : Z) (sid : string) (s0 : session) (d0 : disk)
    (chunks : list bytes) (order : list (nat * string)) :
  plain sid = true → tempDir s0 = ["temp"; sid] → within_limit chunks →
  ∀ (M : gmap nat bytes) (st : state),
  chunk_store_inv sid s0 d0 M st →
  chunk_store_inv sid s0 d0 (stored_chunks chunks order M)
    (upload_in_order now sid (userId s0) chunks order st).
Proof.
  intros Hps Htemp Hlim. unfold stored_chunks, upload_in_order.
  induction order as [|[j stamp] order IH]; intros M st Hinv; simpl; [done|].
  apply IH. apply chunk_store_inv_step; [done..| |done].
  by apply within_limit_lookup.
Qed.

Lemma received_all (n : nat) :
  size (set_map (D := gset Z) Z.of_nat (list_to_set (C := gset nat) (seq 0 n))) = n.
Proof.
  rewrite <- list_to_set_fmap_L, size_list_to_set.
  - by rewrite length_fmap, length_seq.
  - apply NoDup_fmap_2; [apply _|apply NoDup_seq].
Qed.

(** Two disks that agree on the candidates give the same answer of the
    probing loop, whatever the fuel. *)
Lemma resolve_conflict_agree (d1 d2 : disk) (dir : path) (name : string)
    (f1 f2 counter : nat) (cur r1 r2 : path * string) :
  d1 !! cur.1 = d2 !! cur.1 →
  (∀ k, d1 !! candidate dir name k = d2 !! candidate dir name k) →
  resolve_conflict d1 dir name f1 counter cur = Some r1 →
  resolve_conflict d2 dir name f2 counter cur = Some r2 →
  r1 = r2.
Proof.
  intros Hcur Hcand H1 H2.
  apply resolve_conflict_Some in H1 as [Hf1 H1], H2 as [Hf2 H2].
  destruct H1 as [->|[Hc1 (k1 & Hk1 & -> & Ho1)]],
           H2 as [->|[Hc2 (k2 & Hk2 & -> & Ho2)]]; simpl in *.
  - done.
  - rewrite <- Hcur, Hf1 in Hc2. by destruct Hc2.
  - rewrite Hcur, Hf2 in Hc1. by destruct Hc1.
  - destruct (decide (k1 = k2)) as [->|Hne]; [done|]. exfalso.
    destruct (decide (k1 < k2)).
    + destruct (Ho2 k1) as [x Hx]; [lia|]. rewrite <- Hcand in Hx. congruence.
    + destruct (Ho1 k2) as [x Hx]; [lia|]. rewrite Hcand in Hx. congruence.
Qed.

Lemma final_path_agree (d1 d2 : disk) (s : session) (fname : string) :
  normal (targetDir s) = true → targetDir s ≠ [] → under_temp (targetDir s) = false →
  (∀ p : path, under_temp p = false → d1 !! p = d2 !! p) →
  final_path d1 s fname = final_path d2 s fname.
Proof.
  intros Hn Hne Hout Hagree.
  destruct (final_path_total d1 s fname) as [r1 H1].
  destruct (final_path_total d2 s fname) as [r2 H2].
  rewrite H1, H2. f_equal.
  eapply (resolve_conflict_agree d1 d2); [| |exact H1|exact H2].
  - apply Hagree. by apply path_join_outside_temp.
  - intros k. apply Hagree. unfold candidate. by apply path_join_outside_temp.
Qed.

(** The outcome of a finalize whose chunks are all in place. *)
Lemma finalize_upload_ok (r : finalize_request) (st : state) (sid fname : string)
    (total : Z) (s : session) (fp : path) (nm : string) (datas : list bytes) :
  fin_sessionId r = Some sid → fin_fileName r = Some fname →
  fin_totalChunks r = Some total →
  sid ≠ "" → plain fname = true → total ≠ 0%Z →
  chunkSessions st !! sid = Some s → userId s = fin_userId r →
  Z.of_nat (size (receivedChunks s)) = totalChunks s →
  normal (targetDir s) = true → is_directory (files st) (targetDir s) = true →
  final_path (files st) s fname = Some (fp, nm) →
  Z.to_nat (totalChunks s) = length datas →
  (∀ j data, datas !! j = Some data →
     readFile (files st) (chunk_path (tempDir s) j) = Some data) →
  finalize_upload no_faults r st
  = (FinalizeOk (make_item (fin_userId r) fp (basename fp) (length (concat datas))),
     {| chunkSessions := delete sid (chunkSessions st);
        uploadProgress := uploadProgress st;
        files := cleanupTempDirectory
                   (rm_rf (<[fp := File (concat datas)]> (files st)) (tempDir s)) |}).
Proof.
  intros Hsid Hfname Htotal Hs1 Hplain Ht1 Hs Hu Hsize Hnt Hdir Hfp Hlen Hall.
  destruct (finalize_upload_accepted no_faults r st sid fname total s)
    as (fp' & nm' & Hfp' & Heq); try done; [by apply plain_not_empty|].
  rewrite Hfp in Hfp'. simplify_eq. rewrite Heq. clear Heq.
  pose proof (final_path_in_target _ _ _ _ _ Hnt Hplain Hfp) as [Hfree (c & -> & _)].
  unfold finalize_accepted.
  rewrite (combine_ok no_faults s _ (files st) datas); try done.
  - unfold readFile. by rewrite lookup_insert_eq.
  - apply snoc_not_nil.
  - by rewrite parent_snoc.
  - intros j data Hj. split; [by apply Hall|done].
Qed.

(** ** What [init] leaves behind *)

Lemma mkdir_from_keeps (rest : path) : ∀ (base : path) (d d' : disk) (p : path) (n : node),
  mkdir_from base rest d = Some d' → d !! p = Some n → d' !! p = Some n.
Proof.
  induction rest as [|c rest IH]; intros base d d' p n; simpl.
  - by intros [= <-].
  - destruct (d !! (base ++ [c])) as [[|x]|] eqn:E; [|done|].
    + apply IH.
    + intros H Hp. eapply IH; [done|].
      rewrite lookup_insert_ne; [done|]. congruence.
Qed.

Lemma mkdir_from_made (rest : path) : ∀ (base : path) (d d' : disk),
  mkdir_from base rest d = Some d' → rest ≠ [] → d' !! (base ++ rest) = Some Dir.
Proof.
  induction rest as [|c rest IH]; intros base d d' H Hne; [done|].
  simpl in H. replace (base ++ c :: rest) with ((base ++ [c]) ++ rest)
    by (by rewrite <- app_assoc).
  destruct (d !! (base ++ [c])) as [[|x]|] eqn:E; [|done|].
  - destruct rest as [|c' rest]; [|by apply (IH _ _ _ H)].
    simpl in H. simplify_eq. by rewrite app_nil_r.
  - destruct rest as [|c' rest]; [|by apply (IH _ _ _ H)].
    simpl in H. simplify_eq. by rewrite app_nil_r, lookup_insert_eq.
Qed.

(** [mkdir] adds directories only, and only on the way to its target. *)
Lemma mkdir_from_new (rest : path) : ∀ (base : path) (d d' : disk) (p : path) (n : node),
  mkdir_from base rest d = Some d' → d' !! p = Some n →
  d !! p = Some n ∨ (n = Dir ∧ p `prefix_of` base ++ rest).
Proof.
  induction rest as [|c rest IH]; intros base d d' p n; simpl.
  - intros [= <-]. by left.
  - replace (base ++ c :: rest) with ((base ++ [c]) ++ rest)
      by (by rewrite <- app_assoc).
    destruct (d !! (base ++ [c])) as [[|x]|] eqn:E; [|done|].
    + apply IH.
    + intros H Hp. destruct (IH _ _ _ _ _ H Hp) as [Hq|Hq]; [|by right].
      destruct (decide (p = base ++ [c])) as [->|Hne].
      * rewrite lookup_insert_eq in Hq. simplify_eq. right.
        split; [done|]. by apply prefix_app_r.
      * rewrite lookup_insert_ne in Hq by done. by left.
Qed.

(** An accepted init of a plain id, for a target outside [temp] and on a
    disk whose [temp] area is in order, leaves a fresh session. *)
Lemma init_upload_fresh (now : Z) (r : init_request) (st : state) (sid : string) :
  (init_upload now r st).1 = InitOk sid →
  plain sid = true →
  under_temp (path_join (getUserDirectory (init_userId r)) (default [] (init_path r)))
    = false →
  (∀ x, files st !! ["temp"; "chunks"] ≠ Some (File x)) →
  (∀ c, files st !! ["temp"; "chunks"; c] ≠ Some Dir) →
  (∀ c, files st !! ["temp"; sid; c] ≠ Some Dir) →
  ∃ s, chunkSessions (init_upload now r st).2 !! sid = Some s ∧
       fresh_session (init_upload now r st).2 sid s ∧
       userId s = init_userId r ∧ Some (totalChunks s) = init_totalChunks r ∧
       targetDir s
       = path_join (getUserDirectory (init_userId r)) (default [] (init_path r)) ∧
       ∀ (p : path) (n : node),
         files st !! p = Some n → files (init_upload now r st).2 !! p = Some n.
Proof.
  unfold init_upload.
  destruct (init_fileName r) as [fname|]; [|done].
  destruct (init_fileSize r) as [fsize|]; [|done].
  destruct (init_totalChunks r) as [total|]; [|done].
  destruct (init_sessionId r) as [sid'|]; [|done].
  destruct (_ || _); [done|].
  set (target := path_join (getUserDirectory (init_userId r)) (default [] (init_path r))).
  destruct (negb (String.prefix _ _)) eqn:Hpre; [done|].
  destruct (ensureDir (files st) target) as [d1|] eqn:E1; [|done].
  destruct (ensureDir d1 (path_join temp_root [sid'])) as [d2|] eqn:E2; [|done].
  simpl. intros [= ->] Hps Hout Hcf Hcd Hsd.
  rewrite path_join_normal in * by done. change (temp_root ++ [sid]) with ["temp"; sid] in *.
  assert (target ≠ []) as Hne.
  { intros Heq. rewrite Heq in Hpre. simpl in Hpre. done. }
  assert (d1 !! target = Some Dir) as Ht1.
  { apply (mkdir_from_made target [] _ _ E1 Hne). }
  assert (d2 !! ["temp"; sid] = Some Dir) as Hts.
  { by apply (mkdir_from_made ["temp"; sid] [] _ _ E2). }
  assert (d2 !! ["temp"] = Some Dir) as Htmp.
  { unfold ensureDir in E2. cbn [mkdir_from app] in E2.
    destruct (d1 !! ["temp"]) as [[|x]|] eqn:E; [|done|].
    - destruct (d1 !! ["temp"; sid]) as [[|x]|]; simplify_eq; [done|].
      by rewrite lookup_insert_ne.
    - rewrite lookup_insert_ne in E2 by done.
      destruct (d1 !! ["temp"; sid]) as [[|x]|]; simplify_eq.
      + by rewrite lookup_insert_eq.
      + by rewrite lookup_insert_ne, lookup_insert_eq. }
  assert (∀ (p : path) n, d2 !! p = Some n →
            files st !! p = Some n ∨
            (n = Dir ∧ (p `prefix_of` target ∨ p `prefix_of` ["temp"; sid]))) as Hnew.
  { intros p n Hp. destruct (mkdir_from_new _ _ _ _ _ _ E2 Hp) as [Hq|[-> Hq]].
    - destruct (mkdir_from_new _ _ _ _ _ _ E1 Hq) as [?|[-> ?]]; [by left|right; auto].
    - right; auto. }
  assert (∀ c0 c1 : string, ¬ ["temp"; c0; c1] `prefix_of` target) as Hnt.
  { intros c0 c1 [k Hk]. rewrite Hk in Hout. done. }
  assert (∀ c0 c1 : string, ¬ ["temp"; c0; c1] `prefix_of` ["temp"; sid]) as Hns.
  { intros c0 c1 H%prefix_length. simpl in H. lia. }
  eexists. rewrite lookup_insert_eq. split; [done|]. split.
  2:{ split_and!; try done. intros p n Hp.
      eapply mkdir_from_keeps; [exact E2|]. by eapply mkdir_from_keeps. }
  unfold fresh_session, chunk_store_inv. simpl.
  rewrite lookup_insert_eq. split_and!; try done.
  - eexists. split; [done|]. by split_and!.
  - intros x Hx. destruct (Hnew _ _ Hx) as [?|[? _]]; [by eapply Hcf|done].
  - intros c Hc. destruct (Hnew _ _ Hc) as [?|[_ [?|?]]];
      [by eapply Hcd|by eapply Hnt|by eapply Hns].
  - intros c Hc. destruct (Hnew _ _ Hc) as [?|[_ [?|?]]];
      [by eapply Hsd|by eapply Hnt|by eapply Hns].
  - apply path_join_is_normal.
  - apply is_directory_true. right. by eapply mkdir_from_keeps.
Qed.

(** ** Order independence *)

Lemma received_covering (order : list nat) (n : nat) :
  (∀ i, i ∈ order ↔ i < n) →
  size (set_map (D := gset Z) Z.of_nat (list_to_set (C := gset nat) order)) = n.
Proof.
  intros Hcov. rewrite <- (received_all n). f_equal. f_equal.
  apply set_eq. intros i. rewrite !elem_of_list_to_set, Hcov, elem_of_seq. lia.
Qed.

(** Once every index below [length chunks] has arrived, in whatever order
    and however often, the session counts as complete, every chunk file
    holds its chunk, and the destination that finalize will choose is the
    one it would have chosen before the first chunk. *)
Lemma uploads_fill_scratch
    (now : Z) (st : state) (sid fname : string) (s : session)
    (chunks : list bytes) (order : list (nat * string)) (fp : path) (nm : string) :
  fresh_session st sid s → plain sid = true → within_limit chunks →
  totalChunks s = Z.of_nat (length chunks) →
  (∀ i, i ∈ order.*1 ↔ i < length chunks) →
  final_path (files st) s fname = Some (fp, nm) →
  ∃ s1, chunkSessions (upload_in_order now sid (userId s) chunks order st) !! sid = Some s1 ∧
    userId s1 = userId s ∧ tempDir s1 = ["temp"; sid] ∧ targetDir s1 = targetDir s ∧
    Z.of_nat (size (receivedChunks s1)) = totalChunks s1 ∧
    Z.to_nat (totalChunks s1) = length chunks ∧
    final_path (files (upload_in_order now sid (userId s) chunks order st)) s1 fname
    = Some (fp, nm) ∧
    is_directory (files (upload_in_order now sid (userId s) chunks order st))
      (targetDir s1) = true ∧
    (∀ j data, chunks !! j = Some data →
       readFile (files (upload_in_order now sid (userId s) chunks order st))
         (chunk_path (tempDir s1) j) = Some data).
Proof.
  intros (Hinv & Htemp & Hrc0 & Hnt & Hne & Hout & Hdir) Hps Hlim Htot Hcov Hfp.
  pose proof (upload_in_order_inv now sid s (files st) chunks order
                Hps Htemp Hlim ∅ st Hinv) as Hinv1.
  set (st1 := upload_in_order now sid (userId s) chunks order st) in *.
  destruct Hinv1 as ((s1 & Hs1 & Hu1 & Htd1 & Htg1 & Htot1 & Hrc1) & _ & _ & _ & _ & _
                     & Hsame & HM).
  exists s1. split_and!; try done; try congruence.
  - rewrite Hrc1, Hrc0, union_empty_l_L, stored_chunks_dom, dom_empty_L, union_empty_l_L.
    rewrite (received_covering _ (length chunks)) by done. congruence.
  - rewrite Htot1, Htot. lia.
  - rewrite <- Hfp. unfold final_path at 1. rewrite Htg1.
    apply (final_path_agree (files st1) (files st) s); done.
  - rewrite Htg1. apply is_directory_true. apply is_directory_true in Hdir.
    destruct Hdir as [?|Hdir]; [done|]. right. by rewrite Hsame.
  - intros j data Hj. rewrite Htd1, Htemp, chunk_path_normal by (by simpl; rewrite Hps).
    apply readFile_Some, HM. rewrite stored_chunks_lookup, decide_True, Hj; [done|].
    apply Hcov. by apply lookup_lt_Some in Hj.
Qed.

(** The destination of a successful finalize survives the cleanup when it
    lies outside [temp]. *)
Lemma finalized_file_stays (d : disk) (fp temp : path) (data : bytes) :
  under_temp fp = false → under_temp temp = true →
  cleanupTempDirectory (rm_rf (<[fp := File data]> d) temp) !! fp = Some (File data).
Proof.
  intros Hfp Htemp. rewrite cleanup_lookup_other, rm_rf_lookup_other.
  - by rewrite lookup_insert_eq.
  - intros Hp. apply under_temp_prefix in Htemp.
    assert (temp_root `prefix_of` fp) as H%under_temp_prefix by (by etrans).
    congruence.
  - intros H%under_temp_prefix. congruence.
Qed.

(** C7: take a fresh session for [length chunks] chunks and let the chunk
    requests arrive in any order that is a permutation of the indices,
    index [i] always carrying [chunks !! i].  Whatever the order, finalize
    answers 200 for the same destination, which holds chunk 0, chunk 1,
    ... in index order.  The session id, the file name, the user id and
    the components of the target directory are single names, and every
    chunk is within the size limit of the chunk route. *)
Theorem reassembly_ignores_arrival_order
    (now : Z) (st : state) (sid fname : string) (total : Z) (s : session)
    (r : finalize_request) (chunks : list bytes) (fp : path) (nm : string) :
  fresh_session st sid s →
  single_name sid = true → single_name fname = true →
  single_name (userId s) = true → proper_path (targetDir s) = true →
  within_limit chunks →
  totalChunks s = Z.of_nat (length chunks) →
  fin_sessionId r = Some sid → fin_fileName r = Some fname →
  fin_totalChunks r = Some total → total ≠ 0%Z → fin_userId r = userId s →
  final_path (files st) s fname = Some (fp, nm) →
  ∀ order : list (nat * string),
    order.*1 ≡ₚ seq 0 (length chunks) →
    let out := finalize_upload no_faults r
                 (upload_in_order now sid (userId s) chunks order st) in
    out.1 = FinalizeOk (make_item (userId s) fp (basename fp) (length (concat chunks))) ∧
    files out.2 !! fp = Some (File (concat chunks)).
Proof.
  intros Hfresh Hps%single_name_plain Hpf%single_name_plain _ _ Hlim
    Htot Hsid Hfname Htotal Ht1 Hu Hfp order Hperm.
  assert (∀ i, i ∈ order.*1 ↔ i < length chunks) as Hcov.
  { intros i. rewrite Hperm, elem_of_seq. lia. }
  destruct (uploads_fill_scratch now st sid fname s chunks order fp nm)
    as (s1 & Hs1 & Hu1 & Htd1 & Htg1 & Hsize & Hlen & Hfp1 & Hdir1 & Hall); try done.
  destruct Hfresh as (_ & _ & _ & Hnt & Hne & Hout & _).
  assert (sid ≠ "") as Hsid1 by (by intros ->).
  intros out. unfold out.
  rewrite (finalize_upload_ok r _ sid fname total s1 fp nm chunks); try done;
    [|congruence|congruence].
  cbn [fst snd files]. rewrite Hu. split; [done|].
  apply finalized_file_stays.
  - by eapply final_path_outside_temp.
  - by rewrite Htd1.
Qed.

(** The theorem applies: a session of two chunks right after [init], the
    chunks arriving as 1, 0. *)
Lemma reassembly_ignores_arrival_order_witness :
  let st := then_init 0 (sample_init "s1" "u1" 2) initial_state in
  let chunks := [sample_bytes_a; sample_bytes_b] in
  let out := finalize_upload no_faults (sample_finalize "s1" "u1" 2)
               (upload_in_order 1 "s1" "u1" chunks [(1, "a"); (0, "b")] st) in
  files out.2 !! ["u1"; "doc.txt"] = Some (File (concat chunks)).
Proof.
  intros st chunks.
  destruct (init_upload_fresh 0 (sample_init "s1" "u1" 2) initial_state "s1")
    as (s & Hs & Hfresh & _); [reflexivity|reflexivity|reflexivity|..].
  { intros x. simpl. by rewrite lookup_empty. }
  { intros c. simpl. by rewrite lookup_empty. }
  { intros c. simpl. by rewrite lookup_empty. }
  fold (then_init 0 (sample_init "s1" "u1" 2) initial_state) in Hs, Hfresh.
  fold st in Hs, Hfresh.
  vm_compute in Hs. injection Hs as <-.
  refine (proj2 (reassembly_ignores_arrival_order 1 st "s1" "doc.txt" 2 _
            (sample_finalize "s1" "u1" 2) chunks ["u1"; "doc.txt"] "doc.txt"
            Hfresh _ _ _ _ _ _ _ _ _ _ _ _ [(1, "a"); (0, "b")] _));
    try reflexivity; try done.
  { repeat constructor; vm_compute; discriminate. }
  apply perm_swap.
Defined.

(** ** The client's slices and the round trip *)



Lemma total_chunks_covers (C N : nat) : 0 < C → N ≤ total_chunks C N * C.
Proof.
  intros HC. unfold total_chunks.
  pose proof (Nat.div_mod_eq (N + (C - 1)) C).
  pose proof (Nat.mod_upper_bound (N + (C - 1)) C). lia.
Qed.












(** ** The round trip of a file through the chunked upload *)





Lemma CHUNK_SIZE_pos : 0 < CHUNK_SIZE.
Proof. unfold CHUNK_SIZE. lia. Qed.

(** ** Name conflicts on the two upload paths *)

(** Finalize never writes over an existing entry: its destination is free
    and is the requested name or a numbered form of it. *)
Lemma finalize_destination_is_free (d : disk) (s : session) (fname : string)
    (fp : path) (nm : string) :
  normal (targetDir s) = true → plain fname = true →
  final_path d s fname = Some (fp, nm) →
  d !! fp = None ∧
  (fp = targetDir s ++ [fname] ∨
   ∃ k, 1 ≤ k ∧ fp = targetDir s ++ [numbered_name fname k]).
Proof.
  intros Hn Hp H. destruct (final_path_in_target _ _ _ _ _ Hn Hp H)
    as [Hfree (c & -> & [->|(k & Hk & ->)])]; eauto.
Qed.

(** On the direct path the handler first probes the path at which multer
    has just saved the file, so whenever a file is reported its name is a
    numbered form, never the original name. *)
Lemma process_file_always_renames (user : string) (f : stored_file) (d d' : disk)
    (item : fileItem) :
  access d (sf_path f) = true →
  process_file user f d = Some (d', Some item) →
  ∃ k, 1 ≤ k ∧ item_name item = numbered_name (sf_originalname f) k.
Proof.
  intros Hacc. unfold process_file. rewrite Hacc. cbn [negb].
  destruct (resolve_conflict _ _ _ _ _ _) as [[finalPath finalName]|] eqn:Hr; [|done].
  apply resolve_conflict_Some in Hr as [Hfree Hr]. cbn [fst] in *.
  destruct Hr as [[= -> ->]|[_ (k & Hk & [= -> ->] & _)]].
  { apply access_true in Hacc as [n Hn]. congruence. }
  intros H. exists k. split; [done|].
  destruct (decide (_ = _)).
  - destruct (d !! _); simplify_eq; done.
  - destruct (rename _ _ _) as [d1|]; [|done].
    destruct (d1 !! _); simplify_eq; done.
Qed.

(** C6, at the failing input.  On the chunked path two uploads of
    [doc.txt] give [doc.txt] and then [doc (1).txt].  On the direct path
    multer has saved the file under its original name before the handler
    probes that very path, so the first upload into an empty directory is
    already renamed [doc (1).txt], the second [doc (2).txt], and no
    [doc.txt] exists; and a direct upload of [doc.txt] into a directory
    that has a [doc.txt] replaces its content and renames it. *)
Theorem direct_upload_conflict_handling_differs :
  let c1 := sample_chunked 0 "s1" sample_bytes_a initial_state in
  let c2 := sample_chunked 1 "s2" sample_bytes_b c1.2 in
  let u1 := sample_direct sample_bytes_a initial_state in
  let u2 := sample_direct sample_bytes_b u1.2 in
  let m := sample_direct sample_bytes_c c1.2 in
  uploaded_names c1.1 = ["doc.txt"] ∧
  uploaded_names c2.1 = ["doc (1).txt"] ∧
  files c2.2 !! ["u1"; "doc.txt"] = Some (File sample_bytes_a) ∧
  files c2.2 !! ["u1"; "doc (1).txt"] = Some (File sample_bytes_b) ∧
  uploaded_names u1.1 = ["doc (1).txt"] ∧
  uploaded_names u2.1 = ["doc (2).txt"] ∧
  files u2.2 !! ["u1"; "doc.txt"] = None ∧
  files u2.2 !! ["u1"; "doc (1).txt"] = Some (File sample_bytes_a) ∧
  files u2.2 !! ["u1"; "doc (2).txt"] = Some (File sample_bytes_b) ∧
  files c1.2 !! ["u1"; "doc.txt"] = Some (File sample_bytes_a) ∧
  uploaded_names m.1 = ["doc (1).txt"] ∧
  files m.2 !! ["u1"; "doc.txt"] = None ∧
  files m.2 !! ["u1"; "doc (1).txt"] = Some (File sample_bytes_c).
Proof. vm_compute. repeat split; reflexivity. Qed.

(** ** Further properties of the chunked upload handlers *)

(** X1: the chunk handler and the combine loop address a chunk by
    [chunk_${index padded to six digits}] inside the scratch directory:
    two indices that are safe integers give the same path only when they
    are equal (negative ones and those of more than six digits included),
    whatever the scratch directory. *)
Theorem chunk_paths_never_collide (temp : path) (i j : Z) :
  safe_integer i = true → safe_integer j = true →
  (path_join temp [chunk_name i] = path_join temp [chunk_name j] ↔ i = j).
Proof.
  intros _ _. split; [|by intros ->].
  rewrite !path_join_child by apply plain_chunk_name.
  intros [_ H]%app_inj_tail. by apply chunk_name_inj.
Qed.

Lemma chunk_paths_never_collide_witness :
  path_join ["temp"; "s1"] [chunk_name (-1)] ≠ path_join ["temp"; "s1"] [chunk_name 1000000].
Proof.
  intros H.
  apply (chunk_paths_never_collide ["temp"; "s1"] (-1) 1000000) in H;
    [discriminate|reflexivity|reflexivity].
Defined.

(** X2: the name-probing loop of finalize and of the direct upload always
    comes back, with a path at which nothing exists: the requested name
    when it is free, otherwise [name (k).ext] for the least [k >= 1] whose
    path is free.  The name is a single name and the directory is made of
    single names. *)
Theorem conflict_loop_picks_least_free_number (d : disk) (dir : path) (name : string) :
  single_name name = true → proper_path dir = true →
  ∃ (fp : path) (nm : string),
    resolve_conflict d dir name (probe_fuel d) 1 (path_join dir [name], name)
    = Some (fp, nm) ∧
    d !! fp = None ∧
    ((fp = dir ++ [name] ∧ nm = name) ∨
     (is_Some (d !! (dir ++ [name])) ∧
      ∃ k, 1 ≤ k ∧ fp = dir ++ [numbered_name name k] ∧
           nm = numbered_name name k ∧
           ∀ j, 1 ≤ j < k → is_Some (d !! (dir ++ [numbered_name name j])))).
Proof.
  intros Hname%single_name_plain Hdir%proper_path_normal.
  assert (∀ c, plain c = true → path_join dir [c] = dir ++ [c]) as Hjoin
    by (intros c Hc; by apply path_join_normal).
  destruct (resolve_conflict_total d dir name 1 (path_join dir [name], name))
    as [[fp nm] Hr].
  exists fp, nm. split; [done|].
  apply resolve_conflict_Some in Hr as [Hfree Hr]. split; [done|].
  rewrite Hjoin in * by done.
  destruct Hr as [[= -> ->]|[Hcur (k & Hk & [= -> ->] & Hbelow)]]; [by left|].
  right. split; [done|]. exists k. unfold candidate in *.
  rewrite Hjoin by apply plain_numbered_name. split_and!; try done.
  intros j Hj. rewrite <- Hjoin by apply plain_numbered_name. by apply Hbelow.
Qed.

Lemma conflict_loop_picks_least_free_number_witness :
  ∃ fp nm,
    resolve_conflict (<[ ["u1"; "doc.txt"] := File [] ]> ∅) ["u1"] "doc.txt"
      (probe_fuel (<[ ["u1"; "doc.txt"] := File [] ]> ∅)) 1
      (path_join ["u1"] ["doc.txt"], "doc.txt") = Some (fp, nm).
Proof.
  destruct (conflict_loop_picks_least_free_number
              (<[ ["u1"; "doc.txt"] := File [] ]> ∅) ["u1"] "doc.txt")
    as (fp & nm & H & _); [reflexivity|reflexivity|].
  by exists fp, nm.
Defined.

Lemma write_file_lookup (d d' : disk) (p : path) (data : bytes) :
  write_file d p data = Some d' → d' !! p = Some (File data).
Proof.
  unfold write_file. destruct (open_write d p) as [d1|] eqn:Ho; [|done].
  intros [= <-]. apply open_write_Some in Ho as ->.
  rewrite (append_file_File _ _ []) by apply lookup_insert_eq.
  apply lookup_insert_eq.
Qed.

Lemma chunks_temp_path (stamp : string) :
  path_join chunks_dir [temp_name stamp] = ["temp"; "chunks"; temp_name stamp].
Proof. apply (path_join_normal ["temp"; "chunks"]); [done|apply plain_temp_name]. Qed.

(** X3: a chunk request that carries a payload and is turned down by the
    handler (missing field, unknown session, foreign session, failed
    move) leaves the registry as it was and leaves the payload behind in
    [temp/chunks], under the temporary name that multer gave it.  The
    fields of the request are within the limits of the route. *)
Theorem rejected_chunk_leaves_temp_file
    (now : Z) (sid : option string) (index : option Z) (stamp : string)
    (data : bytes) (user : string) (st : state) :
  (∀ s, sid = Some s → s ≠ "" → single_name s = true) →
  (∀ i, index = Some i → safe_integer i = true) →
  http_status (chunk_route now sid index stamp (Some data) user st).1 ≠ 200 →
  (chunk_route now sid index stamp (Some data) user st).1 ≠ MiddlewareError →
  chunkSessions (chunk_route now sid index stamp (Some data) user st).2
  = chunkSessions st ∧
  files (chunk_route now sid index stamp (Some data) user st).2
    !! ["temp"; "chunks"; temp_name stamp] = Some (File data).
Proof.
  intros _ _. unfold chunk_route, chunkUpload_single.
  destruct (ensureDir (files st) chunks_dir) as [d1|]; [|done].
  destruct (write_file d1 _ data) as [d2|] eqn:Hw; [|done].
  destruct (_ <? _)%Z; [done|].
  apply write_file_lookup in Hw. rewrite chunks_temp_path in Hw |- *.
  unfold upload_chunk. cbn [chunk_sessionId chunk_chunkIndex chunk_file chunk_userId].
  destruct sid as [sid|]; [|done]. destruct index as [i|]; [|done].
  destruct (String.eqb sid ""); [done|]. cbn [set_files chunkSessions files].
  destruct (chunkSessions st !! sid) as [s|]; [|done].
  destruct (negb _); [done|].
  destruct (rename d2 _ _); [|done].
  intros H. by cbn in H.
Qed.

Lemma rejected_chunk_leaves_temp_file_witness :
  files (chunk_route 0 (Some "nobody") (Some 0%Z) "a" (Some sample_bytes_a) "u1"
           initial_state).2
    !! ["temp"; "chunks"; "temp_a"] = Some (File sample_bytes_a).
Proof.
  refine (proj2 (rejected_chunk_leaves_temp_file 0 (Some "nobody") (Some 0%Z) "a"
                   sample_bytes_a "u1" initial_state _ _ _ _)).
  - by intros s [= <-] _.
  - by intros i [= <-].
  - vm_compute. lia.
  - vm_compute. discriminate.
Defined.

Lemma write_file_lookup_other (d d' : disk) (p q : path) (data : bytes) :
  write_file d p data = Some d' → q ≠ p → d' !! q = d !! q.
Proof.
  unfold write_file. destruct (open_write d p) as [d1|] eqn:Ho; [|done].
  intros [= <-] Hne. apply open_write_Some in Ho as ->.
  rewrite append_file_lookup_other by done. by rewrite lookup_insert_ne.
Qed.

Lemma mkdir_from_lookup_deeper (rest : path) : ∀ (base : path) (d d' : disk) (p : path),
  mkdir_from base rest d = Some d' → length (base ++ rest) < length p →
  d' !! p = d !! p.
Proof.
  induction rest as [|c rest IH]; intros base d d' p; simpl.
  - by intros [= <-].
  - intros H Hlen. rewrite length_app in Hlen. simpl in Hlen.
    destruct (d !! (base ++ [c])) as [[|x]|] eqn:E; [|done|].
    + eapply IH; [done|]. rewrite !length_app. simpl. lia.
    + erewrite IH; [|done|rewrite !length_app; simpl; lia].
      apply lookup_insert_ne. intros <-. rewrite length_app in Hlen. simpl in Hlen. lia.
Qed.

Lemma doubled_length (k : nat) : ∀ l : bytes,
  Z.of_nat (length (doubled k l)) = (2 ^ Z.of_nat k * Z.of_nat (length l))%Z.
Proof.
  induction k as [|k IH]; intros l.
  - simpl doubled. lia.
  - simpl doubled. rewrite IH, length_app, Nat2Z.inj_succ, Z.pow_succ_r by lia. lia.
Qed.

(** X4: a chunk above the limit of 10 MB, sent under a temporary name that
    is not taken, does not reach the handler: the request ends in the
    middleware with status 500, the registry is as it was, the file that
    multer began is removed and every other entry of the disk is kept. *)
Theorem oversized_chunk_is_refused
    (now : Z) (sid : option string) (index : option Z) (stamp : string)
    (data : bytes) (user : string) (st : state) :
  (MAX_CHUNK_BYTES < Z.of_nat (length data))%Z →
  files st !! ["temp"; "chunks"; temp_name stamp] = None →
  let out := chunk_route now sid index stamp (Some data) user st in
  out.1 = MiddlewareError ∧ http_status out.1 = 500 ∧
  chunkSessions out.2 = chunkSessions st ∧
  files out.2 !! ["temp"; "chunks"; temp_name stamp] = None ∧
  (∀ (p : path) (n : node), files st !! p = Some n → files out.2 !! p = Some n).
Proof.
  intros Hbig%Z.ltb_lt Hfree out. unfold out, chunk_route, chunkUpload_single.
  rewrite Hbig, chunks_temp_path.
  destruct (ensureDir (files st) chunks_dir) as [d1|] eqn:E1;
    [|by destruct st].
  destruct (write_file d1 _ data) as [d2|] eqn:Hw;
    cbn [fst snd set_files chunkSessions files].
  - split_and!; try done; [apply lookup_delete_eq|].
    intros p n Hp.
    assert (p ≠ ["temp"; "chunks"; temp_name stamp]) as Hne by congruence.
    rewrite lookup_delete_ne by done.
    rewrite (write_file_lookup_other _ _ _ _ _ Hw) by done.
    by eapply mkdir_from_keeps.
  - split_and!; try done; [|intros p n Hp; by eapply mkdir_from_keeps].
    rewrite (mkdir_from_lookup_deeper _ _ _ _ _ E1); [done|].
    cbn. lia.
Qed.

Lemma oversized_chunk_is_refused_witness :
  (chunk_route 0 (Some "s1") (Some 0%Z) "a" (Some (doubled 24 sample_bytes_a)) "u1"
     initial_state).1 = MiddlewareError.
Proof.
  refine (proj1 (oversized_chunk_is_refused 0 (Some "s1") (Some 0%Z) "a"
                   (doubled 24 sample_bytes_a) "u1" initial_state _ _)).
  - rewrite doubled_length. reflexivity.
  - reflexivity.
Defined.

(** X5: a chunk that is sent again under the same index is answered like
    the first attempt, adds nothing to the set of received indices, and
    its payload replaces the one stored before.  The session id is a
    single name, the index a safe integer and both payloads are within
    the limit of the route. *)
Theorem chunk_retry_replaces_payload
    (now1 now2 i : Z) (sid stamp1 stamp2 : string) (a b : bytes)
    (s : session) (st : state) :
  single_name sid = true → safe_integer i = true →
  (Z.of_nat (length a) ≤ MAX_CHUNK_BYTES)%Z → (Z.of_nat (length b) ≤ MAX_CHUNK_BYTES)%Z →
  chunkSessions st !! sid = Some s → tempDir s = ["temp"; sid] →
  files st !! ["temp"] = Some Dir → files st !! ["temp"; sid] = Some Dir →
  (∀ x, files st !! ["temp"; "chunks"] ≠ Some (File x)) →
  (∀ c, files st !! ["temp"; "chunks"; c] ≠ Some Dir) →
  files st !! ["temp"; sid; chunk_name i] ≠ Some Dir →
  let first := chunk_route now1 (Some sid) (Some i) stamp1 (Some a) (userId s) st in
  let second := chunk_route now2 (Some sid) (Some i) stamp2 (Some b) (userId s) first.2 in
  first.1 = ChunkOk i (size ({[ i ]} ∪ receivedChunks s)) (totalChunks s) ∧
  second.1 = first.1 ∧
  (receivedChunks <$> chunkSessions second.2 !! sid) = Some ({[ i ]} ∪ receivedChunks s) ∧
  files first.2 !! ["temp"; sid; chunk_name i] = Some (File a) ∧
  files second.2 !! ["temp"; sid; chunk_name i] = Some (File b).
Proof.
  intros Hsid%single_name_plain _ Ha Hb Hs Htemp Ht Hts Hchunks Hnodir Hfree first second.
  assert (first = (ChunkOk i (size ({[ i ]} ∪ receivedChunks s)) (totalChunks s),
     {| chunkSessions := <[sid := with_chunk s i now1]> (chunkSessions st);
        uploadProgress := uploadProgress st;
        files := chunk_stored (files st) sid stamp1 i a |})) as Hfirst.
  { apply chunk_route_stores; auto. }
  assert (second = (ChunkOk i (size ({[ i ]} ∪ receivedChunks (with_chunk s i now1)))
                      (totalChunks (with_chunk s i now1)),
     {| chunkSessions := <[sid := with_chunk (with_chunk s i now1) i now2]>
                           (chunkSessions first.2);
        uploadProgress := uploadProgress first.2;
        files := chunk_stored (files first.2) sid stamp2 i b |})) as Hsecond.
  { unfold second. rewrite Hfirst. cbn [fst snd].
    apply (chunk_route_stores now2 i sid stamp2 (userId s) b (with_chunk s i now1));
      cbn [chunkSessions files with_chunk userId tempDir]; auto.
    - apply lookup_insert_eq.
    - rewrite chunk_stored_lookup. repeat case_decide; simplify_eq; done.
    - rewrite chunk_stored_lookup. repeat case_decide; simplify_eq; done.
    - intros x. rewrite chunk_stored_lookup.
      repeat case_decide; simplify_eq; first [done|apply Hchunks].
    - rewrite chunk_stored_lookup.
      repeat case_decide; simplify_eq; first [done|apply Hnodir].
    - rewrite chunk_stored_lookup. repeat case_decide; simplify_eq; done. }
  assert (({[ i ]} ∪ ({[ i ]} ∪ receivedChunks s) : gset Z) = {[ i ]} ∪ receivedChunks s)
    as Hidem.
  { apply set_eq. intros x. rewrite !elem_of_union. tauto. }
  rewrite Hsecond, Hfirst. cbn [fst snd chunkSessions files with_chunk
    receivedChunks totalChunks].
  rewrite Hidem, lookup_insert_eq. cbn. rewrite Hidem.
  repeat split.
  - rewrite chunk_stored_lookup. by rewrite decide_True.
  - rewrite chunk_stored_lookup. by rewrite decide_True.
Qed.

Lemma chunk_retry_replaces_payload_witness :
  let st := then_init 0 (sample_init "s1" "u1" 2) initial_state in
  let first := chunk_route 1 (Some "s1") (Some 0%Z) "a" (Some sample_bytes_a) "u1" st in
  let second := chunk_route 2 (Some "s1") (Some 0%Z) "b" (Some sample_bytes_b) "u1" first.2 in
  second.1 = first.1 ∧
  files second.2 !! ["temp"; "s1"; chunk_name 0] = Some (File sample_bytes_b).
Proof.
  intros st first second.
  assert (∃ s, chunkSessions st !! "s1" = Some s ∧ userId s = "u1" ∧
               tempDir s = ["temp"; "s1"]) as (s & Hs & Hu & Ht).
  { eexists. split; [vm_compute; reflexivity|]. split; reflexivity. }
  pose proof (chunk_retry_replaces_payload 1 2 0 "s1" "a" "b" sample_bytes_a
                sample_bytes_b s st eq_refl eq_refl) as H.
  specialize (H ltac:(vm_compute; discriminate) ltac:(vm_compute; discriminate) Hs Ht).
  rewrite Hu in H.
  destruct H as (_ & H2 & _ & _ & H5).
  - vm_compute; reflexivity.
  - vm_compute; reflexivity.
  - intros x. vm_compute. discriminate.
  - intros c Hc.
    assert (files st !! ["temp"; "chunks"] = Some Dir) as Hdir.
    { apply (reachable_closed st (reach_init _ _ _ reach_start) _ ["temp"; "chunks"; c]);
        [by rewrite Hc|by exists [c]|done|done]. }
    vm_compute in Hdir. discriminate.
  - vm_compute. discriminate.
  - split; [exact H2|exact H5].
Defined.

Lemma rm_rf_root (d : disk) : rm_rf d [] = ∅.
Proof.
  apply map_eq. intros q. rewrite lookup_empty.
  apply rm_rf_lookup_prefix, prefix_nil.
Qed.

(** X6: the session id is joined to [temp] unchecked.  For the id [".."]
    the scratch directory of the session is the directory of the server
    itself, and cancelling that session removes every entry below it: the
    files of all users and of all other sessions. *)
Theorem cancel_of_dotdot_session_empties_disk (now : Z) (r : init_request) (st : state) :
  (init_upload now r st).1 = InitOk ".." →
  (tempDir <$> chunkSessions (init_upload now r st).2 !! "..") = Some [] ∧
  (cancel_upload ".." (init_userId r) (init_upload now r st).2).1 = CancelOk ∧
  files (cancel_upload ".." (init_userId r) (init_upload now r st).2).2 = ∅.
Proof.
  unfold init_upload.
  destruct (init_fileName r) as [fname|]; [|done].
  destruct (init_fileSize r) as [fsize|]; [|done].
  destruct (init_totalChunks r) as [total|]; [|done].
  destruct (init_sessionId r) as [sid|]; [|done].
  destruct (_ || _); [done|].
  destruct (negb _); [done|].
  destruct (ensureDir (files st) _) as [d1|]; [|done].
  destruct (ensureDir d1 _) as [d2|] eqn:Hd2; [|done].
  intros [= ->]. cbn [fst snd chunkSessions].
  unfold cancel_upload. cbn [chunkSessions]. rewrite lookup_insert_eq.
  cbn [userId tempDir fmap option_fmap option_map].
  change (path_join temp_root [".."]) with ([] : path).
  rewrite String.eqb_refl. cbn [negb fst snd files].
  repeat split. rewrite rm_rf_root. reflexivity.
Qed.

Lemma cancel_of_dotdot_session_empties_disk_witness :
  let st := then_chunk 1 "s1" 0 "a" sample_bytes_a "u1"
              (then_init 0 (sample_init "s1" "u1" 1) initial_state) in
  files st !! ["temp"; "s1"; "chunk_000000"] = Some (File sample_bytes_a) ∧
  files (cancel_upload ".." "u2" (init_upload 2 (sample_init ".." "u2" 1) st).2).2 = ∅.
Proof.
  intros st. split; [vm_compute; reflexivity|].
  refine (proj2 (proj2 (cancel_of_dotdot_session_empties_disk 2
                          (sample_init ".." "u2" 1) st _))).
  vm_compute; reflexivity.
Defined.

Lemma sweep_fold_sessions_sub (now : Z) (l : list (string * session)) :
  ∀ (st : state) (sid : string) (s : session),
  chunkSessions (foldl (sweep_step now) st l) !! sid = Some s →
  chunkSessions st !! sid = Some s.
Proof.
  induction l as [|kv l IH]; intros st sid s; [done|].
  cbn [foldl]. intros H%IH. revert H. unfold sweep_step.
  destruct (stale now kv.2); [|done]. cbn [chunkSessions].
  intros [_ H]%lookup_delete_Some. done.
Qed.

Lemma init_upload_sessions (now : Z) (r : init_request) (st : state)
    (sid : string) (s : session) :
  chunkSessions (init_upload now r st).2 !! sid = Some s →
  chunkSessions st !! sid = Some s ∨ well_formed_session sid s.
Proof.
  unfold init_upload.
  destruct (init_fileName r) as [fname|]; [|by left].
  destruct (init_fileSize r) as [fsize|]; [|by left].
  destruct (init_totalChunks r) as [total|]; [|by left].
  destruct (init_sessionId r) as [sid'|]; [|by left].
  destruct (_ || _) eqn:Hmiss; [by left|].
  apply orb_false_iff in Hmiss as [[[H1 H2]%orb_false_iff H3]%orb_false_iff H4].
  destruct (negb _) eqn:Hin; [by left|]. apply negb_false_iff in Hin.
  destruct (ensureDir (files st) _) as [d1|]; [|by left].
  destruct (ensureDir d1 _) as [d2|]; [|by left].
  cbn [snd chunkSessions].
  destruct (decide (sid = sid')) as [->|Hne].
  - rewrite lookup_insert_eq. intros [= <-]. right.
    unfold well_formed_session. cbn.
    apply String.eqb_neq in H1, H4. apply Z.eqb_neq in H2, H3.
    repeat split; done.
  - rewrite lookup_insert_ne by done. by left.
Qed.

Lemma with_chunk_well_formed (sid : string) (s : session) (i now : Z) :
  well_formed_session sid s → well_formed_session sid (with_chunk s i now).
Proof. done. Qed.

Lemma chunk_route_sessions (now : Z) (sid0 : option string) (index : option Z)
    (stamp : string) (payload : option bytes) (user : string) (st : state)
    (sid : string) (s : session) :
  chunkSessions (chunk_route now sid0 index stamp payload user st).2 !! sid = Some s →
  chunkSessions st !! sid = Some s ∨
  ∃ s0 i, chunkSessions st !! sid = Some s0 ∧ s = with_chunk s0 i now.
Proof.
  unfold chunk_route.
  destruct (chunkUpload_single _ _ _) as [d [file|]]; [|by left].
  unfold upload_chunk. cbn [chunk_sessionId chunk_chunkIndex chunk_file chunk_userId].
  destruct sid0 as [sid'|]; [|by left]. destruct index as [i|]; [|by left].
  destruct file as [cp|]; [|by left].
  destruct (String.eqb sid' ""); [by left|]. cbn [set_files chunkSessions files].
  destruct (chunkSessions st !! sid') as [s0|] eqn:Hs0; [|by left].
  destruct (negb _); [by left|].
  destruct (rename d _ _); [|by left]. cbn [snd chunkSessions].
  destruct (decide (sid = sid')) as [->|Hne].
  - rewrite lookup_insert_eq. intros [= <-]. right. by exists s0, i.
  - rewrite lookup_insert_ne by done. by left.
Qed.

Lemma finalize_upload_sessions (faults : nat → bool) (r : finalize_request) (st : state)
    (sid : string) (s : session) :
  chunkSessions (finalize_upload faults r st).2 !! sid = Some s →
  chunkSessions st !! sid = Some s.
Proof.
  unfold finalize_upload, finalize_failed.
  unfold process_exit.
  repeat (first [ case_match | done ]); simplify_eq; cbn [snd chunkSessions];
    try done; try (by rewrite lookup_empty); by intros [_ ?]%lookup_delete_Some.
Qed.

Lemma upload_route_sessions (user : string) (requestedPath : option path)
    (uploadSessionId : option string) (fs : list upload_file) (st : state) :
  chunkSessions (upload_route user requestedPath uploadSessionId fs st).2
  = chunkSessions st.
Proof.
  unfold upload_route.
  destruct (upload_array _ _ _) as [[d stored]|]; [|done].
  unfold upload_files. destruct stored; [done|].
  destruct (process_files _ _ _) as [[d' [|]]|]; done.
Qed.

(** X7: what the requests leave in the registry.  In every state that the
    server can reach, a session is registered under its own id, its name,
    size and chunk count are not the values that count as missing, its
    scratch directory is [temp] joined with its id, and its target
    directory passed the check against the directory of its owner. *)
Theorem registered_sessions_are_well_formed (st : state) (sid : string) (s : session) :
  reachable st → chunkSessions st !! sid = Some s → well_formed_session sid s.
Proof.
  intros Hreach. revert sid s.
  induction Hreach as [|now r st _ IH|now sid0 index stamp payload user st _ IH
                       |faults r st _ IH|sid0 user st _ IH|now st _ IH
                       |user rp us fs st _ IH]; intros sid s.
  - done.
  - intros [H|H]%init_upload_sessions; [by apply IH|done].
  - intros [H|(s0 & i & H & ->)]%chunk_route_sessions; [by apply IH|].
    apply with_chunk_well_formed. by apply IH.
  - intros H%finalize_upload_sessions. by apply IH.
  - unfold cancel_upload. destruct (chunkSessions st !! sid0) as [s0|] eqn:Hs0.
    + destruct (negb _); [apply IH|]. cbn [snd chunkSessions].
      intros [_ H]%lookup_delete_Some. by apply IH.
    + apply IH.
  - unfold janitor, set_files. cbn [chunkSessions]. unfold sweep_sessions.
    intros H%sweep_fold_sessions_sub. by apply IH.
  - rewrite upload_route_sessions. apply IH.
Qed.

Lemma registered_sessions_are_well_formed_witness :
  ∃ s, chunkSessions (then_init 0 (sample_init "s1" "u1" 2) initial_state) !! "s1"
       = Some s ∧ well_formed_session "s1" s.
Proof.
  eexists. split; [vm_compute; reflexivity|].
  apply (registered_sessions_are_well_formed
           (then_init 0 (sample_init "s1" "u1" 2) initial_state)).
  - apply reach_init, reach_start.
  - vm_compute; reflexivity.
Defined.

(** ** The access check of the routes *)

Lemma prefix_String (a : ascii) (s t : string) :
  String.prefix (String a s) (String a t) = String.prefix s t.
Proof. cbn. destruct (ascii_dec a a); [done|congruence]. Qed.

Lemma append_String (a : ascii) (s t : string) : String a s +:+ t = String a (s +:+ t).
Proof. reflexivity. Qed.

Lemma append_empty_l (t : string) : "" +:+ t = t.
Proof. reflexivity. Qed.

Lemma append_empty_r (s : string) : s +:+ "" = s.
Proof. induction s as [|a s IH]; [done|]. by rewrite append_String, IH. Qed.

Lemma append_assoc (s t u : string) : (s +:+ t) +:+ u = s +:+ (t +:+ u).
Proof. induction s as [|a s IH]; [done|]. by rewrite !append_String, IH. Qed.

Lemma prefix_refl_app (s t : string) : String.prefix s (s +:+ t) = true.
Proof.
  induction s as [|a s IH]; [by destruct t|].
  by rewrite append_String, prefix_String.
Qed.

Lemma render_starts (p : path) : p = [] ∨ ∃ r, render p = String "/" r.
Proof. destruct p as [|c p]; [by left|right]. cbn. eauto. Qed.

(** A prefix without separator ends inside the first component. *)
Lemma prefix_first_component (u : string) : separator_free u = true →
  ∀ (c : string) (p : path),
  String.prefix u (c +:+ render p) = String.prefix u c.
Proof.
  unfold separator_free. induction u as [|a u IH]; intros Hu c p.
  { by destruct c, (render p). }
  cbn in Hu. apply negb_true_iff, orb_false_iff in Hu as [Ha Hu].
  destruct c as [|b c].
  - rewrite append_empty_l. destruct (render_starts p) as [->|[r ->]]; [done|].
    cbn. destruct (ascii_dec a "/") as [->|]; [|done].
    by rewrite Ascii.eqb_refl in Ha.
  - rewrite append_String. cbn. destruct (ascii_dec a b); [|done].
    apply IH. by rewrite Hu.
Qed.

(** The check on a target below the root looks at the first component
    only; the root itself is never inside. *)
Lemma inside_first_component (u c : string) (t' : path) :
  separator_free u = true →
  inside_user_dir (getUserDirectory u) (c :: t') = String.prefix u c.
Proof.
  intros Hu. unfold inside_user_dir, getUserDirectory. cbn [render].
  rewrite !append_String, !append_empty_l, prefix_String.
  rewrite append_empty_r. by apply prefix_first_component.
Qed.

Lemma inside_not_the_root (u : string) :
  inside_user_dir (getUserDirectory u) [] = false.
Proof.
  unfold inside_user_dir, getUserDirectory. cbn [render].
  by rewrite append_String, append_empty_l.
Qed.

(** X8: the access check of the routes ([startsWith] on the joined path)
    compares text.  For a user id that is a single name and a target made
    of single names it holds exactly when the first component of the
    target begins with the user id: the directory of the user, and every
    sibling directory whose name extends the id. *)
Theorem access_check_compares_text (u : string) (t : path) :
  single_name u = true → proper_path t = true →
  (inside_user_dir (getUserDirectory u) t = true ↔
   ∃ (c : string) (t' : path), t = c :: t' ∧ String.prefix u c = true).
Proof.
  intros Hu _.
  assert (separator_free u = true) as Hsep.
  { unfold single_name in Hu. rewrite !andb_true_iff in Hu. tauto. }
  clear Hu. rename Hsep into Hu. destruct t as [|c t'].
  - rewrite inside_not_the_root. split; [done|by intros (? & ? & ? & _)].
  - rewrite inside_first_component by done.
    split; [intros H; by exists c, t'|]. by intros (? & ? & [= <- <-] & H).
Qed.

Lemma access_check_compares_text_witness :
  inside_user_dir (getUserDirectory "u1") ["u10"; "notes.txt"] = true.
Proof.
  apply (access_check_compares_text "u1" ["u10"; "notes.txt"]); [reflexivity..|].
  exists "u10", ["notes.txt"]. split; reflexivity.
Defined.

Lemma normalize_aux_kept (rel : path) : ".." ∉ rel → ∀ acc : path,
  normalize_aux acc rel = rev acc ++ kept rel.
Proof.
  unfold kept. induction rel as [|c rel IH]; intros Hno acc.
  { cbn. by rewrite app_nil_r. }
  apply not_elem_of_cons in Hno as [Hc Hno]. cbn [normalize_aux].
  destruct (skip_component c) eqn:Hskip.
  - rewrite filter_cons_False by (by rewrite Hskip). by apply IH.
  - rewrite filter_cons_True by done.
    destruct (String.eqb c "..") eqn:Heq.
    { apply String.eqb_eq in Heq. congruence. }
    rewrite IH by done. cbn [rev]. by rewrite <- app_assoc.
Qed.

(** X9: a requested path without a [".."] component, whose components
    other than the empty one and ["."] are single names, stays in the
    directory of the user (a single name): the joined path is the
    directory followed by the components of the request that are neither
    empty nor ["."], and it passes the access check. *)
Theorem join_without_dotdot_stays_inside (u : string) (rel : path) :
  single_name u = true → proper_path (kept rel) = true → ".." ∉ rel →
  path_join (getUserDirectory u) rel = getUserDirectory u ++ kept rel ∧
  inside_user_dir (getUserDirectory u) (path_join (getUserDirectory u) rel) = true.
Proof.
  intros Hu%single_name_plain _ Hrel. unfold path_join, getUserDirectory.
  assert (normalize_aux [] ([u] ++ rel) = [u] ++ kept rel) as ->.
  { cbn [app normalize_aux]. unfold plain in Hu.
    apply andb_true_iff in Hu as [H1%negb_true_iff H2%negb_true_iff].
    rewrite H1, H2. by rewrite normalize_aux_kept. }
  split; [done|]. unfold inside_user_dir. cbn [app render].
  rewrite !append_String, !append_empty_l, prefix_String.
  rewrite append_empty_r. apply prefix_refl_app.
Qed.

Lemma join_without_dotdot_stays_inside_witness :
  path_join (getUserDirectory "u1") [""; "docs"; "."; "2024"] = ["u1"; "docs"; "2024"].
Proof.
  refine (proj1 (join_without_dotdot_stays_inside "u1" [""; "docs"; "."; "2024"] _ _ _)).
  - reflexivity.
  - reflexivity.
  - intros H. repeat (apply elem_of_cons in H as [H|H]; [discriminate|]).
    by apply elem_of_nil in H.
Defined.

(** ** Text paths *)

Lemma split_on_free (s : string) : separator_free s = true → split_on "/" s = [s].
Proof.
  unfold separator_free. induction s as [|c s IH]; [done|].
  cbn. intros [Hc Hs]%negb_true_iff%orb_false_iff.
  rewrite Hc, IH by (by rewrite Hs). done.
Qed.

Lemma split_on_app (a b : string) :
  separator_free a = true →
  split_on "/" (a +:+ String "/" b) = a :: split_on "/" b.
Proof.
  unfold separator_free. induction a as [|c a IH].
  { intros _. rewrite append_empty_l. cbn. done. }
  cbn [has_char]. intros [Hc Ha]%negb_true_iff%orb_false_iff.
  rewrite append_String. cbn [split_on]. rewrite Hc, IH by (by rewrite Ha). done.
Qed.

Lemma split_on_pieces (s : string) : separator_free_path (split_on "/" s).
Proof.
  unfold separator_free_path, separator_free.
  induction s as [|c s IH]; [by repeat constructor|].
  cbn [split_on]. destruct (Ascii.eqb c "/") eqn:Hc.
  - constructor; [done|exact IH].
  - destruct (split_on "/" s) as [|piece pieces]; [by repeat constructor; cbn; rewrite Hc|].
    apply Forall_cons in IH as [Hp Hps].
    constructor; [|done]. cbn. by rewrite Hc.
Qed.

Lemma render_cons (c : string) (p : path) : render (c :: p) = String "/" (c +:+ render p).
Proof. cbn [render]. by rewrite append_String, append_empty_l. Qed.

(** Cutting the textual form of a path gives its components back. *)
Lemma split_on_join_slash (p : path) :
  p ≠ [] → separator_free_path p → split_on "/" (join_slash p) = p.
Proof.
  destruct p as [|c p]; [done|]. intros _ Hp. cbn [join_slash].
  revert c Hp. induction p as [|c' p IH]; intros c [Hc Hp]%Forall_cons.
  - cbn [render]. rewrite append_empty_r. by apply split_on_free.
  - rewrite render_cons, split_on_app by done. f_equal. by apply IH.
Qed.

Lemma normalize_aux_free (cs : path) : ∀ acc : path,
  separator_free_path acc → separator_free_path cs →
  separator_free_path (normalize_aux acc cs).
Proof.
  unfold separator_free_path.
  induction cs as [|c cs IH]; intros acc Hacc Hcs; cbn [normalize_aux].
  { by apply Forall_rev. }
  apply Forall_cons in Hcs as [Hc Hcs].
  destruct (skip_component c); [by apply IH|].
  destruct (String.eqb c "..").
  - apply IH; [|done]. destruct acc; [done|]. by apply Forall_cons in Hacc as [_ ?].
  - apply IH; [|done]. by constructor.
Qed.

Lemma join_text_free (base : path) (text : string) :
  separator_free_path base → separator_free_path (join_text base text).
Proof.
  intros Hb. apply normalize_aux_free; [constructor|].
  apply Forall_app. split; [done|apply split_on_pieces].
Qed.

Lemma join_text_normal (base : path) (text : string) : normal (join_text base text) = true.
Proof. apply path_join_is_normal. Qed.

Lemma strip_slashes_keep (s : string) :
  (∀ r, s ≠ String "/" r) → strip_slashes s = s.
Proof. destruct s as [|c s]; [done|]. intros H. cbn. destruct (Ascii.eqb_spec c "/"); [subst; by destruct (H s)|done]. Qed.

Lemma plain_first_char (c : string) :
  plain c = true → separator_free c = true → ∀ rest r, c +:+ rest ≠ String "/" r.
Proof.
  destruct c as [|a c]; [done|]. intros _ Hf rest r. rewrite append_String.
  intros [= -> _]. done.
Qed.

(** The path that the server reports for an entry leads back to it: the
    relative path from the directory of the user, written out, stripped of
    its leading separator and joined to that directory again. *)
Lemma reported_path_leads_back (u : string) (t : path) :
  plain u = true → separator_free u = true →
  normal t = true → separator_free_path t →
  inside_user_dir (getUserDirectory u) t = true →
  join_text (getUserDirectory u)
    (strip_slashes ("/" +:+ join_slash (path_relative (getUserDirectory u) t))) = t.
Proof.
  intros Hu Hfree Hn Ht Hin.
  destruct t as [|c t']; [by rewrite inside_not_the_root in Hin|].
  rewrite inside_first_component in Hin by done. rename Hin into Hpre.
  unfold getUserDirectory, join_text, path_join.
  rewrite append_String, append_empty_l. cbn [strip_slashes]. rewrite Ascii.eqb_refl.
  cbn [normal forallb] in Hn. apply andb_true_iff in Hn as [Hc Hn].
  apply Forall_cons in Ht as [Hcf Ht].
  assert (skip_component u = false ∧ String.eqb u ".." = false) as [H1 H2].
  { unfold plain in Hu. by apply andb_true_iff in Hu as [?%negb_true_iff ?%negb_true_iff]. }
  cbn [path_relative]. destruct (String.eqb_spec u c) as [<-|Hne].
  - cbn [path_relative length replicate app].
    destruct t' as [|c' t'].
    + cbn [join_slash strip_slashes split_on]. cbn [app normalize_aux].
      by rewrite H1, H2.
    + apply Forall_cons in Ht as [Hc'f Ht']. pose proof Hn as Hn'.
      cbn [forallb] in Hn'. apply andb_true_iff in Hn' as [Hc' _].
      rewrite strip_slashes_keep
        by (cbn [join_slash]; intros r; by apply plain_first_char).
      rewrite split_on_join_slash by (done || by constructor).
      apply (normalize_aux_normal (u :: c' :: t')).
      cbn [normal forallb] in *. by rewrite Hu, Hn.
  - cbn [length replicate app].
    rewrite strip_slashes_keep
      by (cbn [join_slash]; intros r; rewrite append_String; discriminate).
    rewrite split_on_join_slash by (done || by repeat constructor).
    cbn [app normalize_aux]. rewrite H1, H2.
    cbn [skip_component String.eqb Ascii.eqb Bool.eqb orb andb tail].
    apply (normalize_aux_normal (c :: t')).
    cbn [normal forallb]. by rewrite Hc, Hn.
Qed.

(** ** [POST /files], [GET /files] and [POST /raw-file] *)

Lemma stat_from_Stat (d : disk) (rest : path) : ∀ (base : path) (n : node),
  rest ≠ [] → stat_from d base rest = Stat n → d !! (base ++ rest) = Some n.
Proof.
  induction rest as [|c rest IH]; intros base n Hne; [done|].
  cbn [stat_from]. destruct (d !! (base ++ [c])) as [m|] eqn:Hm; [|done].
  destruct rest as [|c' rest].
  - by intros [= <-].
  - destruct m; [|done]. intros H%IH; [|done].
    by rewrite <- app_assoc in H.
Qed.

Lemma stat_Stat (d : disk) (p : path) (n : node) :
  p ≠ [] → stat d p = Stat n → d !! p = Some n.
Proof. intros Hne H. by apply (stat_from_Stat d p []) in H. Qed.

Lemma create_entry_inv (r : create_request) (st st' : state) (md : metadata) :
  create_entry r st = (Created md, st') →
  ∃ (name type : string) (d1 d2 : disk) (n : node),
    cr_name r = Some name ∧ cr_type r = Some type ∧
    String.eqb name "" || String.eqb type "" = false ∧
    let userDir := getUserDirectory (cr_userId r) in
    let dirPath := join_text userDir (path_or_root (cr_path r)) in
    let fullPath := join_text dirPath name in
    inside_user_dir userDir fullPath = true ∧
    ensureDir (files st) dirPath = Some d1 ∧
    (if String.eqb type "folder" then ensureDir d1 fullPath
     else write_file d1 fullPath (default [] (cr_content r))) = Some d2 ∧
    stat d2 fullPath = Stat n ∧
    st' = set_files st d2 ∧
    md = createFileMetadata (path_relative userDir fullPath) type
           (if String.eqb type "file"
            then match n with File data => length data | Dir => 0 end else 0).
Proof.
  unfold create_entry.
  destruct (cr_name r) as [name|]; [|done]. destruct (cr_type r) as [type|]; [|done].
  destruct (_ || _) eqn:Hmiss; [done|].
  destruct (negb _) eqn:Hin; [done|]. apply negb_false_iff in Hin.
  destruct (ensureDir (files st) _) as [d1|] eqn:Hd1; [|done].
  destruct (if String.eqb type "folder" then _ else _) as [d2|] eqn:Hd2; [|done].
  destruct (stat d2 _) as [n|] eqn:Hn; [|done].
  intros [= <- <-]. by exists name, type, d1, d2, n.
Qed.

Lemma inside_not_root (userDir : path) (t : path) :
  userDir ≠ [] → inside_user_dir userDir t = true → t ≠ [].
Proof.
  intros Hu H ->. unfold inside_user_dir in H. destruct userDir as [|c p]; [done|].
  by rewrite render_cons in H.
Qed.

(** X10: a regular file made through [POST /files] can be read back
    through [POST /raw-file] at the path that the server reported for it:
    the answer carries the bytes that were sent, and the reported size is
    their number.  The user id and the name of the file are single names
    and the directory is given as the client gives it. *)
Theorem created_file_reads_back
    (r : create_request) (st st' : state) (md : metadata) :
  single_name (cr_userId r) = true →
  (∀ name, cr_name r = Some name → single_name name = true) →
  client_path (cr_path r) →
  cr_type r = Some "file" →
  create_entry r st = (Created md, st') →
  files_status (raw_file (cr_userId r) (Some (md_path md)) st') = 200 ∧
  raw_content (raw_file (cr_userId r) (Some (md_path md)) st')
  = Some (default [] (cr_content r)) ∧
  md_size md = length (default [] (cr_content r)).
Proof.
  intros Hsingle _ _ Htype Hcreate.
  assert (plain (cr_userId r) = true ∧ separator_free (cr_userId r) = true) as [Hu Hfree].
  { unfold single_name in Hsingle. rewrite !andb_true_iff in Hsingle. tauto. }
  apply create_entry_inv in Hcreate
    as (name & type & d1 & d2 & n & Hname & Htype' & Hmiss & Hin & Hd1 & Hd2 & Hn
        & -> & ->).
  rewrite Htype in Htype'. injection Htype' as <-.
  cbn [String.eqb Ascii.eqb Bool.eqb] in Hd2. cbn match in Hd2.
  set (fullPath := join_text (join_text (getUserDirectory (cr_userId r))
                                (path_or_root (cr_path r))) name) in *.
  assert (fullPath ≠ []) as Hne
    by (by apply (inside_not_root (getUserDirectory (cr_userId r)))).
  apply write_file_lookup in Hd2. pose proof (stat_Stat _ _ _ Hne Hn) as Hlook.
  rewrite Hd2 in Hlook. injection Hlook as <-.
  assert (separator_free_path fullPath) as Hsep.
  { apply join_text_free, join_text_free. by repeat constructor. }
  unfold raw_file. cbn [createFileMetadata md_path md_size].
  assert ("/" +:+ join_slash (path_relative (getUserDirectory (cr_userId r)) fullPath)
          ≠ "") as Hnonempty by (by rewrite append_String).
  apply String.eqb_neq in Hnonempty. rewrite Hnonempty.
  rewrite reported_path_leads_back; [|done|done|apply join_text_normal|done|done].
  rewrite Hin. cbn [negb set_files files]. rewrite Hn.
  by destruct (bool_decide _).
Qed.

Lemma created_file_reads_back_witness :
  raw_content
    (raw_file "u1" (Some "/notes.txt")
       (create_entry (sample_create "notes.txt" "file" sample_bytes_a) initial_state).2)
  = Some sample_bytes_a.
Proof.
  destruct (create_entry (sample_create "notes.txt" "file" sample_bytes_a) initial_state)
    as [resp st'] eqn:Hc.
  assert (resp = Created (createFileMetadata ["notes.txt"] "file" 2)) as ->.
  { change resp with (resp, st').1. rewrite <- Hc. vm_compute. reflexivity. }
  refine (proj1 (proj2 (created_file_reads_back
                          (sample_create "notes.txt" "file" sample_bytes_a)
                          initial_state st' _ eq_refl _ _ eq_refl Hc))).
  - by intros name [= <-].
  - by left.
Defined.

(** [fs.mkdir] with [recursive] leaves every directory of the way in
    place, and does nothing when they are all there. *)
Lemma mkdir_from_dirs (rest : path) : ∀ (base : path) (d d' : disk) (k : nat),
  mkdir_from base rest d = Some d' → 0 < k ≤ length rest →
  d' !! (base ++ take k rest) = Some Dir.
Proof.
  induction rest as [|c rest IH]; intros base d d' k Hm Hk; [cbn in Hk; lia|].
  cbn [mkdir_from] in Hm. destruct k as [|k]; [lia|]. cbn [take].
  assert (∀ d0, mkdir_from (base ++ [c]) rest d0 = Some d' →
                d0 !! (base ++ [c]) = Some Dir →
                d' !! (base ++ c :: take k rest) = Some Dir) as Hstep.
  { intros d0 H0 Hc. destruct k as [|k].
    - destruct rest; cbn [take]; by eapply mkdir_from_keeps.
    - destruct (decide (S k ≤ length rest)) as [Hle|Hgt].
      + rewrite (cons_middle c), app_assoc. eapply IH; [done|lia].
      + cbn [length] in Hk. lia. }
  destruct (d !! (base ++ [c])) as [[|]|] eqn:Hc; [|done|].
  - by eapply Hstep.
  - eapply Hstep; [done|]. apply lookup_insert_eq.
Qed.

Lemma mkdir_from_present (rest : path) : ∀ (base : path) (d : disk),
  (∀ k, 0 < k ≤ length rest → d !! (base ++ take k rest) = Some Dir) →
  mkdir_from base rest d = Some d.
Proof.
  induction rest as [|c rest IH]; intros base d H; [done|].
  cbn [mkdir_from]. pose proof (H 1 ltac:(cbn; lia)) as H1.
  change (take 1 (c :: rest)) with [c] in H1. rewrite H1.
  apply IH. intros k Hk. rewrite <- app_assoc. apply (H (S k)). cbn. lia.
Qed.

Lemma ensureDir_again (d d' d'' : disk) (p : path) :
  ensureDir d p = Some d' →
  (∀ (q : path) (n : node), d' !! q = Some n → d'' !! q = Some n) →
  ensureDir d'' p = Some d''.
Proof.
  intros H Hsub. apply mkdir_from_present. intros k Hk.
  apply Hsub. by eapply mkdir_from_dirs.
Qed.

(** X11: making a folder through [POST /files] is idempotent: a request
    that was answered 201 is answered 201 again, with the same name, type,
    size and path, and changes nothing on the disk the second time.  The
    user id and the name of the folder are single names and the directory
    is given as the client gives it. *)
Theorem create_folder_is_idempotent
    (r : create_request) (st st' : state) (md : metadata) :
  single_name (cr_userId r) = true →
  (∀ name, cr_name r = Some name → single_name name = true) →
  client_path (cr_path r) →
  cr_type r = Some "folder" →
  create_entry r st = (Created md, st') →
  create_entry r st' = (Created md, st').
Proof.
  intros _ _ _ Htype Hcreate.
  apply create_entry_inv in Hcreate
    as (name & type & d1 & d2 & n & Hname & Htype' & Hmiss & Hin & Hd1 & Hd2 & Hn
        & -> & ->).
  rewrite Htype in Htype'. injection Htype' as <-.
  cbn [String.eqb Ascii.eqb Bool.eqb] in Hd2. cbn match in Hd2.
  unfold create_entry. rewrite Hname, Htype, Hmiss.
  cbn zeta. rewrite Hin. cbn [negb set_files files].
  rewrite (ensureDir_again _ _ d2 _ Hd1)
    by (intros q m Hq; by eapply mkdir_from_keeps).
  cbn [String.eqb Ascii.eqb Bool.eqb]. cbn match.
  rewrite (ensureDir_again _ _ d2 _ Hd2) by done.
  by rewrite Hn.
Qed.

Lemma create_folder_is_idempotent_witness :
  let r := sample_create "photos" "folder" [] in
  create_entry r (create_entry r initial_state).2 = create_entry r initial_state.
Proof.
  intros r. destruct (create_entry r initial_state) as [resp st'] eqn:Hc.
  assert (resp = Created (createFileMetadata ["photos"] "folder" 0)) as ->.
  { change resp with (resp, st').1. rewrite <- Hc. vm_compute. reflexivity. }
  refine (create_folder_is_idempotent r initial_state st' _ eq_refl _ _ eq_refl Hc).
  - by intros name [= <-].
  - by left.
Defined.

Lemma dir_entries_spec (d : disk) (p : path) (c : string) (n : node) :
  (c, n) ∈ dir_entries d p ↔ d !! (p ++ [c]) = Some n.
Proof.
  unfold dir_entries. rewrite list_elem_of_omap. split.
  - intros ([q m] & Hq%elem_of_map_to_list & Hf). cbn [fst snd] in Hf.
    destruct (last q) as [c'|]; [|done].
    destruct (decide (q = p ++ [c'])) as [->|]; [|done].
    by injection Hf as <- <-.
  - intros H. exists (p ++ [c], n). split; [by apply elem_of_map_to_list|].
    cbn [fst snd]. rewrite last_snoc. by rewrite decide_True.
Qed.

Lemma stat_from_closed (d : disk) (rest : path) : ∀ (base : path) (n : node),
  rest ≠ [] → d !! (base ++ rest) = Some n →
  (∀ k, 0 < k < length rest → d !! (base ++ take k rest) = Some Dir) →
  stat_from d base rest = Stat n.
Proof.
  induction rest as [|c rest IH]; intros base n Hne Hn Hdirs; [done|].
  cbn [stat_from]. destruct rest as [|c' rest].
  - by rewrite Hn.
  - pose proof (Hdirs 1 ltac:(cbn; lia)) as H1.
    change (take 1 (c :: c' :: rest)) with [c] in H1. rewrite H1.
    apply IH; [done|by rewrite <- app_assoc|].
    intros k Hk. rewrite <- app_assoc. apply (Hdirs (S k)). cbn in *. lia.
Qed.

Lemma stat_closed (d : disk) (p : path) (n : node) :
  dirs_closed d → p ≠ [] → d !! p = Some n → stat d p = Stat n.
Proof.
  intros Hclosed Hne Hn. apply stat_from_closed; [done..|].
  intros k Hk. cbn [app]. apply (Hclosed _ p); [by rewrite Hn|apply prefix_take| |].
  - intros Heq. apply (f_equal length) in Heq. rewrite length_take in Heq. lia.
  - intros Heq. apply (f_equal length) in Heq. rewrite length_take in Heq.
    cbn in Heq. lia.
Qed.

Lemma li_name_listed (userDir fullPath : path) (entry : string * node) :
  li_name (listed userDir fullPath entry) = entry.1.
Proof. unfold listed. by destruct (entry.2). Qed.

Lemma list_files_inv (user : string) (requestedPath : option string) (st st' : state)
    (items : list listed_item) :
  list_files user requestedPath st = (Listing items, st') →
  let userDir := getUserDirectory user in
  let dir := join_text userDir (path_or_root requestedPath) in
  inside_user_dir userDir dir = true ∧
  ((stat (files st) dir = Stat Dir ∧ st' = st ∧
    items = listed userDir dir
              <$> filter (λ item, hidden item.1 = false) (dir_entries (files st) dir)) ∨
   (stat (files st) dir = Fails ENOENT ∧ items = [] ∧
    ∃ d, ensureDir (files st) dir = Some d ∧ st' = set_files st d)).
Proof.
  unfold list_files, readdir. cbn zeta.
  destruct (negb _) eqn:Hin; [done|]. apply negb_false_iff in Hin.
  destruct (stat (files st) _) as [[|data]|[|]] eqn:Hstat.
  - intros [= <- <-]. split; [done|]. by left.
  - done.
  - destruct (ensureDir _ _) as [d|] eqn:Hd; [|done].
    intros [= <- <-]. split; [done|]. right. repeat split. by exists d.
  - done.
Qed.

(** X12: what [GET /files] answers on a disk where every entry lies in a
    chain of directories, for a user id that is a single name and a
    directory given as the client gives it.  The names listed are exactly
    the names of the entries of the requested directory that do not begin
    with a dot; a folder is listed with size 0, a regular file with the
    number of its bytes; and after the call the directory exists, being
    made when it was missing, while nothing that existed is changed. *)
Theorem listing_shows_visible_entries
    (user : string) (requestedPath : option string) (st st' : state)
    (items : list listed_item) :
  single_name user = true → client_path requestedPath →
  dirs_closed (files st) →
  list_files user requestedPath st = (Listing items, st') →
  let dir := join_text (getUserDirectory user) (path_or_root requestedPath) in
  (∀ name, name ∈ li_name <$> items ↔
           hidden name = false ∧ is_Some (files st !! (dir ++ [name]))) ∧
  (∀ it, it ∈ items →
     match files st !! (dir ++ [li_name it]) with
     | Some Dir => li_kind it = folder_kind ∧ li_size it = 0
     | Some (File data) => li_kind it = file_kind ∧ li_size it = length data
     | None => False
     end) ∧
  files st' !! dir = Some Dir ∧
  (∀ (q : path) (n : node), files st !! q = Some n → files st' !! q = Some n).
Proof.
  intros _ _ Hclosed Hlist dir.
  apply list_files_inv in Hlist as [Hin Hcases]. fold dir in Hin, Hcases.
  assert (dir ≠ []) as Hne by (by apply (inside_not_root (getUserDirectory user))).
  assert (∀ it, it ∈ listed (getUserDirectory user) dir
                       <$> filter (λ item, hidden item.1 = false)
                             (dir_entries (files st) dir) ↔
                ∃ c n, files st !! (dir ++ [c]) = Some n ∧ hidden c = false ∧
                       it = listed (getUserDirectory user) dir (c, n)) as Hitems.
  { intros it. rewrite list_elem_of_fmap. split.
    - intros ([c n] & -> & [Hvis Hentry%dir_entries_spec]%list_elem_of_filter).
      by exists c, n.
    - intros (c & n & Hentry & Hvis & ->). exists (c, n). split; [done|].
      apply list_elem_of_filter. split; [done|]. by apply dir_entries_spec. }
  destruct Hcases as [(Hstat & -> & ->)|(Hstat & -> & d & Hd & ->)].
  - split; [|split; [|split]].
    + intros name. rewrite list_elem_of_fmap. split.
      * intros (it & -> & (c & n & Hc & Hvis & ->)%Hitems).
        rewrite li_name_listed. cbn [fst]. by rewrite Hc.
      * intros [Hvis [n Hn]].
        exists (listed (getUserDirectory user) dir (name, n)).
        split; [by rewrite li_name_listed|]. apply Hitems. by exists name, n.
    + intros it (c & n & Hc & Hvis & ->)%Hitems.
      rewrite li_name_listed. cbn [fst]. rewrite Hc. by destruct n.
    + by apply stat_Stat.
    + done.
  - assert (∀ c, files st !! (dir ++ [c]) = None) as Hnone.
    { intros c. destruct (files st !! (dir ++ [c])) as [n|] eqn:Hc; [|done].
      assert (files st !! dir = Some Dir) as Hdir.
      { apply (Hclosed _ (dir ++ [c])); [by rewrite Hc|by apply prefix_app_r| |done].
        intros Heq. apply (f_equal length) in Heq. rewrite length_app in Heq.
        cbn in Heq. lia. }
      apply stat_closed in Hdir; [|done..]. congruence. }
    split; [|split; [|split]].
    + intros name. split.
      * intros H. by apply elem_of_nil in H.
      * intros [_ [n Hn]]. by rewrite Hnone in Hn.
    + intros it H. by apply elem_of_nil in H.
    + cbn [set_files files]. apply (mkdir_from_made dir [] _ _ Hd Hne).
    + intros q n Hq. cbn [set_files files]. by eapply mkdir_from_keeps.
Qed.

Lemma create_entry_closed (r : create_request) (st : state) :
  dirs_closed (files st) → dirs_closed (files (create_entry r st).2).
Proof.
  intros Hclosed. unfold create_entry.
  destruct (cr_name r) as [name|]; [|done]. destruct (cr_type r) as [type|]; [|done].
  destruct (_ || _); [done|]. cbn zeta.
  destruct (negb _); [done|].
  destruct (ensureDir (files st) _) as [d1|] eqn:Hd1; [|done].
  apply ensureDir_closed in Hd1; [|done].
  destruct (String.eqb type "folder").
  - destruct (ensureDir d1 _) as [d2|] eqn:Hd2; [|done].
    apply ensureDir_closed in Hd2; [|done]. by destruct (stat d2 _).
  - destruct (write_file d1 _ _) as [d2|] eqn:Hd2; [|done].
    apply write_file_closed in Hd2; [|done]. by destruct (stat d2 _).
Qed.

Lemma listing_shows_visible_entries_witness :
  let st := (create_entry (sample_create ".hidden" "file" sample_bytes_b)
               (create_entry (sample_create "notes.txt" "file" sample_bytes_a)
                  initial_state).2).2 in
  ∃ items, (list_files "u1" None st).1 = Listing items ∧
    ∀ name, name ∈ li_name <$> items ↔
            hidden name = false ∧ is_Some (files st !! (["u1"] ++ [name])).
Proof.
  intros st. destruct (list_files "u1" None st) as [resp st'] eqn:Hl.
  assert (∃ items, resp = Listing items) as [items ->].
  { change resp with (resp, st').1. rewrite <- Hl. vm_compute. eauto. }
  exists items. split; [done|].
  refine (proj1 (listing_shows_visible_entries "u1" None st st' items eq_refl _ _ Hl)).
  - by left.
  - apply create_entry_closed, create_entry_closed, empty_closed.
Defined.

(** X13: the direct upload joins the path that its destination callback
    finds in the body of the request (the [path] field, when it comes
    before the file) to the directory of the user and checks nothing.  A
    request of user [user] with the path [../v] and one file that passes
    the filter and the size limit stores the file in the directory [v] of
    another user, under a numbered name, and is answered 201.  The user
    ids and the name of the file are single names. *)
Theorem direct_upload_has_no_access_check
    (user v name : string) (data : bytes) (uploadSessionId : option string) (st : state) :
  single_name user = true → single_name v = true → single_name name = true →
  fileFilter name = None → (Z.of_nat (length data) ≤ MAX_UPLOAD_BYTES)%Z →
  v ≠ "temp" →
  files st !! [v] = Some Dir →
  files st !! [v; name] ≠ Some Dir →
  let out := upload_route user (Some [".."; v]) uploadSessionId
               [ {| originalname := name; content := data |} ] st in
  ∃ k, 1 ≤ k ∧
    http_status out.1 = 201 ∧
    uploaded_names out.1 = [numbered_name name k] ∧
    files out.2 !! [v; numbered_name name k] = Some (File data).
Proof.
  intros Hu%single_name_plain Hv%single_name_plain Hname%single_name_plain _ _
    Htemp Hdir Hfree out. subst out.
  assert (skip_component user = false ∧ String.eqb user ".." = false) as [Hu1 Hu2].
  { unfold plain in Hu. by apply andb_true_iff in Hu as [?%negb_true_iff ?%negb_true_iff]. }
  assert (path_join (getUserDirectory user) [".."; v] = [v]) as Htarget.
  { unfold path_join, getUserDirectory. cbn [app normalize_aux].
    rewrite Hu1, Hu2. cbn [skip_component String.eqb Ascii.eqb Bool.eqb orb andb tail].
    apply (normalize_aux_normal [v]). cbn. by rewrite Hv. }
  unfold upload_route.
  change (default [] (Some [".."; v])) with [".."; v]. rewrite Htarget.
  cbn [upload_array originalname content].
  assert (ensureDir (files st) [v] = Some (files st)) as ->.
  { unfold ensureDir. cbn [mkdir_from app]. by rewrite Hdir. }
  assert (path_join [v] [name] = [v; name]) as Hp.
  { apply (path_join_normal [v]); [cbn; by rewrite Hv|done]. }
  rewrite Hp.
  rewrite write_file_fresh;
    [|done|cbn; by rewrite Hdir|done].
  set (d2 := <[ [v; name] := File data ]> (files st)).
  unfold upload_files. cbn [process_files set_files files].
  unfold process_file. cbn [sf_path sf_originalname].
  assert (d2 !! [v; name] = Some (File data)) as Hstored by apply lookup_insert_eq.
  assert (access d2 [v; name] = true) as -> by (apply access_true; by rewrite Hstored).
  cbn [negb].
  destruct (resolve_conflict_total d2 (parent [v; name]) name 1 ([v; name], name))
    as [[fp nm] Hr].
  rewrite Hr. apply resolve_conflict_Some in Hr as [Hnone Hr]. cbn [fst] in *.
  destruct Hr as [[= -> ->]|[_ (k & Hk & [= -> ->] & _)]]; [congruence|].
  change (parent [v; name]) with [v] in *.
  unfold candidate in *.
  assert (path_join [v] [numbered_name name k] = [v; numbered_name name k]) as Hfp.
  { apply (path_join_normal [v]); [cbn; by rewrite Hv|apply plain_numbered_name]. }
  rewrite Hfp in *.
  rewrite decide_False by congruence.
  rewrite (rename_file d2 _ _ data);
    [|by apply readFile_Some|done| |by rewrite Hnone].
  2:{ cbn. unfold d2. rewrite lookup_insert_ne by congruence. by rewrite Hdir. }
  rewrite lookup_insert_eq. cbn [length].
  exists k. split; [done|]. cbn [fst snd http_status uploaded_names fmap list_fmap
    files]. split; [done|]. split; [done|].
  rewrite cleanup_lookup_other; [apply lookup_insert_eq|].
  intros [q Hq]. cbn in Hq. congruence.
Qed.

Lemma direct_upload_has_no_access_check_witness :
  let st := (upload_route "u2" None None
               [ {| originalname := "own.txt"; content := sample_bytes_b |} ]
               initial_state).2 in
  ∃ k, 1 ≤ k ∧
    files (upload_route "u1" (Some [".."; "u2"]) None
             [ {| originalname := "doc.txt"; content := sample_bytes_a |} ] st).2
      !! ["u2"; numbered_name "doc.txt" k] = Some (File sample_bytes_a).
Proof.
  intros st.
  destruct (direct_upload_has_no_access_check "u1" "u2" "doc.txt" sample_bytes_a None st)
    as (k & Hk & _ & _ & H).
  - reflexivity.
  - reflexivity.
  - reflexivity.
  - reflexivity.
  - vm_compute; discriminate.
  - discriminate.
  - vm_compute; reflexivity.
  - vm_compute; discriminate.
  - exists k. split; [exact Hk|exact H].
Defined.

(** ** The reducer of the client *)

Lemma filter_none_removed {A : Type} (P : A → Prop) `{∀ x, Decision (P x)} (l : list A) :
  (∀ x, x ∈ l → P x) → filter P l = l.
Proof.
  induction l as [|a l IH]; intros Hall; [done|].
  rewrite filter_cons_True by (apply Hall; left).
  f_equal. apply IH. intros x Hx. apply Hall. by right.
Qed.

(** X14: [DELETE_ITEM] removes the entries of that id from the items and
    from the selection and keeps all others; deleting an item right after
    it was added gives the state back, when its id was neither listed nor
    selected before. *)
Theorem delete_item_undoes_add_item (st : FileSystemState) (it : FileItem) :
  (∀ x, x ∈ fs_items st → fi_id x ≠ fi_id it) →
  fi_id it ∉ fs_selectedItems st →
  fileSystemReducer (fileSystemReducer st (ADD_ITEM it)) (DELETE_ITEM (fi_id it)) = st ∧
  (∀ id x, x ∈ fs_items (fileSystemReducer st (DELETE_ITEM id)) ↔
           x ∈ fs_items st ∧ fi_id x ≠ id) ∧
  (∀ id y, y ∈ fs_selectedItems (fileSystemReducer st (DELETE_ITEM id)) ↔
           y ∈ fs_selectedItems st ∧ y ≠ id).
Proof.
  intros Hfresh Hsel. split; [|split].
  - destruct st as [cp items sel ld er us]. cbn in *. f_equal.
    + rewrite filter_app, filter_none_removed by done.
      rewrite filter_cons_False by (intros H; by apply H).
      by rewrite filter_nil, app_nil_r.
    + apply filter_none_removed. intros y Hy ->. done.
  - intros id x. cbn. rewrite list_elem_of_filter. tauto.
  - intros id y. cbn. rewrite list_elem_of_filter. tauto.
Qed.

Lemma delete_item_undoes_add_item_witness :
  let st := fileSystemReducer initialState (ADD_ITEM (sample_item "a" "a.txt")) in
  fileSystemReducer (fileSystemReducer st (ADD_ITEM (sample_item "b" "b.txt")))
    (DELETE_ITEM "b") = st.
Proof.
  intros st.
  refine (proj1 (delete_item_undoes_add_item st (sample_item "b" "b.txt") _ _)).
  - intros x [->|H]%elem_of_cons; [discriminate|by apply elem_of_nil in H].
  - intros H. by apply elem_of_nil in H.
Defined.

(** X15: [UPDATE_ITEM] replaces, in place, every item that has the id of
    the payload: the sequence of ids and so the number of items stay the
    same, every item of that id is the payload afterwards, the others are
    untouched, and a payload whose id is not listed changes nothing. *)
Theorem update_item_keeps_the_ids (st : FileSystemState) (it : FileItem) :
  let st' := fileSystemReducer st (UPDATE_ITEM it) in
  fi_id <$> fs_items st' = fi_id <$> fs_items st ∧
  length (fs_items st') = length (fs_items st) ∧
  (∀ k x, fs_items st !! k = Some x →
     fs_items st' !! k = Some (if decide (fi_id x = fi_id it) then it else x)) ∧
  (fi_id it ∉ fi_id <$> fs_items st → st' = st) ∧
  fs_selectedItems st' = fs_selectedItems st.
Proof.
  cbn zeta. destruct st as [cp items sel ld er us]. cbn.
  repeat split.
  - rewrite <- list_fmap_compose. apply list_fmap_ext. intros k x _. cbn.
    by destruct (decide _).
  - apply length_fmap.
  - intros k x Hk. by rewrite list_lookup_fmap, Hk.
  - intros Hno. f_equal. rewrite <- (list_fmap_id items) at 2.
    apply list_fmap_ext. intros k x Hk. cbn.
    destruct (decide _) as [Heq|]; [|done]. exfalso. apply Hno.
    rewrite <- Heq. apply list_elem_of_fmap. exists x. split; [done|].
    by eapply list_elem_of_lookup_2.
Qed.

(** X16: the selection never holds an id twice.  Starting from a selection
    without repetition, every action keeps it so, provided the lists that
    [SET_SELECTED_ITEMS] installs have none; and toggling the same id
    twice gives back the same selected ids (the very same list when the
    id was not selected). *)
Theorem selection_has_no_duplicates (st : FileSystemState) (actions : list FileSystemAction) :
  NoDup (fs_selectedItems st) →
  (∀ l, SET_SELECTED_ITEMS l ∈ actions → NoDup l) →
  NoDup (fs_selectedItems (dispatch_all st actions)) ∧
  (∀ id, fs_selectedItems
           (dispatch_all st [TOGGLE_ITEM_SELECTION id; TOGGLE_ITEM_SELECTION id])
         ≡ₚ fs_selectedItems st) ∧
  (∀ id, id ∉ fs_selectedItems st →
         dispatch_all st [TOGGLE_ITEM_SELECTION id; TOGGLE_ITEM_SELECTION id] = st).
Proof.
  intros Hnd Hset. split; [|split].
  - revert st Hnd. unfold dispatch_all.
    induction actions as [|a actions IH]; intros st Hnd; [done|].
    cbn [foldl]. apply IH.
    { intros l Hl. apply Hset. by right. }
    destruct a; cbn; try done.
    + apply NoDup_nil_2.
    + by apply NoDup_filter.
    + apply Hset. left.
    + case_bool_decide as Hin.
      * by apply NoDup_filter.
      * apply NoDup_app. split; [done|]. split; [|apply NoDup_singleton].
        intros x Hx ->%list_elem_of_singleton. done.
    + apply NoDup_nil_2.
  - intros id. unfold dispatch_all. cbn [foldl fileSystemReducer fs_selectedItems].
    clear Hset. set (sel := fs_selectedItems st) in *.
    destruct (decide (id ∈ sel)) as [Hin|Hin].
    + rewrite (bool_decide_eq_true_2 _ Hin).
      rewrite bool_decide_eq_false_2
        by (rewrite list_elem_of_filter; intros [? _]; done).
      clearbody sel. induction sel as [|y l IH]; [by apply elem_of_nil in Hin|].
      apply NoDup_cons in Hnd as [Hy Hnd].
      destruct (decide (y = id)) as [->|Hne].
      * rewrite filter_cons_False by (intros H; by apply H).
        rewrite filter_none_removed by (intros x Hx ->; done).
        by rewrite Permutation_app_comm.
      * rewrite filter_cons_True by done. cbn. f_equiv. apply IH; [done|].
        by apply elem_of_cons in Hin as [->|Hin].
    + rewrite (bool_decide_eq_false_2 _ Hin).
      rewrite bool_decide_eq_true_2 by (apply elem_of_app; right; left).
      rewrite filter_app, filter_none_removed by (intros x Hx ->; done).
      rewrite filter_cons_False by (intros H; by apply H).
      by rewrite filter_nil, app_nil_r.
  - intros id Hin. destruct st as [cp items sel ld er us].
    unfold dispatch_all. cbn [foldl fileSystemReducer fs_selectedItems fs_currentPath
      fs_items fs_loading fs_error fs_user] in *.
    rewrite (bool_decide_eq_false_2 _ Hin).
    rewrite bool_decide_eq_true_2 by (apply elem_of_app; right; left).
    f_equal.
    rewrite filter_app, filter_none_removed by (intros x Hx ->; done).
    rewrite filter_cons_False by (intros H; by apply H).
    by rewrite filter_nil, app_nil_r.
Qed.

Lemma selection_has_no_duplicates_witness :
  NoDup (fs_selectedItems
           (dispatch_all initialState
              [TOGGLE_ITEM_SELECTION "a"; TOGGLE_ITEM_SELECTION "b";
               TOGGLE_ITEM_SELECTION "a"; SET_SELECTED_ITEMS ["c"; "d"];
               TOGGLE_ITEM_SELECTION "c"])).
Proof.
  refine (proj1 (selection_has_no_duplicates initialState _ _ _)).
  - apply NoDup_nil_2.
  - intros l Hl.
    repeat (apply elem_of_cons in Hl as [Hl|Hl]; [try discriminate|]).
    + injection Hl as ->. apply NoDup_cons. split.
      * intros [H|H]%elem_of_cons; [discriminate|by apply elem_of_nil in H].
      * apply NoDup_singleton.
    + by apply elem_of_nil in Hl.
Defined.

(** ** Breadcrumbs, sizes and the upload strategy of the client *)

Lemma render_snoc (q : path) (c : string) : render (q ++ [c]) = render q +:+ "/" +:+ c.
Proof.
  induction q as [|a q IH].
  - cbn [app render]. by rewrite append_empty_r, append_empty_l.
  - cbn [app]. rewrite !render_cons, IH, !append_String.
    f_equal. by rewrite !append_assoc.
Qed.

Lemma breadcrumbs_from_render (p : path) : ∀ q : path,
  breadcrumbs_from (render q) p
  = imap (λ k c, (c, render (q ++ take (S k) p))) p.
Proof.
  induction p as [|c p IH]; intros q; [done|].
  cbn [breadcrumbs_from imap]. rewrite <- render_snoc. f_equal.
  rewrite IH. apply imap_ext. intros k x _. cbn. by rewrite <- app_assoc.
Qed.

Lemma split_on_render (p : path) :
  separator_free_path p →
  split_on "/" (render p) = match p with [] => [""] | _ => "" :: p end.
Proof.
  destruct p as [|c p]; [done|]. intros Hp.
  rewrite render_cons. cbn [split_on]. rewrite Ascii.eqb_refl. f_equal.
  by apply (split_on_join_slash (c :: p)).
Qed.

(** X17: the breadcrumbs of a path.  For the textual form of a list of
    names (none empty, none with a separator) they are [Home] followed by
    one crumb per name, whose path is the textual form of the names up to
    it; so the last crumb leads to the path itself. *)
Theorem breadcrumbs_follow_the_path (p : path) :
  Forall (λ c, c ≠ "") p → separator_free_path p →
  getBreadcrumbItems (render p)
  = ("Home", "/") :: imap (λ k c, (c, render (take (S k) p))) p.
Proof.
  intros Hne Hsep. unfold getBreadcrumbItems. f_equal.
  rewrite split_on_render by done.
  assert (filter (λ part : string, part ≠ "") p = p) as Hp.
  { apply filter_none_removed. intros x Hx.
    by apply (proj1 (Forall_forall _ _) Hne). }
  assert (filter (λ part, part ≠ "") (match p with [] => [""] | _ => "" :: p end) = p)
    as ->.
  { destruct p; [done|]. by rewrite filter_cons_False by (intros H; by apply H). }
  apply (breadcrumbs_from_render p []).
Qed.

Lemma breadcrumbs_follow_the_path_witness :
  getBreadcrumbItems "/docs/2024"
  = [("Home", "/"); ("docs", "/docs"); ("2024", "/docs/2024")].
Proof.
  apply (breadcrumbs_follow_the_path ["docs"; "2024"]).
  - by repeat constructor.
  - by repeat constructor.
Defined.

Lemma tenths_close (size unit : Z) :
  (0 < unit)%Z →
  (Z.abs (unit * tenths size unit - 10 * size) * 2 ≤ unit)%Z.
Proof.
  intros Hu. unfold tenths.
  pose proof (Z.div_mod (20 * size + unit) (2 * unit) ltac:(lia)) as Hdm.
  pose proof (Z.mod_pos_bound (20 * size + unit) (2 * unit) ltac:(lia)) as Hb.
  lia.
Qed.

(** X18: from one kilobyte on, [formatFileSize] shows a size that is a
    safe integer in the largest unit that it reaches, as the multiple of
    one tenth of the unit nearest to it: the number of tenths [n] shown
    differs from the size by at most a twentieth of the unit.  Rounding
    can show the full next unit: sizes within 51 bytes below a megabyte
    read ["1024.0 KB"]. *)
Theorem formatFileSize_rounds_to_a_tenth (sz : Z) :
  safe_integer sz = true →
  let shown (unit : Z) (suffix : string) :=
    ∃ n : Z, formatFileSize (Some sz)
             = Z_toString (n / 10) +:+ "." +:+ Z_toString (n mod 10) +:+ suffix ∧
             (Z.abs (unit * n - 10 * sz) * 2 ≤ unit)%Z in
  ((KB ≤ sz < MB)%Z → shown KB " KB") ∧
  ((MB ≤ sz < GB)%Z → shown MB " MB") ∧
  ((GB ≤ sz)%Z → shown GB " GB") ∧
  ((1048525 ≤ sz < MB)%Z → formatFileSize (Some sz) = "1024.0 KB").
Proof.
  intros _. cbn zeta. unfold formatFileSize, KB, MB, GB.
  repeat split.
  - intros Hsz. exists (tenths sz 1024).
    rewrite (proj2 (Z.eqb_neq sz 0)) by lia.
    rewrite (proj2 (Z.ltb_ge sz 1024)) by lia.
    rewrite (proj2 (Z.ltb_lt sz (1024 * 1024))) by lia.
    split; [unfold toFixed1; by rewrite !append_assoc|].
    apply tenths_close. lia.
  - intros Hsz. exists (tenths sz (1024 * 1024)).
    rewrite (proj2 (Z.eqb_neq sz 0)) by lia.
    rewrite (proj2 (Z.ltb_ge sz 1024)) by lia.
    rewrite (proj2 (Z.ltb_ge sz (1024 * 1024))) by lia.
    rewrite (proj2 (Z.ltb_lt sz (1024 * 1024 * 1024))) by lia.
    split; [unfold toFixed1; by rewrite !append_assoc|].
    apply tenths_close. lia.
  - intros Hsz. exists (tenths sz (1024 * 1024 * 1024)).
    rewrite (proj2 (Z.eqb_neq sz 0)) by lia.
    rewrite (proj2 (Z.ltb_ge sz 1024)) by lia.
    rewrite (proj2 (Z.ltb_ge sz (1024 * 1024))) by lia.
    rewrite (proj2 (Z.ltb_ge sz (1024 * 1024 * 1024))) by lia.
    split; [unfold toFixed1; by rewrite !append_assoc|].
    apply tenths_close. lia.
  - intros Hsz.
    rewrite (proj2 (Z.eqb_neq sz 0)) by lia.
    rewrite (proj2 (Z.ltb_ge sz 1024)) by lia.
    rewrite (proj2 (Z.ltb_lt sz (1024 * 1024))) by lia.
    unfold toFixed1.
    assert (tenths sz 1024 = 10240%Z) as ->.
    { unfold tenths. symmetry. apply (Z.div_unique_pos _ _ _ (20 * sz + 1024 - 10240 * 2048)); lia. }
    reflexivity.
Qed.

Lemma formatFileSize_rounds_to_a_tenth_witness :
  formatFileSize (Some 1048575%Z) = "1024.0 KB".
Proof.
  apply (formatFileSize_rounds_to_a_tenth 1048575); [reflexivity|].
  unfold MB. lia.
Defined.

(** X19: the client sends every file exactly one way: directly when it has
    at most two chunk sizes, in chunks otherwise.  A file sent in chunks
    has at least three of them, so the chunk count of an init request of
    this client is never the value 0 that the server takes as missing. *)
Theorem upload_strategy_splits_the_files (C : nat) (filesArray : list upload_file) :
  0 < C →
  smallFiles C filesArray ++ largeFiles C filesArray ≡ₚ filesArray ∧
  (∀ file, file ∈ largeFiles C filesArray →
     (file ∉ smallFiles C filesArray) ∧
     3 ≤ total_chunks C (length (content file)) ∧
     falsy_number (Some (Z.of_nat (total_chunks C (length (content file))))) = false ∧
     falsy_number (Some (Z.of_nat (length (content file)))) = false).
Proof.
  intros HC. split.
  - unfold smallFiles, largeFiles.
    induction filesArray as [|file l IH]; [done|].
    destruct (decide (length (content file) ≤ C * 2)) as [Hs|Hl].
    + rewrite filter_cons_True by done. rewrite (filter_cons_False _ file) by lia.
      cbn. by f_equiv.
    + rewrite filter_cons_False by done. rewrite (filter_cons_True _ file) by lia.
      rewrite <- Permutation_middle. by f_equiv.
  - intros file [Hlarge Hin]%list_elem_of_filter.
    assert (3 ≤ total_chunks C (length (content file))) as H3.
    { pose proof (total_chunks_covers C (length (content file)) HC). nia. }
    split; [|split; [done|split]].
    + intros [Hsmall _]%list_elem_of_filter. lia.
    + cbn. apply Z.eqb_neq. lia.
    + cbn. apply Z.eqb_neq. lia.
Qed.

Lemma upload_strategy_splits_the_files_witness :
  let big := {| originalname := "big.bin";
                content := sample_bytes_a ++ sample_bytes_b ++ sample_bytes_c |} in
  let small := {| originalname := "small.txt"; content := sample_bytes_a |} in
  smallFiles 2 [big; small] ++ largeFiles 2 [big; small] ≡ₚ [big; small].
Proof.
  intros big small.
  refine (proj1 (upload_strategy_splits_the_files 2 [big; small] _)). lia.
Defined.

(** ** [fileFilter] and the file classes *)

Lemma lower_char_dot (c : ascii) : lower_char c = "."%char ↔ c = "."%char.
Proof.
  destruct c as [[] [] [] [] [] [] [] []]; vm_compute; split; congruence.
Qed.

Lemma has_dot_lower (s : string) : has_char "." (toLowerCase s) = has_char "." s.
Proof.
  induction s as [|c s IH]; [done|]. cbn [toLowerCase has_char]. rewrite IH. f_equal.
  destruct (Ascii.eqb_spec (lower_char c) ".") as [H|H];
    destruct (Ascii.eqb_spec c ".") as [H'|H']; try done.
  - by apply (proj1 (lower_char_dot c)) in H.
  - by apply (proj2 (lower_char_dot c)) in H'.
Qed.

Lemma toLowerCase_slice1 (s : string) : toLowerCase (slice1 s) = slice1 (toLowerCase s).
Proof. by destruct s. Qed.

Lemma last_dot_none (s : string) : has_char "." s = false → last_dot s = None.
Proof.
  induction s as [|c s IH]; [done|]. cbn [has_char last_dot].
  intros [Hc Hs]%orb_false_iff. by rewrite IH, Hc.
Qed.

Lemma last_dot_app (stem s : string) (i : nat) :
  last_dot s = Some i → last_dot (stem +:+ s) = Some (String.length stem + i).
Proof.
  intros Hs. induction stem as [|c stem IH]; [done|].
  rewrite append_String. cbn [last_dot String.length]. by rewrite IH.
Qed.

Lemma substring_tail (a b : string) :
  substring (String.length a) (String.length b) (a +:+ b) = b.
Proof.
  induction a as [|c a IH].
  - rewrite append_empty_l. cbn [String.length].
    induction b as [|c b IHb]; [done|]. cbn. by rewrite IHb.
  - rewrite append_String. cbn [String.length substring]. apply IH.
Qed.

(** [path.extname] of a name that ends in a dot followed by dot-free text,
    after a stem that is not empty. *)
Lemma extname_app (stem e : string) :
  stem ≠ "" → e ≠ "" → has_char "." e = false →
  extname (stem +:+ String "." e) = String "." e.
Proof.
  intros Hstem He Hdot. unfold extname.
  rewrite (last_dot_app stem (String "." e) 0)
    by (cbn [last_dot]; by rewrite (last_dot_none e)).
  destruct stem as [|c stem]; [done|]. cbn [String.length Nat.add].
  rewrite Nat.add_0_r.
  destruct (String.eqb_spec (String c stem +:+ String "." e) "..") as [Heq|_].
  { exfalso. apply (f_equal String.length) in Heq.
    rewrite string_length_app in Heq. cbn in Heq. destruct e; [done|cbn in Heq; lia]. }
  rewrite string_length_app.
  replace (String.length (String c stem) + String.length (String "." e)
           - S (String.length stem)) with (String.length (String "." e))
    by (cbn [String.length]; lia).
  apply (substring_tail (String c stem) (String "." e)).
Qed.

Lemma dangerous_shape (ext : string) :
  toLowerCase ext ∈ dangerousExts →
  ∃ e, ext = String "." e ∧ e ≠ "" ∧ has_char "." e = false.
Proof.
  intros Hin.
  assert (∃ l, toLowerCase ext = String "." l ∧ l ≠ "" ∧ has_char "." l = false)
    as (l & Hl & Hne & Hdot).
  { unfold dangerousExts in Hin.
    repeat (apply elem_of_cons in Hin as [->|Hin]; [eexists; by repeat split|]).
    by apply elem_of_nil in Hin. }
  destruct ext as [|c e]; [done|]. cbn [toLowerCase] in Hl.
  injection Hl as Hc Hl. apply lower_char_dot in Hc as ->.
  exists e. split; [done|]. split.
  - intros ->. by subst l.
  - rewrite <- has_dot_lower. by rewrite Hl.
Qed.

Lemma trimStart_empty (s : string) : trimStart s = "" ↔ all_space s = true.
Proof.
  induction s as [|c s IH]; [done|]. cbn [trimStart all_space].
  destruct (is_space c); [exact IH|]. done.
Qed.

Lemma all_space_trimStart (s : string) : all_space (trimStart s) = all_space s.
Proof.
  induction s as [|c s IH]; [done|]. cbn [trimStart all_space].
  destruct (is_space c) eqn:Hc; [exact IH|]. cbn [all_space]. by rewrite Hc.
Qed.

Lemma all_space_rev_app (s : string) : ∀ acc : string,
  all_space (String.rev_app s acc) = all_space s && all_space acc.
Proof.
  induction s as [|c s IH]; intros acc; [done|].
  cbn [String.rev_app all_space]. rewrite IH. cbn [all_space].
  destruct (is_space c), (all_space s), (all_space acc); done.
Qed.

Lemma rev_app_empty (s : string) : ∀ acc : string,
  String.rev_app s acc = "" → s = "" ∧ acc = "".
Proof.
  induction s as [|c s IH]; intros acc; [done|].
  cbn [String.rev_app]. intros [_ [=]]%IH.
Qed.

(** [trim] leaves nothing exactly of the names that are white space. *)
Lemma trim_empty (s : string) : trim s = "" ↔ all_space s = true.
Proof.
  unfold trim, String.rev. split.
  - intros [H _]%rev_app_empty. apply trimStart_empty in H.
    rewrite all_space_rev_app, all_space_trimStart in H.
    by apply andb_true_iff in H as [H _].
  - intros H.
    assert (trimStart s = "") as -> by (by apply trimStart_empty).
    reflexivity.
Qed.

(** X20: [fileFilter] looks at the text after the last dot only, in any
    letter case.  A name made of a stem without separator and one of the
    seven extensions is refused whatever the case of its letters; the
    bare extension as a name (a dot file such as [.exe]) is let through,
    since [path.extname] of a dot file is empty; and the names refused as
    invalid are exactly those made of white space. *)
Theorem fileFilter_checks_the_last_extension (stem ext : string) :
  separator_free stem = true →
  toLowerCase ext ∈ dangerousExts →
  (stem ≠ "" → is_Some (fileFilter (stem +:+ ext))) ∧
  fileFilter ext = None ∧
  (∀ name, fileFilter name = Some "Invalid filename" ↔ all_space name = true).
Proof.
  intros _ Hin. pose proof Hin as (e & -> & He & Hdot)%dangerous_shape.
  split; [|split].
  - intros Hstem. unfold fileFilter.
    destruct (_ || _); [done|]. cbn zeta.
    rewrite extname_app by done. by rewrite bool_decide_eq_true_2.
  - unfold fileFilter.
    assert (String.eqb (trim (String "." e)) "" = false) as ->.
    { apply String.eqb_neq. intros H%trim_empty. done. }
    cbn [String.eqb orb]. cbn zeta.
    assert (extname (String "." e) = "") as ->.
    { unfold extname. cbn [last_dot]. by rewrite (last_dot_none e). }
    done.
  - intros name. unfold fileFilter.
    destruct (String.eqb_spec name "") as [->|Hname]; [done|]. cbn [orb].
    destruct (String.eqb_spec (trim name) "") as [Ht|Ht].
    + split; [intros _; by apply trim_empty|done].
    + cbn zeta. split.
      * case_bool_decide as Hd; [|done]. by intros [=].
      * intros H%trim_empty. done.
Qed.

Lemma fileFilter_checks_the_last_extension_witness :
  is_Some (fileFilter "Setup.EXE") ∧ fileFilter ".EXE" = None.
Proof.
  destruct (fileFilter_checks_the_last_extension "Setup" ".EXE") as (H1 & H2 & _).
  - reflexivity.
  - apply elem_of_cons. by left.
  - split; [by apply H1|exact H2].
Defined.

(** X21: whenever [POST /raw-file] answers a file as text (the JSON form),
    the file viewer of the client classes the extension under which
    [GET /files] lists that file as text, so the editor shows it; the
    answer names a content type of its table, gives the content of the
    file (read as UTF-8), and the number of its bytes as size.  The user id is a single name and the
    path is given as the client gives it. *)
Theorem text_answers_open_in_the_editor
    (user requested contentType : string) (size : nat) (text : bytes) (st : state) :
  single_name user = true → client_path (Some requested) →
  raw_file user (Some requested) st = RawText requested contentType size text →
  let fullPath := join_text (getUserDirectory user) (strip_slashes requested) in
  isTextFile (li_extension (listed (getUserDirectory user) (parent fullPath)
                              (basename fullPath, File text))) = true ∧
  files st !! fullPath = Some (File text) ∧
  size = length text ∧
  is_Some (assoc (toLowerCase (extname (basename fullPath))) contentTypes).
Proof.
  intros _ _.
  unfold raw_file. destruct (String.eqb requested ""); [done|].
  cbn zeta. destruct (negb _) eqn:Hin; [done|]. apply negb_false_iff in Hin.
  destruct (stat (files st) _) as [[|data]|[|]] eqn:Hstat; try done.
  case_bool_decide as Htext; [|done]. intros [= _ <- <-].
  assert (join_text (getUserDirectory user) (strip_slashes requested) ≠ []) as Hne
    by (by apply (inside_not_root (getUserDirectory user))).
  split; [|split; [by apply stat_Stat|split; [done|]]].
  - cbn [listed snd fst li_extension isTextFile].
    destruct (String.eqb _ ""); [done|]. rewrite toLowerCase_slice1.
    set (ext := toLowerCase _) in *. clearbody ext. unfold textTypes in Htext.
    repeat (apply elem_of_cons in Htext as [->|Htext]; [by vm_compute|]).
    by apply elem_of_nil in Htext.
  - set (ext := toLowerCase _) in *. clearbody ext. unfold textTypes in Htext.
    repeat (apply elem_of_cons in Htext as [->|Htext]; [vm_compute; by eexists|]).
    by apply elem_of_nil in Htext.
Qed.

Lemma text_answers_open_in_the_editor_witness :
  let st := (create_entry (sample_create "Notes.TXT" "file" sample_bytes_a)
               initial_state).2 in
  isTextFile (Some "TXT") = true ∧
  files st !! ["u1"; "Notes.TXT"] = Some (File sample_bytes_a).
Proof.
  intros st.
  destruct (text_answers_open_in_the_editor "u1" "/Notes.TXT" "text/plain" 2
              sample_bytes_a st) as (H1 & H2 & _).
  - reflexivity.
  - right. by exists ["Notes.TXT"].
  - vm_compute. reflexivity.
  - split; [exact H1|exact H2].
Defined.

(** ** Accounts *)

Lemma find_account_none (matches : json → option bool) (accounts : list json) :
  Forall (λ account, matches account = Some false) accounts →
  find_account matches accounts = Some None.
Proof.
  induction accounts as [|a l IH]; [done|].
  intros [Ha Hl]%Forall_cons. cbn [find_account]. rewrite Ha. by apply IH.
Qed.

Lemma find_account_last (matches : json → option bool) (accounts : list json) (x : json) :
  Forall (λ account, matches account = Some false) accounts →
  matches x = Some true →
  find_account matches (accounts ++ [x]) = Some (Some x).
Proof.
  intros Hl Hx. induction accounts as [|a l IH]; cbn [app find_account].
  - by rewrite Hx.
  - apply Forall_cons in Hl as [Ha Hl]. rewrite Ha. by apply IH.
Qed.

Lemma and_then_false (a b : option bool) : a = Some false → and_then a b = Some false.
Proof. by intros ->. Qed.

Lemma normalize_plain_db (accounts : list json) :
  normalize_db (JObj [("accounts", JArr accounts)]) = JObj [("accounts", JArr accounts)].
Proof. reflexivity. Qed.

Lemma writeJsonFile_fresh (now : Z) (dir : path) (name : string) (text : bytes) (d : disk) :
  dir ≠ [] → d !! dir = Some Dir → ensureDir d dir = Some d →
  (∀ c, d !! (dir ++ [c]) = None) →
  ∃ d', writeJsonFile now (dir ++ [name]) text d = Some d' ∧
        d' !! (dir ++ [name]) = Some (File text) ∧
        (∀ q n, d !! q = Some n → d' !! q = Some n).
Proof.
  intros Hne Hdir Hensure Hfree. unfold writeJsonFile.
  rewrite parent_snoc, basename_snoc, Hensure.
  set (tmp := dir ++ [name +:+ ".tmp-" +:+ Z_toString now]).
  rewrite write_file_fresh;
    [|by apply snoc_not_nil|unfold tmp; rewrite parent_snoc; by apply is_directory_true; right
     |unfold tmp; by rewrite Hfree].
  rewrite (rename_file _ _ _ text).
  - eexists. split; [done|]. split; [apply lookup_insert_eq|].
    intros q n Hq.
    assert (q ≠ tmp) by (intros ->; unfold tmp in Hq; by rewrite Hfree in Hq).
    assert (q ≠ dir ++ [name]) by (intros ->; by rewrite Hfree in Hq).
    by rewrite lookup_insert_ne, lookup_delete_ne, lookup_insert_ne.
  - apply readFile_Some, lookup_insert_eq.
  - apply snoc_not_nil.
  - rewrite parent_snoc. apply is_directory_true. right.
    rewrite lookup_insert_ne; [done|]. unfold tmp. intros Heq.
    apply (f_equal length) in Heq. rewrite length_app in Heq. cbn in Heq. lia.
  - destruct (decide (dir ++ [name] = tmp)) as [->|Hd].
    + by rewrite lookup_insert_eq.
    + rewrite lookup_insert_ne by done. by rewrite Hfree.
Qed.

Lemma createUser_accepts (now : Z) (id u : string) (more : list string)
    (fields : list (string * json)) (accounts : list json) (srv : server) :
  u ≠ "" → field "user" fields = Some (JStr u) →
  db_json srv = Holds (JObj [("accounts", JArr accounts)]) ∨
  (db_json srv = Missing ∧ accounts = []) →
  name_free u accounts → id_free id accounts → plain id = true →
  (∀ q : path, [id] `prefix_of` q → files (site srv) !! q = None) →
  ∃ d : disk,
    createUser now (id :: more) (JObj fields) srv
    = Some (UserCreated id,
            {| db_json := Holds (JObj [("accounts",
                                        JArr (accounts ++ [spread_after_id id (JObj fields)]))]);
               site := set_files (site srv) d |}) ∧
    d !! [id] = Some Dir ∧
    d !! [id; ".metadata.json"] = Some (File empty_metadata) ∧
    (∀ (q : path) (n : node), files (site srv) !! q = Some n → d !! q = Some n).
Proof.
  intros Hu Huser Hdb Hname Hid Hplain Hfree.
  unfold createUser. cbn [truthy negb orb get]. rewrite Huser.
  cbn [truthy_property truthy]. apply String.eqb_neq in Hu. rewrite Hu. cbn [negb].
  assert (read_db (db_json srv) = Some (JObj [("accounts", JArr accounts)])) as ->.
  { destruct Hdb as [->|[-> ->]]; done. }
  rewrite normalize_plain_db.
  change (accounts_of (JObj [("accounts", JArr accounts)])) with accounts.
  rewrite (find_account_none _ accounts Hname).
  cbn [pick_id]. rewrite (find_account_none _ accounts Hid).
  unfold getUserDirectory.
  assert (ensureDir (files (site srv)) [id] = Some (<[ [id] := Dir ]> (files (site srv))))
    as ->.
  { unfold ensureDir. cbn [mkdir_from app]. by rewrite Hfree. }
  assert (path_join [id] [".metadata.json"] = [id] ++ [".metadata.json"]) as ->.
  { apply path_join_normal; [cbn; by rewrite Hplain|done]. }
  destruct (writeJsonFile_fresh now [id] ".metadata.json" empty_metadata
              (<[ [id] := Dir ]> (files (site srv)))) as (d' & -> & Hmeta & Hkeep);
    [done|apply lookup_insert_eq| |..].
  { unfold ensureDir. cbn [mkdir_from app]. by rewrite lookup_insert_eq. }
  { intros c. rewrite lookup_insert_ne by done. apply Hfree. by exists [c]. }
  exists d'. split; [done|]. split; [|split; [done|]].
  - apply Hkeep, lookup_insert_eq.
  - intros q n Hq. apply Hkeep. rewrite lookup_insert_ne; [done|].
    intros <-. by rewrite Hfree in Hq.
Qed.

Lemma property_is_self (k s : string) (fields : list (string * json)) :
  field k fields = Some (JStr s) →
  property_is k (Value (JStr s)) (JObj fields) = Some true.
Proof. intros H. unfold property_is. cbn [get]. rewrite H. cbn. by rewrite String.eqb_refl. Qed.

Lemma property_is_other (k s t : string) (fields : list (string * json)) :
  field k fields = Some (JStr s) → s ≠ t →
  property_is k (Value (JStr t)) (JObj fields) = Some false.
Proof.
  intros H Hne. unfold property_is. cbn [get]. rewrite H. cbn.
  by apply String.eqb_neq in Hne as ->.
Qed.

(** X22: an account made by [POST /createUser] from a body [{ user, pass }]
    can be used at once.  On a database that the server wrote (or none
    yet), for a name that is not taken and a fresh id, the request is
    answered 201 with the id; logging in with the same body gives that
    id; [authenticateUser] accepts the name, the password and the id as
    headers; the same name cannot be taken again (409, nothing changed);
    and the directory of the user exists with its empty metadata file. *)
Theorem signup_then_login
    (now : Z) (id u p : string) (more : list string) (accounts : list json)
    (srv : server) :
  u ≠ "" → p ≠ "" →
  db_json srv = Holds (JObj [("accounts", JArr accounts)]) ∨
  (db_json srv = Missing ∧ accounts = []) →
  name_free u accounts → id_free id accounts → single_name id = true →
  (∀ q : path, [id] `prefix_of` q → files (site srv) !! q = None) →
  ∃ srv' : server,
    createUser now (id :: more) (credentials u p) srv = Some (UserCreated id, srv') ∧
    logInUser (credentials u p) srv' = LoggedIn (Value (JStr id)) ∧
    authenticateUser (Some u) (Some p) (Some id) (db_json srv') = Authenticated u p id ∧
    (∀ now' uuids p',
       createUser now' uuids (credentials u p') srv'
       = Some (AccountRejected 409 "User already exists", srv')) ∧
    files (site srv') !! [id] = Some Dir ∧
    readFile (files (site srv')) [id; ".metadata.json"] = Some empty_metadata.
Proof.
  intros Hu Hp Hdb Hname Hid Hplain%single_name_plain Hfree.
  destruct (createUser_accepts now id u more
              [("user", JStr u); ("pass", JStr p)] accounts srv)
    as (d & Hcreate & Hdir & Hmeta & _); try done.
  eexists. split; [exact Hcreate|].
  change (spread_after_id id (JObj [("user", JStr u); ("pass", JStr p)]))
    with (JObj [("id", JStr id); ("user", JStr u); ("pass", JStr p)]).
  set (newUser := JObj [("id", JStr id); ("user", JStr u); ("pass", JStr p)]).
  assert (id ≠ "") as Hidne by (by apply plain_not_empty).
  split; [|split; [|split; [|split]]].
  - unfold logInUser, credentials. cbn [truthy get field String.eqb Ascii.eqb Bool.eqb].
    cbn [truthy_property truthy].
    apply String.eqb_neq in Hu, Hp. rewrite Hu, Hp. cbn [negb orb db_json read_db].
    rewrite normalize_plain_db.
    change (accounts_of (JObj [("accounts", JArr ?l)])) with l.
    rewrite (find_account_last _ accounts newUser).
    + done.
    + eapply Forall_impl; [exact Hname|]. intros a Ha. cbn beta.
      by apply and_then_false.
    + cbn beta. unfold newUser. rewrite (property_is_self "user" u) by done.
      cbn [and_then]. by apply property_is_self.
  - unfold authenticateUser. apply String.eqb_neq in Hu as Hu', Hp as Hp', Hidne as Hid'.
    rewrite Hu', Hp', Hid'. cbn [orb db_json]. rewrite normalize_plain_db. cbn zeta.
    change (accounts_of (JObj [("accounts", JArr ?l)])) with l.
    rewrite (find_account_last _ accounts newUser).
    + done.
    + eapply Forall_impl; [exact Hname|]. intros a Ha. cbn beta.
      by apply and_then_false.
    + cbn beta. unfold newUser.
      rewrite (property_is_self "user" u) by done. cbn [and_then].
      rewrite (property_is_self "pass" p) by done. cbn [and_then].
      by apply property_is_self.
  - intros now' uuids p'. unfold createUser, credentials.
    cbn [truthy get field String.eqb Ascii.eqb Bool.eqb truthy_property].
    apply String.eqb_neq in Hu as Hu'. rewrite Hu'. cbn [negb orb db_json read_db].
    rewrite normalize_plain_db.
    change (accounts_of (JObj [("accounts", JArr ?l)])) with l.
    rewrite (find_account_last _ accounts newUser); [done|exact Hname|].
    by apply property_is_self.
  - done.
  - by apply readFile_Some.
Qed.

Lemma signup_then_login_witness :
  ∃ srv', createUser 0 ["id-1"] (credentials "ana" "pw") initial_server
          = Some (UserCreated "id-1", srv') ∧
          logInUser (credentials "ana" "pw") srv' = LoggedIn (Value (JStr "id-1")).
Proof.
  destruct (signup_then_login 0 "id-1" "ana" "pw" [] [] initial_server)
    as (srv' & H1 & H2 & _).
  - discriminate.
  - discriminate.
  - by right.
  - constructor.
  - constructor.
  - reflexivity.
  - intros q _. apply lookup_empty.
  - exists srv'. split; [exact H1|exact H2].
Defined.

(** X23: the body of [POST /createUser] is spread over the generated id.
    When the body carries an [id] of its own, the account is stored with
    that id: the answer and the new directory use the generated id, but
    the headers authenticate with the id of the body and not with the
    generated one, and logging in gives the id of the body.  The id of
    the body may be that of another account. *)
Theorem body_id_replaces_generated_id
    (now : Z) (id u p v : string) (more : list string) (accounts : list json)
    (srv : server) :
  u ≠ "" → p ≠ "" → v ≠ "" → v ≠ id →
  db_json srv = Holds (JObj [("accounts", JArr accounts)]) ∨
  (db_json srv = Missing ∧ accounts = []) →
  name_free u accounts → id_free id accounts → single_name id = true →
  (∀ q : path, [id] `prefix_of` q → files (site srv) !! q = None) →
  ∃ srv' : server,
    createUser now (id :: more)
      (JObj [("user", JStr u); ("pass", JStr p); ("id", JStr v)]) srv
    = Some (UserCreated id, srv') ∧
    authenticateUser (Some u) (Some p) (Some v) (db_json srv') = Authenticated u p v ∧
    authenticateUser (Some u) (Some p) (Some id) (db_json srv')
    = Unauthorized "Invalid credentials" ∧
    logInUser (credentials u p) srv' = LoggedIn (Value (JStr v)) ∧
    files (site srv') !! [id] = Some Dir.
Proof.
  intros Hu Hp Hv Hvid Hdb Hname Hid Hplain%single_name_plain Hfree.
  destruct (createUser_accepts now id u more
              [("user", JStr u); ("pass", JStr p); ("id", JStr v)] accounts srv)
    as (d & Hcreate & Hdir & _); try done.
  eexists. split; [exact Hcreate|].
  change (spread_after_id id (JObj [("user", JStr u); ("pass", JStr p); ("id", JStr v)]))
    with (JObj [("id", JStr v); ("user", JStr u); ("pass", JStr p)]).
  assert (id ≠ "") as Hidne by (by apply plain_not_empty).
  assert (Forall (λ account,
            and_then (property_is "user" (Value (JStr u)) account)
              (property_is "pass" (Value (JStr p)) account) = Some false) accounts)
    as Hlogin.
  { eapply Forall_impl; [exact Hname|]. intros a Ha. by apply and_then_false. }
  assert (∀ x, Forall (λ account,
            and_then (property_is "user" (Value (JStr u)) account)
              (and_then (property_is "pass" (Value (JStr p)) account)
                 (property_is "id" (Value (JStr x)) account)) = Some false) accounts)
    as Hauth.
  { intros x. eapply Forall_impl; [exact Hname|]. intros a Ha. by apply and_then_false. }
  apply String.eqb_neq in Hu as Hu', Hp as Hp', Hidne as Hid', Hv as Hv'.
  split; [|split; [|split]].
  - unfold authenticateUser. rewrite Hu', Hp', Hv'. cbn [orb db_json].
    rewrite normalize_plain_db. cbn zeta.
    change (accounts_of (JObj [("accounts", JArr ?l)])) with l.
    rewrite (find_account_last _ accounts _ (Hauth v)); [done|].
    rewrite (property_is_self "user" u) by done. cbn [and_then].
    rewrite (property_is_self "pass" p) by done. cbn [and_then].
    by apply property_is_self.
  - unfold authenticateUser. rewrite Hu', Hp', Hid'. cbn [orb db_json].
    rewrite normalize_plain_db. cbn zeta.
    change (accounts_of (JObj [("accounts", JArr ?l)])) with l.
    rewrite find_account_none; [done|].
    apply Forall_app. split; [apply Hauth|]. constructor; [|constructor].
    rewrite (property_is_self "user" u) by done. cbn [and_then].
    rewrite (property_is_self "pass" p) by done. cbn [and_then].
    by apply (property_is_other "id" v id).
  - unfold logInUser, credentials. cbn [truthy get field String.eqb Ascii.eqb Bool.eqb].
    cbn [truthy_property truthy]. rewrite Hu', Hp'. cbn [negb orb db_json read_db].
    rewrite normalize_plain_db.
    change (accounts_of (JObj [("accounts", JArr ?l)])) with l.
    rewrite (find_account_last _ accounts _ Hlogin); [done|].
    rewrite (property_is_self "user" u) by done. cbn [and_then].
    by apply property_is_self.
  - done.
Qed.

Lemma body_id_replaces_generated_id_witness :
  ∃ srv', createUser 0 ["id-2"]
            (JObj [("user", JStr "eve"); ("pass", JStr "pw"); ("id", JStr "id-1")])
            initial_server
          = Some (UserCreated "id-2", srv') ∧
          authenticateUser (Some "eve") (Some "pw") (Some "id-1") (db_json srv')
          = Authenticated "eve" "pw" "id-1".
Proof.
  destruct (body_id_replaces_generated_id 0 "id-2" "eve" "pw" "id-1" [] [] initial_server)
    as (srv' & H1 & H2 & _).
  - discriminate.
  - discriminate.
  - discriminate.
  - discriminate.
  - by right.
  - constructor.
  - constructor.
  - reflexivity.
  - intros q _. apply lookup_empty.
  - exists srv'. split; [exact H1|exact H2].
Defined.

Lemma digits_aux_head (fuel : nat) : ∀ (n : nat) (acc : string),
  ∃ (d : nat) (rest : string),
    d < 10 ∧ digits_aux (S fuel) n acc = String (digit_char d) rest.
Proof.
  induction fuel as [|fuel IH]; intros n acc; rewrite digits_aux_S.
  - destruct (n <? 10); exists (n mod 10), acc; (split; [apply Nat.mod_upper_bound; lia|done]).
  - destruct (n <? 10).
    + exists (n mod 10), acc. split; [apply Nat.mod_upper_bound; lia|done].
    + apply IH.
Qed.

Lemma nat_toString_not_accounts (i : nat) : nat_toString i ≠ "accounts".
Proof.
  unfold nat_toString. destruct (digits_aux_head i i "") as (d & rest & Hd & ->).
  intros [= Hc _]. do 10 (destruct d as [|d]; [discriminate Hc|]). lia.
Qed.

Lemma index_not_accounts (l : list nat) :
  list_find (λ i, nat_toString i = "accounts") l = None.
Proof.
  apply list_find_None. apply Forall_forall. intros i _. apply nat_toString_not_accounts.
Qed.

Lemma only_objects_hold_accounts (v : json) :
  isArray (get v "accounts") = true →
  ∃ fields l, v = JObj fields ∧ field "accounts" fields = Some (JArr l).
Proof.
  destruct v as [| | |s|elements|fields]; try done.
  - cbn [get String.eqb Ascii.eqb Bool.eqb]. cbn match.
    unfold char_at. by rewrite index_not_accounts.
  - cbn [get String.eqb Ascii.eqb Bool.eqb]. cbn match.
    unfold element_at. by rewrite index_not_accounts.
  - cbn [get]. destruct (field "accounts" fields) as [[| | | |l|]|] eqn:Hf; try done.
    intros _. by exists fields, l.
Qed.

(** X24: what the handlers take [db.json] to hold.  Whatever value the
    file holds, they see an object with an array of accounts, and no
    content makes this step fail; the shape [{ accounts }] and the two
    older shapes [[{ accounts }]] and [{ "0": { accounts } }] give the same
    accounts; a value that shows no array of accounts counts as no
    account at all. *)
Theorem db_shapes_read_alike (accounts : list json) (db : json) :
  accounts_of (normalize_db (JObj [("accounts", JArr accounts)])) = accounts ∧
  accounts_of (normalize_db (JArr [JObj [("accounts", JArr accounts)]])) = accounts ∧
  accounts_of (normalize_db (JObj [("0", JObj [("accounts", JArr accounts)])])) = accounts ∧
  (∃ fields l, normalize_db db = JObj fields ∧
               field "accounts" fields = Some (JArr l) ∧ accounts_of (normalize_db db) = l) ∧
  accounts_of (normalize_db JNull) = [] ∧
  accounts_of (normalize_db (JArr [])) = [] ∧
  accounts_of (normalize_db (JObj [("accounts", JStr "none")])) = [].
Proof.
  repeat split; try reflexivity.
  unfold normalize_db. cbn zeta.
  match goal with |- context [if ?c then empty_db else ?x] =>
    destruct c eqn:Hc; [by exists [("accounts", JArr [])], []|]; set (db2 := x) in * end.
  apply orb_false_iff in Hc as [_ Harr%negb_false_iff].
  apply only_objects_hold_accounts in Harr as (fields & l & Heq & Hf).
  exists fields, l. rewrite Heq. split; [done|]. split; [done|].
  unfold accounts_of. cbn [get]. by rewrite Hf.
Qed.

(** ** Frame and invariant of the routes *)

Lemma combine_other (faults : nat → bool) (s : session) (fp q : path) (d : disk) :
  q ≠ fp → (combine faults s fp d).1 !! q = d !! q.
Proof.
  intros Hq. unfold combine.
  destruct (open_write d fp) as [d1|] eqn:Ho; [|done].
  apply open_write_Some in Ho as ->.
  rewrite combine_loop_other by done. by rewrite lookup_insert_ne.
Qed.

(** X25: finalize leaves the files of the users alone.  For a file name
    and a session id that are single names, and a session whose scratch
    directory is [temp] joined with its id, whatever the outcome (an
    answer, or the exit of the process), every entry outside [temp] is
    after the call what it was before, and the only entry that can be new
    outside [temp] is the destination that the name-probing loop chose,
    which was free. *)
Theorem finalize_preserves_existing_files
    (faults : nat → bool) (r : finalize_request) (st : state) :
  (∀ fname, fin_fileName r = Some fname → fname ≠ "" → single_name fname = true) →
  (∀ sid s, fin_sessionId r = Some sid → chunkSessions st !! sid = Some s →
            single_name sid = true ∧ tempDir s = ["temp"; sid] ∧
            proper_path (targetDir s) = true) →
  ∀ p : path, under_temp p = false →
    (∀ n, files st !! p = Some n → files (finalize_upload faults r st).2 !! p = Some n) ∧
    (files st !! p = None → is_Some (files (finalize_upload faults r st).2 !! p) →
     ∃ sid fname s nm,
       fin_sessionId r = Some sid ∧ fin_fileName r = Some fname ∧
       chunkSessions st !! sid = Some s ∧
       final_path (files st) s fname = Some (p, nm)).
Proof.
  intros _ Hsession p Hp.
  assert (∀ sid s, fin_sessionId r = Some sid → chunkSessions st !! sid = Some s →
                   under_temp (tempDir s) = true) as Htemp.
  { intros sid s Hsid Hs. by destruct (Hsession sid s Hsid Hs) as (_ & -> & _). }
  destruct (decide (http_status (finalize_upload faults r st).1 = 200 ∨
                    http_status (finalize_upload faults r st).1 = 500)) as [Hok|Hno].
  - apply finalize_upload_state in Hok
      as (sid & fname & s & fp & nm & Hsid & Hfname & Hs & _ & _ & Hfp & ->).
    cbn [files].
    pose proof (Htemp sid s Hsid Hs) as Hunder.
    assert (¬ temp_root `prefix_of` p) as Hnt.
    { intros H%under_temp_prefix. congruence. }
    assert (¬ tempDir s `prefix_of` p) as Hns.
    { intros H. apply Hnt. etrans; [|exact H]. by apply under_temp_prefix. }
    rewrite cleanup_lookup_other, rm_rf_lookup_other by done.
    apply final_path_spec in Hfp as Hfree. destruct Hfree as [Hfree _].
    split.
    + intros n Hn. rewrite combine_other; [done|]. intros ->. congruence.
    + intros Hnone Hsome. destruct (decide (p = fp)) as [->|Hne].
      * by exists sid, fname, s, nm.
      * rewrite combine_other in Hsome by done. rewrite Hnone in Hsome.
        by destruct Hsome.
  - destruct ((finalize_upload faults r st).1) eqn:Hresp;
      try (exfalso; apply Hno; cbn; auto; fail);
      try (rewrite finalize_rejected_unchanged by (by rewrite Hresp);
           split; [done|]; intros Hnone [n Hn]; congruence).
    apply finalize_upload_exit in Hresp
      as (sid & fname & s & fp & nm & e & Hsid & Hfname & Hs & _ & _ & Hfp & _ & _ & ->).
    cbn [files].
    apply final_path_spec in Hfp as Hfree. destruct Hfree as [Hfree _].
    split.
    + intros n Hn. rewrite combine_other; [done|]. intros ->. congruence.
    + intros Hnone Hsome. destruct (decide (p = fp)) as [->|Hne].
      * by exists sid, fname, s, nm.
      * rewrite combine_other in Hsome by done. rewrite Hnone in Hsome.
        by destruct Hsome.
Qed.

Lemma finalize_preserves_existing_files_witness :
  let st0 := (sample_chunked 0 "s1" sample_bytes_a initial_state).2 in
  let st := then_chunk 2 "s2" 0 "b" sample_bytes_b "u1"
              (then_init 1 (sample_init "s2" "u1" 1) st0) in
  files st !! ["u1"; "doc.txt"] = Some (File sample_bytes_a) ∧
  files (finalize_upload no_faults (sample_finalize "s2" "u1" 1) st).2
    !! ["u1"; "doc.txt"] = Some (File sample_bytes_a).
Proof.
  intros st0 st.
  assert (files st !! ["u1"; "doc.txt"] = Some (File sample_bytes_a)) as H
    by (vm_compute; reflexivity).
  split; [exact H|].
  refine (proj1 (finalize_preserves_existing_files no_faults
                   (sample_finalize "s2" "u1" 1) st _ _ ["u1"; "doc.txt"] eq_refl) _ H).
  - by intros fname [= <-] _.
  - intros sid s [= <-] Hs. vm_compute in Hs. injection Hs as <-.
    split; [reflexivity|]. split; reflexivity.
Defined.

(** X26: when the directory of the destination is not there any more,
    finalize of a complete session does not answer.  The write stream
    that it opens has no [error] listener, so the failure to open ends
    the process: the registry is lost and the disk is left as it was,
    with the chunks still in the scratch directory.  The names are single
    names and the first chunk is in place. *)
Theorem finalize_without_target_directory_exits
    (faults : nat → bool) (r : finalize_request) (st : state)
    (sid fname : string) (total : Z) (s : session) (first : bytes) :
  fin_sessionId r = Some sid → fin_fileName r = Some fname →
  fin_totalChunks r = Some total →
  single_name sid = true → single_name fname = true → total ≠ 0%Z →
  chunkSessions st !! sid = Some s → userId s = fin_userId r →
  tempDir s = ["temp"; sid] →
  Z.of_nat (size (receivedChunks s)) = totalChunks s →
  files st !! ["temp"; sid; chunk_name 0] = Some (File first) →
  proper_path (targetDir s) = true → targetDir s ≠ [] →
  is_directory (files st) (targetDir s) = false →
  finalize_upload faults r st
  = (ProcessExit, {| chunkSessions := ∅; uploadProgress := ∅; files := files st |}) ∧
  http_status (finalize_upload faults r st).1 = 0.
Proof.
  intros Hsid Hfname Htotal Hs1 Hf1 Htot Hs Hu Htemp Hcount _ Htarget Hne Hdir.
  apply single_name_plain in Hs1 as Hsp, Hf1 as Hfp.
  apply proper_path_normal in Htarget.
  assert (finalize_upload faults r st
          = (ProcessExit, {| chunkSessions := ∅; uploadProgress := ∅; files := files st |}))
    as Hout; [|by rewrite Hout].
  unfold finalize_upload. rewrite Hsid, Hfname, Htotal.
  assert (String.eqb sid "" = false) as ->.
  { apply String.eqb_neq. intros ->. done. }
  assert (String.eqb fname "" = false) as ->.
  { apply String.eqb_neq. intros ->. done. }
  apply Z.eqb_neq in Htot as ->. cbn [orb]. rewrite Hs, Hu, String.eqb_refl.
  cbn [negb]. apply Z.eqb_eq in Hcount as ->. cbn [negb].
  destruct (resolve_conflict_total (files st) (targetDir s) fname 1
              (path_join (targetDir s) [fname], fname)) as [[fp nm] Hr].
  rewrite Hr. apply resolve_conflict_Some in Hr as [_ Hr]. cbn [fst] in Hr.
  assert (∃ c, fp = targetDir s ++ [c]) as [c ->].
  { destruct Hr as [[= -> ->]|[_ (k & _ & [= -> ->] & _)]].
    - exists fname. by apply path_join_normal.
    - exists (numbered_name fname k). unfold candidate.
      apply path_join_normal; [done|apply plain_numbered_name]. }
  unfold combine, open_write.
  destruct (targetDir s ++ [c]) as [|x l] eqn:Heq.
  { by destruct (snoc_not_nil (targetDir s) c). }
  rewrite <- Heq, parent_snoc, Hdir. reflexivity.
Qed.

Lemma finalize_without_target_directory_exits_witness :
  let st0 := then_chunk 1 "s1" 0 "a" sample_bytes_a "u1"
               (then_init 0 (sample_init "s1" "u1" 1) initial_state) in
  let st := set_files st0 (delete ["u1"] (files st0)) in
  (finalize_upload no_faults (sample_finalize "s1" "u1" 1) st).1 = ProcessExit.
Proof.
  intros st0 st.
  assert (∃ s, chunkSessions st !! "s1" = Some s ∧ userId s = "u1" ∧
               tempDir s = ["temp"; "s1"] ∧ targetDir s = ["u1"] ∧
               totalChunks s = 1%Z ∧ receivedChunks s = {[ 0%Z ]})
    as (s & Hs & Hu & Ht & Hd & Hn & Hrc).
  { eexists. split; [vm_compute; reflexivity|]. repeat split; reflexivity. }
  rewrite (proj1 (finalize_without_target_directory_exits no_faults
                    (sample_finalize "s1" "u1" 1) st "s1" "doc.txt" 1 s sample_bytes_a
                    eq_refl eq_refl eq_refl eq_refl eq_refl
                    ltac:(discriminate) Hs Hu Ht
                    ltac:(rewrite Hn, Hrc; reflexivity)
                    ltac:(vm_compute; reflexivity)
                    ltac:(rewrite Hd; reflexivity)
                    ltac:(rewrite Hd; discriminate)
                    ltac:(rewrite Hd; vm_compute; reflexivity))).
  reflexivity.
Defined.
